(** * Neon Ladder: the simulation core of [src/game.ts]

    A shallow embedding of the gameplay state machine of the [Game] class
    (throwing, the per-tick update, the hero bounce, projectile flight and
    wall sticking, the human's jump/worry policy, the bonus crawler feature)
    together with the properties the specification states about it.

    Numbers.  JavaScript numbers that measure metres and seconds are
    idealised as real numbers ([R]); rounding, [NaN] and infinities are not
    modelled, and a division by zero has the value [0] as everywhere in the
    standard library of reals.  The platform budget ([platformsLeft],
    [config.platform.count], [config.features.bonusReward]) counts whole
    platforms and lives in [Z].

    Randomness.  Every call of [Math.random()] that the simulation reads is
    an explicit argument [u] with [0 <= u < 1].

    Features.  [resetGame] registers one feature, the [BonusCrawlerFeature]
    class that game.ts declares itself; the feature list is a list of a
    variant type with that one case, and the loops over it are written for
    any list.

    The simulation core comes first.  It leaves out the animation
    bookkeeping fields ([heroThrowCharging], [heroBounceActive],
    [humanIdleClipIndex], projectile [rotation], platform [id] and
    [spriteFrame], ...), none of which the simulation reads.

    What surrounds the core comes second: the settings reset, the layout of
    the canvas, the platform icons, the prompt, the leaderboard, the
    arithmetic of the sprite sheets, the hero's and the human's animation
    fields, the throw controls and the frame loop.  Each of these is a
    function of the game and of the fields it adds, kept in records of
    their own ([Layout], [HeroAnim], [IdleAnim], [Session]).

    Left out throughout: the DOM, the drawing on the canvas, the stored
    configuration and its merge, and the settings sliders, which store
    numbers that are not whole in [config.platform.count]. *)

From Stdlib Require Import Reals Lra ZArith QArith Lia List Bool.
From Stdlib Require Import Permutation.
From Stdlib Require String.
Import ListNotations.

Local Open Scope R_scope.

(* ================================================================== *)
(** ** Comparisons on numbers, as booleans *)

Definition Rleb (a b : R) : bool := if Rle_dec a b then true else false.
Definition Rltb (a b : R) : bool := if Rlt_dec a b then true else false.

Infix "<=?" := Rleb (at level 70, no associativity) : R_scope.
Infix "<?" := Rltb (at level 70, no associativity) : R_scope.

(* ================================================================== *)
(** ** utils.ts *)

(** [clamp(value, min, max) = Math.min(max, Math.max(min, value))] *)
Definition clamp (value lo hi : R) : R := Rmin hi (Rmax lo value).

(** [lerp(start, end, t) = start + (end - start) * t] *)
Definition lerp (start stop t : R) : R := start + (stop - start) * t.

(** [randRange(min, max) = min + Math.random() * (max - min)], the draw
    [Math.random()] being [u]. *)
Definition randRange (u lo hi : R) : R := lo + u * (hi - lo).

(** [easeInOut(t) = t < 0.5 ? 2*t*t : 1 - Math.pow(-2*t + 2, 2) / 2] *)
Definition easeInOut (t : R) : R :=
  if t <? 0.5 then 2 * t * t else 1 - ((-2 * t + 2) * (-2 * t + 2)) / 2.

(* ================================================================== *)
(** ** animation.ts: the clips the simulation reads *)

Record ClipSpec := mkClip { clip_length : R; clip_fps : R }.

(** [clipDuration(clip) = clip.length / Math.max(1, clip.fps)] *)
Definition clipDuration (c : ClipSpec) : R := clip_length c / Rmax 1 (clip_fps c).

(** [HUMAN_ANIM.jump.prep = { row: 1, start: 1, length: 1, fps: 10 }] *)
Definition HUMAN_ANIM_jump_prep : ClipSpec := mkClip 1 10.
(** [HUMAN_ANIM.jump.landRatio = 0.88] *)
Definition HUMAN_ANIM_jump_landRatio : R := 0.88.

(* ================================================================== *)
(** ** types.ts *)

Record Vec2 := mkVec2 { v_x : R; v_y : R }.

Inductive GameMode := playing | gameover.
Inductive HumanState := idle | jumping | worry.
Inductive HumanJumpPhase := prep | ascend | descend | land.

Definition GameMode_eqb (a b : GameMode) : bool :=
  match a, b with playing, playing | gameover, gameover => true | _, _ => false end.

Definition HumanState_eqb (a b : HumanState) : bool :=
  match a, b with
  | idle, idle | jumping, jumping | worry, worry => true
  | _, _ => false
  end.

Definition HumanJumpPhase_eqb (a b : HumanJumpPhase) : bool :=
  match a, b with
  | prep, prep | ascend, ascend | descend, descend | land, land => true
  | _, _ => false
  end.

(** [GameConfig], flattened: [physics_gravity] is [config.physics.gravity]
    and so on. *)
Record GameConfig := mkConfig {
  physics_gravity : R;
  throwing_speed : R;
  throwing_cooldown : R;
  platform_count : Z;
  hero_peakOffset : R;
  hero_peakRandomness : R;
  hero_minPeak : R;
  human_jumpThreshold : R;
  human_jumpDuration : R;
  human_jumpArc : R;
  human_worryDuration : R;
  camera_offset : R;
  camera_followSpeed : R;
  features_bonusCrawler : bool;
  features_bonusReward : Z;
  features_bonusSpeed : R;
  features_bonusRespawn : R;
  ui_promptDuration : R
}.

Record Platform := mkPlatform { plat_y : R; plat_createdAt : R }.

Record Projectile := mkProjectile {
  proj_pos : Vec2;
  proj_vel : Vec2;
  proj_age : R;
  proj_active : bool
}.

Record Hero := mkHero { hero_pos : Vec2; hero_vel : Vec2; hero_squish : R }.

Record Human := mkHuman {
  hum_y : R;
  hum_state : HumanState;
  hum_jumpPhase : HumanJumpPhase;
  hum_jumpPhaseTime : R;
  hum_jumpStart : R;
  hum_jumpTarget : R;
  hum_jumpTime : R;
  hum_worryTime : R
}.

(** The private fields of [class BonusCrawlerFeature] in game.ts. *)
Record BonusCrawler := mkCrawler {
  bc_y : R;
  bc_active : bool;
  bc_respawnTimer : R;
  bc_flashTime : R
}.

(** [GameFeature]: the variants registered by [resetGame]. *)
Inductive GameFeature :=
| BonusCrawlerFeature (st : BonusCrawler).

(** The simulation fields of [class Game]. *)
Record Game := mkGame {
  config : GameConfig;
  mode : GameMode;
  cameraY : R;
  viewHeightMeters : R;
  maxAltitude : R;
  heroGroundY : R;
  hero : Hero;
  human : Human;
  platforms : list Platform;
  projectiles : list Projectile;
  features : list GameFeature;
  platformsLeft : Z;
  score : R;
  lastThrowAt : R;
  time : R;
  promptTimer : R
}.

(** Field assignments [this.f = v]. *)
Definition set_mode (g : Game) (v : GameMode) : Game :=
  mkGame (config g) v (cameraY g) (viewHeightMeters g) (maxAltitude g)
    (heroGroundY g) (hero g) (human g) (platforms g) (projectiles g)
    (features g) (platformsLeft g) (score g) (lastThrowAt g) (time g)
    (promptTimer g).
Definition set_cameraY (g : Game) (v : R) : Game :=
  mkGame (config g) (mode g) v (viewHeightMeters g) (maxAltitude g)
    (heroGroundY g) (hero g) (human g) (platforms g) (projectiles g)
    (features g) (platformsLeft g) (score g) (lastThrowAt g) (time g)
    (promptTimer g).
Definition set_maxAltitude (g : Game) (v : R) : Game :=
  mkGame (config g) (mode g) (cameraY g) (viewHeightMeters g) v
    (heroGroundY g) (hero g) (human g) (platforms g) (projectiles g)
    (features g) (platformsLeft g) (score g) (lastThrowAt g) (time g)
    (promptTimer g).
Definition set_hero (g : Game) (v : Hero) : Game :=
  mkGame (config g) (mode g) (cameraY g) (viewHeightMeters g) (maxAltitude g)
    (heroGroundY g) v (human g) (platforms g) (projectiles g)
    (features g) (platformsLeft g) (score g) (lastThrowAt g) (time g)
    (promptTimer g).
Definition set_human (g : Game) (v : Human) : Game :=
  mkGame (config g) (mode g) (cameraY g) (viewHeightMeters g) (maxAltitude g)
    (heroGroundY g) (hero g) v (platforms g) (projectiles g)
    (features g) (platformsLeft g) (score g) (lastThrowAt g) (time g)
    (promptTimer g).
Definition set_platforms (g : Game) (v : list Platform) : Game :=
  mkGame (config g) (mode g) (cameraY g) (viewHeightMeters g) (maxAltitude g)
    (heroGroundY g) (hero g) (human g) v (projectiles g)
    (features g) (platformsLeft g) (score g) (lastThrowAt g) (time g)
    (promptTimer g).
Definition set_projectiles (g : Game) (v : list Projectile) : Game :=
  mkGame (config g) (mode g) (cameraY g) (viewHeightMeters g) (maxAltitude g)
    (heroGroundY g) (hero g) (human g) (platforms g) v
    (features g) (platformsLeft g) (score g) (lastThrowAt g) (time g)
    (promptTimer g).
Definition set_features (g : Game) (v : list GameFeature) : Game :=
  mkGame (config g) (mode g) (cameraY g) (viewHeightMeters g) (maxAltitude g)
    (heroGroundY g) (hero g) (human g) (platforms g) (projectiles g)
    v (platformsLeft g) (score g) (lastThrowAt g) (time g)
    (promptTimer g).
Definition set_platformsLeft (g : Game) (v : Z) : Game :=
  mkGame (config g) (mode g) (cameraY g) (viewHeightMeters g) (maxAltitude g)
    (heroGroundY g) (hero g) (human g) (platforms g) (projectiles g)
    (features g) v (score g) (lastThrowAt g) (time g)
    (promptTimer g).
Definition set_score (g : Game) (v : R) : Game :=
  mkGame (config g) (mode g) (cameraY g) (viewHeightMeters g) (maxAltitude g)
    (heroGroundY g) (hero g) (human g) (platforms g) (projectiles g)
    (features g) (platformsLeft g) v (lastThrowAt g) (time g)
    (promptTimer g).
Definition set_lastThrowAt (g : Game) (v : R) : Game :=
  mkGame (config g) (mode g) (cameraY g) (viewHeightMeters g) (maxAltitude g)
    (heroGroundY g) (hero g) (human g) (platforms g) (projectiles g)
    (features g) (platformsLeft g) (score g) v (time g)
    (promptTimer g).
Definition set_time (g : Game) (v : R) : Game :=
  mkGame (config g) (mode g) (cameraY g) (viewHeightMeters g) (maxAltitude g)
    (heroGroundY g) (hero g) (human g) (platforms g) (projectiles g)
    (features g) (platformsLeft g) (score g) (lastThrowAt g) v
    (promptTimer g).
Definition set_promptTimer (g : Game) (v : R) : Game :=
  mkGame (config g) (mode g) (cameraY g) (viewHeightMeters g) (maxAltitude g)
    (heroGroundY g) (hero g) (human g) (platforms g) (projectiles g)
    (features g) (platformsLeft g) (score g) (lastThrowAt g) (time g)
    v.

(* ================================================================== *)
(** ** game.ts: the budget *)

(** [Game.throwPlatform], lines 575-613.  [u] is the draw of
    [randRange(0.35, 0.75)].  The result pairs the returned boolean with
    the game after the call. *)
Definition throwPlatform (g : Game) (u : R) : bool * Game :=
  let now := time g in
  if negb (GameMode_eqb (mode g) playing) then (false, g)
  else if (platformsLeft g <=? 0)%Z then (false, g)
  else if now - lastThrowAt g <? throwing_cooldown (config g) then (false, g)
  else
    let startX := v_x (hero_pos (hero g)) - 0.2 in
    let gravity := physics_gravity (config g) * 0.85 in
    let arcHeight := randRange u 0.35 0.75 in
    let arcVy := sqrt (2 * gravity * arcHeight) in
    let projectile :=
      mkProjectile (mkVec2 startX (v_y (hero_pos (hero g)) + 0.6))
                   (mkVec2 (- throwing_speed (config g)) arcVy)
                   0 true in
    let g1 := set_projectiles g (projectiles g ++ [projectile]) in
    let g2 := set_platformsLeft g1 (platformsLeft g1 - 1) in
    let g3 := set_lastThrowAt g2 now in
    let g4 := set_promptTimer g3 0 in
    (true, g4).

(** [Game.addPlatforms], lines 615-621. *)
Definition addPlatforms (g : Game) (amount : Z) : Game :=
  set_platformsLeft g
    (Z.min (platform_count (config g)) (platformsLeft g + amount)).

(* ================================================================== *)
(** ** game.ts: the human's decision policy *)

(** [Game.findReachablePlatform], lines 871-885: the loop body, with the
    running [candidate]. *)
Definition reachableStep (humanY threshold : R)
    (candidate : option Platform) (platform : Platform) : option Platform :=
  if plat_y platform <=? humanY then candidate
  else
    let delta := plat_y platform - humanY in
    if delta <=? threshold then
      match candidate with
      | None => Some platform
      | Some c => if plat_y c <? plat_y platform then Some platform else candidate
      end
    else candidate.

Definition findReachableFrom (humanY threshold : R)
    (ps : list Platform) (candidate : option Platform) : option Platform :=
  fold_left (reachableStep humanY threshold) ps candidate.

Definition findReachablePlatform (g : Game) : option Platform :=
  findReachableFrom (hum_y (human g)) (human_jumpThreshold (config g))
    (platforms g) None.

(** [Game.attemptHumanJump], lines 887-905. *)
Definition attemptHumanJump (g : Game) : bool * Game :=
  if HumanState_eqb (hum_state (human g)) jumping then (false, g)
  else
    match findReachablePlatform g with
    | None => (false, g)
    | Some target =>
        let h := human g in
        (true,
         set_human g
           (mkHuman (hum_y h) jumping prep 0 (hum_y h) (plat_y target) 0 0))
    end.

(** [Game.handlePlatformPlacement], lines 784-795. *)
Definition handlePlatformPlacement (g : Game) (platformY : R) : Game :=
  if HumanState_eqb (hum_state (human g)) jumping then g
  else
    let '(jumped, g1) := attemptHumanJump g in
    if jumped then g1
    else
      let h := human g1 in
      set_human g1
        (mkHuman (hum_y h) worry (hum_jumpPhase h) (hum_jumpPhaseTime h)
           (hum_jumpStart h) (hum_jumpTarget h) (hum_jumpTime h)
           (human_worryDuration (config g1))).

(** [Game.advanceHumanJump], lines 831-864. *)
Definition advanceHumanJump (g : Game) (dt : R) : Game :=
  let h := human g in
  let jumpTime := hum_jumpTime h + dt in
  let t := clamp (jumpTime / human_jumpDuration (config g)) 0 1 in
  let eased := easeInOut t in
  let arc := sin (t * PI) * human_jumpArc (config g) in
  let y1 := lerp (hum_jumpStart h) (hum_jumpTarget h) eased + arc in
  let landRatio := clamp HUMAN_ANIM_jump_landRatio 0 1 in
  let nextPhase :=
    if landRatio <=? t then land
    else if 0.5 <=? t then descend
    else ascend in
  let '(phase1, phaseTime1) :=
    if negb (HumanJumpPhase_eqb nextPhase (hum_jumpPhase h))
    then (nextPhase, 0)
    else (hum_jumpPhase h, hum_jumpPhaseTime h + dt) in
  if 1 <=? t then
    set_human g
      (mkHuman (hum_jumpTarget h) idle land 0 (hum_jumpStart h)
         (hum_jumpTarget h) jumpTime (hum_worryTime h))
  else
    set_human g
      (mkHuman y1 (hum_state h) phase1 phaseTime1 (hum_jumpStart h)
         (hum_jumpTarget h) jumpTime (hum_worryTime h)).

(** [Game.updateHuman], lines 797-829, first [if]: the jump in progress. *)
Definition humanJumpingStep (g : Game) (dt : R) : Game :=
  if HumanState_eqb (hum_state (human g)) jumping then
    let h := human g in
    if HumanJumpPhase_eqb (hum_jumpPhase h) prep then
      let prepDuration := clipDuration HUMAN_ANIM_jump_prep in
      let phaseTime := hum_jumpPhaseTime h + dt in
      if prepDuration <=? phaseTime then
        let overflow := phaseTime - prepDuration in
        let g1 :=
          set_human g
            (mkHuman (hum_jumpStart h) (hum_state h) ascend 0
               (hum_jumpStart h) (hum_jumpTarget h) 0 (hum_worryTime h)) in
        if 0 <? overflow then advanceHumanJump g1 overflow else g1
      else
        set_human g
          (mkHuman (hum_jumpStart h) (hum_state h) (hum_jumpPhase h) phaseTime
             (hum_jumpStart h) (hum_jumpTarget h) (hum_jumpTime h)
             (hum_worryTime h))
    else advanceHumanJump g dt
  else g.

(** Second [if]: the worry timer. *)
Definition humanWorryStep (g : Game) (dt : R) : Game :=
  if HumanState_eqb (hum_state (human g)) worry then
    let h := human g in
    let worryTime := Rmax 0 (hum_worryTime h - dt) in
    set_human g
      (mkHuman (hum_y h)
         (if worryTime <=? 0 then idle else hum_state h)
         (hum_jumpPhase h) (hum_jumpPhaseTime h) (hum_jumpStart h)
         (hum_jumpTarget h) (hum_jumpTime h) worryTime)
  else g.

(** Third [if]: the idle human looks for a platform. *)
Definition humanIdleStep (g : Game) : Game :=
  if HumanState_eqb (hum_state (human g)) idle
  then snd (attemptHumanJump g)
  else g.

Definition updateHuman (g : Game) (dt : R) : Game :=
  humanIdleStep (humanWorryStep (humanJumpingStep g dt) dt).

(* ================================================================== *)
(** ** game.ts: hero, camera *)

(** The launch velocity computed on ground contact, lines 684-690; [u] is
    the draw of [randRange(-peakRandomness, peakRandomness)]. *)
Definition desiredApex (g : Game) (u : R) : R :=
  let peakBase := hum_y (human g) + hero_peakOffset (config g) in
  Rmax (hero_minPeak (config g))
       (peakBase + randRange u (- hero_peakRandomness (config g))
                               (hero_peakRandomness (config g))).

Definition desiredVy (g : Game) (u : R) : R :=
  let heightFromGround := Rmax 0.1 (desiredApex g u - heroGroundY g) in
  sqrt (2 * physics_gravity (config g) * heightFromGround).

(** [Game.updateHero], lines 651-699. *)
Definition updateHero (g : Game) (dt u : R) : Game :=
  let h := hero g in
  let velY := v_y (hero_vel h) - physics_gravity (config g) * dt in
  let posY := v_y (hero_pos h) + velY * dt in
  let h1 :=
    if posY <=? heroGroundY g then
      mkHero (mkVec2 (v_x (hero_pos h)) (heroGroundY g))
             (mkVec2 (v_x (hero_vel h)) (desiredVy g u))
             1
    else
      mkHero (mkVec2 (v_x (hero_pos h)) posY)
             (mkVec2 (v_x (hero_vel h)) velY)
             (hero_squish h) in
  set_hero g
    (mkHero (hero_pos h1) (hero_vel h1) (Rmax 0 (hero_squish h1 - dt * 2.8))).

(** [Game.updateCamera], lines 866-869. *)
Definition updateCamera (g : Game) (dt : R) : Game :=
  let target := Rmax 0 (v_y (hero_pos (hero g)) - camera_offset (config g)) in
  set_cameraY g
    (lerp (cameraY g) target (clamp (dt * camera_followSpeed (config g)) 0 1)).

(* ================================================================== *)
(** ** game.ts: the bonus crawler feature *)

(** [BonusCrawlerFeature.update], lines 59-85. *)
Definition crawler_update (c : BonusCrawler) (dt : R) (g : Game) : BonusCrawler :=
  let cfg := config g in
  if negb (features_bonusCrawler cfg) then
    mkCrawler (bc_y c) false 0 (bc_flashTime c)
  else if negb (bc_active c) then
    let timer := bc_respawnTimer c - dt in
    if timer <=? 0 then mkCrawler (-2) true timer (bc_flashTime c)
    else mkCrawler (bc_y c) (bc_active c) timer (bc_flashTime c)
  else
    let y1 := bc_y c + features_bonusSpeed cfg * dt in
    let c1 :=
      if maxAltitude g + viewHeightMeters g <? y1
      then mkCrawler y1 false (features_bonusRespawn cfg) (bc_flashTime c)
      else mkCrawler y1 (bc_active c) (bc_respawnTimer c) (bc_flashTime c) in
    if 0 <? bc_flashTime c1
    then mkCrawler (bc_y c1) (bc_active c1) (bc_respawnTimer c1)
                   (Rmax 0 (bc_flashTime c1 - dt))
    else c1.

(** [BonusCrawlerFeature.onProjectile], lines 87-105: the crawler after the
    call, the game after the call (the hit grants platforms) and the
    returned boolean. *)
Definition crawler_onProjectile (c : BonusCrawler) (p : Projectile) (g : Game)
  : BonusCrawler * Game * bool :=
  if negb (bc_active c) then (c, g, false)
  else
    let crawlerX := 0.25 in
    let dx := v_x (proj_pos p) - crawlerX in
    let dy := v_y (proj_pos p) - bc_y c in
    let hitRadius := 0.35 in
    if dx * dx + dy * dy <=? hitRadius * hitRadius then
      (mkCrawler (bc_y c) false (features_bonusRespawn (config g)) 0.35,
       addPlatforms g (features_bonusReward (config g)),
       true)
    else (c, g, false).

(** Dispatch on the feature's class. *)
Definition feature_update (f : GameFeature) (dt : R) (g : Game) : GameFeature :=
  match f with
  | BonusCrawlerFeature c => BonusCrawlerFeature (crawler_update c dt g)
  end.

Definition feature_onProjectile (f : GameFeature) (p : Projectile) (g : Game)
  : GameFeature * Game * bool :=
  match f with
  | BonusCrawlerFeature c =>
      let '(c1, g1, hit) := crawler_onProjectile c p g in
      (BonusCrawlerFeature c1, g1, hit)
  end.

(* ================================================================== *)
(** ** game.ts: projectiles *)

Definition deactivate (p : Projectile) : Projectile :=
  mkProjectile (proj_pos p) (proj_vel p) (proj_age p) false.

(** Lines 740-745: one integration step under the reduced gravity. *)
Definition integrate (gravity dt : R) (p : Projectile) : Projectile :=
  let velY := v_y (proj_vel p) - gravity * dt in
  mkProjectile
    (mkVec2 (v_x (proj_pos p) + v_x (proj_vel p) * dt)
            (v_y (proj_pos p) + velY * dt))
    (mkVec2 (v_x (proj_vel p)) velY)
    (proj_age p + dt)
    (proj_active p).

(** Lines 747-752: the projectile is offered to the features in order; the
    loop [break]s at the first feature that consumes it.  Returns the
    features after the loop, the game (whose budget a consuming feature may
    have raised) and whether the projectile was consumed. *)
Fixpoint offerToFeatures (fs : list GameFeature) (p : Projectile) (g : Game)
  : list GameFeature * Game * bool :=
  match fs with
  | [] => ([], g, false)
  | f :: rest =>
      let '(f1, g1, consumed) := feature_onProjectile f p g in
      if consumed then (f1 :: rest, g1, true)
      else
        let '(rest1, g2, c) := offerToFeatures rest p g1 in
        (f1 :: rest1, g2, c)
  end.

(** Lines 758-774: the projectile has crossed the wall plane. *)
Definition stickToWall (g : Game) (p : Projectile) : Game :=
  let platformY := Rmax 0 (v_y (proj_pos p)) in
  let g1 := set_platforms g (platforms g ++ [mkPlatform platformY (time g)]) in
  handlePlatformPlacement g1 platformY.

(** Line 776: outside the tracked vertical window. *)
Definition offRange (g : Game) (p : Projectile) : bool :=
  (v_y (proj_pos p) <? -2)
  || (cameraY g + viewHeightMeters g + 6 <? v_y (proj_pos p)).

(** The body of the [for] loop of [Game.updateProjectiles], lines 735-779,
    for one projectile: the game and the projectile after the iteration. *)
Definition stepProjectile (g : Game) (dt : R) (p : Projectile)
  : Game * Projectile :=
  if negb (proj_active p) then (g, p)
  else
    let gravity := physics_gravity (config g) * 0.85 in
    let wallX := 0 in
    let p1 := integrate gravity dt p in
    let '(fs, g1, consumed) := offerToFeatures (features g) p1 g in
    let g2 := set_features g1 fs in
    if consumed then (g2, deactivate p1)
    else
      let '(g3, p3) :=
        if v_x (proj_pos p1) <=? wallX
        then (stickToWall g2 p1, deactivate p1)
        else (g2, p1) in
      if offRange g3 p3 then (g3, deactivate p3) else (g3, p3).

(** The [for] loop over [this.projectiles]. *)
Fixpoint stepProjectiles (g : Game) (dt : R) (ps : list Projectile)
  : Game * list Projectile :=
  match ps with
  | [] => (g, [])
  | p :: rest =>
      let '(g1, p1) := stepProjectile g dt p in
      let '(g2, rest1) := stepProjectiles g1 dt rest in
      (g2, p1 :: rest1)
  end.

(** [Game.updateProjectiles], lines 731-782. *)
Definition updateProjectiles (g : Game) (dt : R) : Game :=
  let '(g1, ps) := stepProjectiles g dt (projectiles g) in
  set_projectiles g1 (filter proj_active ps).

(* ================================================================== *)
(** ** game.ts: the tick *)

(** [Game.endGame], lines 958-962. *)
Definition endGame (g : Game) : Game := set_mode g gameover.

(** The termination test of line 646. *)
Definition runIsOver (g : Game) : bool :=
  (platformsLeft g <=? 0)%Z
  && (Nat.eqb (length (projectiles g)) 0)
  && HumanState_eqb (hum_state (human g)) idle.

(** Lines 628-629: the run clock and the prompt timer. *)
Definition tickClock (g : Game) (dt : R) : Game :=
  let g1 := set_time g (time g + dt) in
  set_promptTimer g1 (Rmax 0 (promptTimer g1 - dt)).

(** Line 637: [Math.max(this.maxAltitude, this.hero.pos.y, this.human.y)]. *)
Definition trackAltitude (g : Game) : Game :=
  set_maxAltitude g
    (Rmax (Rmax (maxAltitude g) (v_y (hero_pos (hero g)))) (hum_y (human g))).

(** Lines 639-641: every feature's [update], in registration order. *)
Definition updateFeatures (g : Game) (dt : R) : Game :=
  set_features g (map (fun f => feature_update f dt g) (features g)).

(** Line 643. *)
Definition updateScore (g : Game) : Game :=
  set_score g (Rmax (score g) (hum_y (human g))).

(** Lines 628-644: everything a tick does before the termination test. *)
Definition advance (g : Game) (dt u : R) : Game :=
  let g1 := tickClock g dt in
  let g2 := updateHero g1 dt u in
  let g3 := updateProjectiles g2 dt in
  let g4 := updateHuman g3 dt in
  let g5 := updateCamera g4 dt in
  let g6 := trackAltitude g5 in
  let g7 := updateFeatures g6 dt in
  updateScore g7.

(** [Game.update], lines 623-649; [u] is the random draw of [updateHero]. *)
Definition update (g : Game) (dt u : R) : Game :=
  if negb (GameMode_eqb (mode g) playing) then g
  else
    let g1 := advance g dt u in
    if runIsOver g1 then endGame g1 else g1.

(** [Game.resetGame], lines 489-550. *)
Definition resetGame (g : Game) : Game :=
  let cfg := config g in
  let initialPlatformY := human_jumpThreshold cfg in
  mkGame cfg playing 0 (viewHeightMeters g) 0 (heroGroundY g)
    (mkHero (mkVec2 3.1 (heroGroundY g)) (mkVec2 0 0) 0)
    (mkHuman initialPlatformY idle prep 0 initialPlatformY initialPlatformY 0 0)
    [mkPlatform initialPlatformY (0 - 1)]
    []
    [BonusCrawlerFeature (mkCrawler 0 false (features_bonusRespawn cfg) 0)]
    (platform_count cfg)
    0 0 0 (ui_promptDuration cfg).

(* ================================================================== *)
(** * The vocabulary of the properties *)

(** ** What a step leaves alone *)

(** The fields that only [update], [throwPlatform] and [resetGame] assign. *)
Definition same_frame (g g' : Game) : Prop :=
  config g' = config g /\ mode g' = mode g /\ score g' = score g /\
  lastThrowAt g' = lastThrowAt g /\ time g' = time g /\
  heroGroundY g' = heroGroundY g /\ viewHeightMeters g' = viewHeightMeters g.

(** A step that touches the human only. *)
Definition only_human (g g' : Game) : Prop := g' = set_human g (human g').


(** A step that touches the budget only. *)
Definition only_budget (g g' : Game) : Prop :=
  g' = set_platformsLeft g (platformsLeft g').

(** ** Runs: throws, bonus grants and ticks, interleaved *)

Inductive Op :=
| OpThrow (u : R)            (** [throwPlatform()], with its random draw *)
| OpAdd (amount : Z)         (** [addPlatforms(amount)] *)
| OpTick (dt u : R).         (** [update(dt)], with its random draw *)

Definition applyOp (g : Game) (op : Op) : Game :=
  match op with
  | OpThrow u => snd (throwPlatform g u)
  | OpAdd amount => addPlatforms g amount
  | OpTick dt u => update g dt u
  end.

Definition run (g : Game) (ops : list Op) : Game := fold_left applyOp ops g.


(** Ticks only, each with its [dt] and its random draw. *)
Definition ticks (ts : list (R * R)) : list Op :=
  map (fun t => OpTick (fst t) (snd t)) ts.

(** The simulation time the ticks add up to. *)
Definition elapsed (ts : list (R * R)) : R :=
  fold_right (fun t acc => fst t + acc) 0 ts.

(** ** The initial game *)

(** [DEFAULT_CONFIG] of config.ts. *)
Definition DEFAULT_CONFIG : GameConfig :=
  mkConfig 14 10 0.2 10 2 0.5 1.6 2 0.6 0.7 0.6 2.4 5.6 true 3 1.7 2 2.

(** The game the constructor leaves behind with the default configuration:
    the field initialisers ([viewHeightMeters = 6], [heroGroundY = 0])
    followed by [resetGame()]. *)
Definition initialGame : Game :=
  resetGame
    (mkGame DEFAULT_CONFIG playing 0 6 0 0
       (mkHero (mkVec2 3.1 0) (mkVec2 0 0) 0)
       (mkHuman 0 idle prep 0 0 0 0 0)
       [] [] [] 0 0 0 0 0).

(** ** The auto-jump target *)

(** A platform qualifies when it is strictly above the human and at most
    [threshold] above. *)
Definition qualifies (humanY threshold : R) (p : Platform) : Prop :=
  humanY < plat_y p /\ plat_y p - humanY <= threshold.

(** What the running [candidate] is, after the platforms [seen]. *)
Definition best_of (humanY threshold : R) (seen : list Platform)
    (candidate : option Platform) : Prop :=
  match candidate with
  | Some c =>
      In c seen /\ qualifies humanY threshold c /\
      forall q, In q seen -> qualifies humanY threshold q -> plat_y q <= plat_y c
  | None => forall q, In q seen -> ~ qualifies humanY threshold q
  end.

(** ** The apex of a bounce *)

(** The apex of a launch at vertical speed [v] from [groundY] under
    [gravity]: [groundY + v^2 / (2 * gravity)]. *)
Definition apexOf (groundY v gravity : R) : R :=
  groundY + (v * v) / (2 * gravity).

(** The hero touches the trampoline during [updateHero(dt)]: the test of
    line 674 on the integrated height. *)
Definition groundContact (g : Game) (dt : R) : Prop :=
  v_y (hero_pos (hero g))
    + (v_y (hero_vel (hero g)) - physics_gravity (config g) * dt) * dt
  <= heroGroundY g.

(** ** Concrete games *)

(** The default configuration with the gravity slider at [0] (the settings
    panel clamps every value to [[0, 999]]). *)
Definition zeroGravityGame : Game :=
  resetGame
    (mkGame
       (mkConfig 0 10 0.2 10 2 0.5 1.6 2 0.6 0.7 0.6 2.4 5.6 true 3 1.7 2 2)
       playing 0 6 0 0
       (mkHero (mkVec2 3.1 0) (mkVec2 0 0) 0)
       (mkHuman 0 idle prep 0 0 0 0 0)
       [] [] [] 0 0 0 0 0).

(** The human about to land on the platform at 4, with platforms at 2, 4
    and 5.5 and a threshold of 2. *)
Definition landingGame : Game :=
  mkGame DEFAULT_CONFIG playing 0 6 0 0
    (mkHero (mkVec2 3.1 0) (mkVec2 0 0) 0)
    (mkHuman 3.9 jumping land 0.01 2 4 0.59 0)
    [mkPlatform 2 (-1); mkPlatform 4 1; mkPlatform 5.5 2] [] [] 3 2 2 3 0.

(** The human whose worry ends, under the platform at 4. *)
Definition worryEndsGame : Game :=
  mkGame DEFAULT_CONFIG playing 0 6 0 0
    (mkHero (mkVec2 3.1 0) (mkVec2 0 0) 0)
    (mkHuman 2 worry prep 0 2 2 0 0.01)
    [mkPlatform 2 (-1); mkPlatform 1 1; mkPlatform 4 2] [] [] 3 2 2 3 0.


(** ** A run that takes the human from worry to jumping *)

(** [n] frames of 0.03 s in which the hero does not touch the ground (the
    frame loop hands [update] at most 0.033 s). *)
Definition quiet (n : nat) : list Op := repeat (OpTick 0.03 0) n.

(** The first twenty frames: the hero bounces (the draw makes the launch
    velocity [sqrt 100]) and rises. *)
Definition firstFrames : list Op := OpTick 0.03 (1/14) :: quiet 19.

(** A platform thrown near the top of the bounce, a second one thrown on
    the way down (the draws make the vertical throw velocity [sqrt 9]), up
    to the frame before the second one reaches the wall. *)
Definition worryRun : list Op :=
  firstFrames ++ OpThrow (67/952) :: quiet 14 ++ OpThrow (67/952) :: quiet 9.

(** [initialGame], field by field. *)
Definition startOfRun : Game :=
  mkGame DEFAULT_CONFIG playing 0 6 0 0
    (mkHero (mkVec2 3.1 0) (mkVec2 0 0) 0)
    (mkHuman 2 idle prep 0 2 2 0 0)
    [mkPlatform 2 (-1)]
    []
    [BonusCrawlerFeature (mkCrawler 0 false 2 0)]
    10 0 0 0 2.

(** The default game after twenty frames: the hero is near the top of its
    first bounce. *)
Definition atFirstThrow : Game :=
  mkGame DEFAULT_CONFIG playing 0.5382745885226990127562843226112 6 3.306 0
    (mkHero (mkVec2 3.1 3.306) (mkVec2 0 2.02) 0)
    (mkHuman 2 idle prep 0 2 2 0 0)
    [mkPlatform 2 (-1)]
    []
    [BonusCrawlerFeature (mkCrawler 0 false 1.4 0)]
    10 2 0 0.6 1.4.

(** The first platform has stuck above the reach of the human, who
    worries; the second is about to reach the wall. *)
Definition stillWorried : Game :=
  mkGame DEFAULT_CONFIG playing 0.1561114264838281285024100126939968364469721129402268525330262121150451300768223804115276147999113216 6 3.4224 0
    (mkHero (mkVec2 3.1 1.2222) (mkVec2 0 (-7.64)) 0)
    (mkHuman 2 worry prep 0 2 2 0 0.18)
    [mkPlatform 2 (-1); mkPlatform 4.21695 0.9]
    [mkProjectile (mkVec2 0.2 3.75945) (mkVec2 (-10) (-0.213)) 0.27 true]
    [BonusCrawlerFeature (mkCrawler 0 false 0.71 0)]
    8 2 1.02 1.29 0.

(** One frame later the second platform has stuck within reach: the human
    jumps. *)
Definition jumpingFromWorry : Game :=
  mkGame DEFAULT_CONFIG playing 0.1298847068345450029140051305614053679238807979662687413074778084797175482239162205023909755135262195712 6 3.4224 0
    (mkHero (mkVec2 3.1 0.9804) (mkVec2 0 (-8.06)) 0)
    (mkHuman 2 jumping prep 0.03 2 3.74235 0 0)
    [mkPlatform 2 (-1); mkPlatform 4.21695 0.9; mkPlatform 3.74235 1.32]
    []
    [BonusCrawlerFeature (mkCrawler 0 false 0.68 0)]
    8 2 1.02 1.32 0.

(** Frames that add up to the cooldown of 0.2 s exactly. *)
Definition cooldownFrames : list (R * R) := repeat (0.03, 0) 6 ++ [(0.02, 0)].

(* ================================================================== *)
(** * Around the simulation: settings, layout, HUD, leaderboard, controls *)

(** ** config.ts and the settings panel *)

(** Field assignments [this.config = v], [this.viewHeightMeters = v]. *)
Definition set_config (g : Game) (v : GameConfig) : Game :=
  mkGame v (mode g) (cameraY g) (viewHeightMeters g) (maxAltitude g)
    (heroGroundY g) (hero g) (human g) (platforms g) (projectiles g)
    (features g) (platformsLeft g) (score g) (lastThrowAt g) (time g)
    (promptTimer g).
Definition set_viewHeightMeters (g : Game) (v : R) : Game :=
  mkGame (config g) (mode g) (cameraY g) v (maxAltitude g)
    (heroGroundY g) (hero g) (human g) (platforms g) (projectiles g)
    (features g) (platformsLeft g) (score g) (lastThrowAt g) (time g)
    (promptTimer g).


(* ================================================================== *)
(** ** game.ts: the layout of the canvas *)

(** The layout fields of [class Game], in CSS pixels. *)
Record Layout := mkLayout {
  width : R;
  height : R;
  wallScreenX : R;
  meterPx : R;
  originY : R
}.

(** [Game.resize], lines 552-565, for a canvas of [clientWidth] by
    [clientHeight]: the layout and the game, whose [viewHeightMeters] it
    assigns. *)
Definition resize (g : Game) (clientWidth clientHeight : R) : Game * Layout :=
  let meterPx := clamp (clientWidth * 0.12) 90 150 in
  let wallScreenX := clamp (clientWidth * 0.08) 50 110 in
  let originY := clientHeight - clamp (clientHeight * 0.2) 90 160 in
  (set_viewHeightMeters g ((originY + 30) / meterPx),
   mkLayout clientWidth clientHeight wallScreenX meterPx originY).

(** [Game.worldToScreenX], [Game.worldToScreenY], lines 567-573. *)
Definition worldToScreenX (l : Layout) (x : R) : R :=
  wallScreenX l + x * meterPx l.

Definition worldToScreenY (g : Game) (l : Layout) (y : R) : R :=
  originY l - (y - cameraY g) * meterPx l.

(* ================================================================== *)
(** ** game.ts: the platform icons of the HUD *)


(* ================================================================== *)
(** ** game.ts: the leaderboard *)

Record ScoreEntry := mkScoreEntry {
  se_name : String.string;
  se_score : R;
  se_timestamp : R
}.

(** [Game.loadScores], lines 1034-1045; [saved] is the parsed item of the
    storage, [None] when the key is absent or does not parse. *)
Definition loadScores (saved : option (list ScoreEntry)) : list ScoreEntry :=
  match saved with
  | None => []
  | Some entries => entries
  end.

(** [entries.sort((a, b) => b.score - a.score)].  The sort of an array is
    stable and the comparator is a consistent order of the scores, which
    determines the result: the entries by descending score, entries of
    equal score in their order in the array.  It is computed here by
    insertion from the right, an entry going in front of the first entry
    that does not beat it. *)
Fixpoint insertByScore (e : ScoreEntry) (sorted : list ScoreEntry)
  : list ScoreEntry :=
  match sorted with
  | [] => [e]
  | x :: rest =>
      if se_score e <? se_score x then x :: insertByScore e rest
      else e :: x :: rest
  end.

Fixpoint sortByScore (entries : list ScoreEntry) : list ScoreEntry :=
  match entries with
  | [] => []
  | e :: rest => insertByScore e (sortByScore rest)
  end.

(** [Game.saveScore], lines 1002-1014: what is written to the storage.
    [name] is the result of [resolvePlayerName()], [now] of [Date.now()];
    without a name ([null], or the empty string) nothing is written. *)
Definition saveScore (g : Game) (name : option String.string) (now : R)
    (saved : option (list ScoreEntry)) : option (list ScoreEntry) :=
  match name with
  | Some (String.String c rest) =>
      let entries :=
        loadScores saved
        ++ [mkScoreEntry (String.String c rest) (score g) now] in
      Some (firstn 10 (sortByScore entries))
  | _ => saved
  end.

(* ================================================================== *)
(** ** animation.ts: clips on a sprite sheet *)

(** A [ClipSpec] with its place on the sheet.  [row], [start] and [length]
    count cells and frames and are whole numbers. *)
Record SheetClip := mkSheetClip {
  sc_row : Z;
  sc_start : Z;
  sc_length : Z;
  sc_fps : R
}.

(** The part of the clip that [clipDuration] reads. *)
Definition clipSpec (c : SheetClip) : ClipSpec :=
  mkClip (IZR (sc_length c)) (sc_fps c).

(** [clipFrameIndex(clip, frame, columns)
     = clip.row * columns + clip.start + frame] *)
Definition clipFrameIndex (c : SheetClip) (frame columns : Z) : Z :=
  (sc_row c * columns + sc_start c + frame)%Z.

(** [HERO_ANIM]: a sheet of 3 columns and 5 rows. *)
Definition HERO_ANIM_sheet_columns : Z := 3.
Definition HERO_ANIM_sheet_rows : Z := 5.
Definition HERO_ANIM_idleUp : SheetClip := mkSheetClip 0 0 3 6.
Definition HERO_ANIM_idleDown : SheetClip := mkSheetClip 1 0 3 6.
Definition HERO_ANIM_turn : SheetClip := mkSheetClip 2 0 1 1.
Definition HERO_ANIM_bounce : SheetClip := mkSheetClip 3 0 3 10.
Definition HERO_ANIM_throwCharge : SheetClip := mkSheetClip 4 0 1 1.
Definition HERO_ANIM_throwRelease : SheetClip := mkSheetClip 4 1 1 1.

(** The cell of the sheet that [drawHero], [drawHuman] and [drawPlatforms]
    cut out for a frame index (lines 1272-1275):
    [safeFrame = clamp(frameIndex, 0, Math.max(0, columns * rows - 1))],
    [column = safeFrame % columns], [row = Math.floor(safeFrame / columns)].
    On whole numbers [%] is [Z.rem] and the floored quotient [Z.div]. *)
Definition sheetCell (frameIndex columns rows : Z) : Z * Z :=
  let maxFrames := (columns * rows)%Z in
  let safeFrame := Z.min (Z.max 0 (maxFrames - 1)) (Z.max 0 frameIndex) in
  (Z.rem safeFrame columns, (safeFrame / columns)%Z).

(** [Math.floor]. *)
Definition floor (x : R) : Z := Int_part x.

(** The remainder [a % b] of two numbers: [a - b * trunc(a / b)], with the
    sign of [a]. *)
Definition trunc (x : R) : Z :=
  if 0 <=? x then Int_part x else (- Int_part (- x))%Z.

Definition jsRem (a b : R) : R := a - b * IZR (trunc (a / b)).

(* ================================================================== *)
(** ** game.ts: the hero's animation and the throw controls *)

(** The hero's animation fields of [class Game]. *)
Record HeroAnim := mkHeroAnim {
  heroThrowChargeElapsed : R;
  heroThrowCharging : bool;
  heroThrowReleaseElapsed : R;
  heroThrowReleaseActive : bool;
  heroBounceElapsed : R;
  heroBounceActive : bool;
  heroBounceTriggered : bool;
  heroTurnElapsed : R;
  heroTurnActive : bool;
  heroPrevVelY : R
}.

(** The field initialisers, which are also what [resetGame] assigns
    (lines 501-510). *)
Definition resetGame_anim : HeroAnim :=
  mkHeroAnim 0 false 0 false 0 false false 0 false 0.

(** [Game.startHeroThrowCharge], lines 446-464. *)
Definition startHeroThrowCharge (g : Game) (a : HeroAnim) : HeroAnim :=
  if negb (GameMode_eqb (mode g) playing) then a
  else if (platformsLeft g <=? 0)%Z then a
  else if time g - lastThrowAt g <? throwing_cooldown (config g) then a
  else if heroThrowCharging a then a
  else
    mkHeroAnim 0 true
      (heroThrowReleaseElapsed a) (heroThrowReleaseActive a)
      (heroBounceElapsed a) (heroBounceActive a) (heroBounceTriggered a)
      0 false (heroPrevVelY a).

(** [Game.releaseHeroThrow], lines 466-475; [u] is the draw of the
    [throwPlatform] it calls. *)
Definition releaseHeroThrow (g : Game) (a : HeroAnim) (u : R)
  : Game * HeroAnim :=
  if negb (heroThrowCharging a) then (g, a)
  else
    let '(thrown, g1) := throwPlatform g u in
    if thrown then
      (g1,
       mkHeroAnim (heroThrowChargeElapsed a) false 0 true
         (heroBounceElapsed a) (heroBounceActive a) (heroBounceTriggered a)
         (heroTurnElapsed a) (heroTurnActive a) (heroPrevVelY a))
    else
      (g1,
       mkHeroAnim (heroThrowChargeElapsed a) false
         (heroThrowReleaseElapsed a) (heroThrowReleaseActive a)
         (heroBounceElapsed a) (heroBounceActive a) (heroBounceTriggered a)
         (heroTurnElapsed a) (heroTurnActive a) (heroPrevVelY a)).

(** The animation fields in [Game.updateHero], lines 651-699, which
    [updateHero] above leaves out: the turn at the apex, the bounce that
    starts [bounceLead] metres above the trampoline, and the charge that a
    bounce cancels.  [g] is the game before the call. *)
Definition updateHero_anim (g : Game) (dt u : R) (a : HeroAnim) : HeroAnim :=
  let prevVelY := v_y (hero_vel (hero g)) in
  let velY := prevVelY - physics_gravity (config g) * dt in
  let posY := v_y (hero_pos (hero g)) + velY * dt in
  let a1 :=
    if (0 <? prevVelY) && (velY <=? 0)
       && negb (heroThrowCharging a) && negb (heroThrowReleaseActive a)
    then
      mkHeroAnim (heroThrowChargeElapsed a) (heroThrowCharging a)
        (heroThrowReleaseElapsed a) (heroThrowReleaseActive a)
        (heroBounceElapsed a) (heroBounceActive a) (heroBounceTriggered a)
        0 true prevVelY
    else
      mkHeroAnim (heroThrowChargeElapsed a) (heroThrowCharging a)
        (heroThrowReleaseElapsed a) (heroThrowReleaseActive a)
        (heroBounceElapsed a) (heroBounceActive a) (heroBounceTriggered a)
        (heroTurnElapsed a) (heroTurnActive a) prevVelY in
  let bounceLead := 0.25 in
  let nearGround := posY <=? heroGroundY g + bounceLead in
  let a2 :=
    if (velY <? 0) && nearGround && negb (heroBounceTriggered a1) then
      mkHeroAnim (heroThrowChargeElapsed a1) false
        (heroThrowReleaseElapsed a1) (heroThrowReleaseActive a1)
        0 true true
        (heroTurnElapsed a1) (heroTurnActive a1) (heroPrevVelY a1)
    else a1 in
  let a3 :=
    if posY <=? heroGroundY g then
      mkHeroAnim (heroThrowChargeElapsed a2) false
        (heroThrowReleaseElapsed a2) (heroThrowReleaseActive a2)
        (if heroBounceActive a2 then heroBounceElapsed a2 else 0) true true
        (heroTurnElapsed a2) (heroTurnActive a2) (heroPrevVelY a2)
    else a2 in
  let h := hero (updateHero g dt u) in
  if (0 <? v_y (hero_vel h)) && (heroGroundY g + bounceLead <? v_y (hero_pos h))
  then
    mkHeroAnim (heroThrowChargeElapsed a3) (heroThrowCharging a3)
      (heroThrowReleaseElapsed a3) (heroThrowReleaseActive a3)
      (heroBounceElapsed a3) (heroBounceActive a3) false
      (heroTurnElapsed a3) (heroTurnActive a3) (heroPrevVelY a3)
  else a3.

(** [Game.updateHeroAnimation], lines 701-729. *)
Definition updateHeroAnimation (a : HeroAnim) (dt : R) : HeroAnim :=
  let a1 :=
    if heroThrowCharging a then
      mkHeroAnim
        (Rmin (clipDuration (clipSpec HERO_ANIM_throwCharge))
              (heroThrowChargeElapsed a + dt))
        (heroThrowCharging a)
        (heroThrowReleaseElapsed a) (heroThrowReleaseActive a)
        (heroBounceElapsed a) (heroBounceActive a) (heroBounceTriggered a)
        0 false (heroPrevVelY a)
    else a in
  let a2 :=
    if heroThrowReleaseActive a1 then
      let elapsed := heroThrowReleaseElapsed a1 + dt in
      mkHeroAnim (heroThrowChargeElapsed a1) (heroThrowCharging a1)
        elapsed
        (negb (clipDuration (clipSpec HERO_ANIM_throwRelease) <=? elapsed))
        (heroBounceElapsed a1) (heroBounceActive a1) (heroBounceTriggered a1)
        (heroTurnElapsed a1) (heroTurnActive a1) (heroPrevVelY a1)
    else a1 in
  let a3 :=
    if heroBounceActive a2 then
      let elapsed := heroBounceElapsed a2 + dt in
      mkHeroAnim (heroThrowChargeElapsed a2) (heroThrowCharging a2)
        (heroThrowReleaseElapsed a2) (heroThrowReleaseActive a2)
        elapsed
        (negb (clipDuration (clipSpec HERO_ANIM_bounce) <=? elapsed))
        (heroBounceTriggered a2)
        (heroTurnElapsed a2) (heroTurnActive a2) (heroPrevVelY a2)
    else a2 in
  if heroTurnActive a3 then
    let elapsed := heroTurnElapsed a3 + dt in
    mkHeroAnim (heroThrowChargeElapsed a3) (heroThrowCharging a3)
      (heroThrowReleaseElapsed a3) (heroThrowReleaseActive a3)
      (heroBounceElapsed a3) (heroBounceActive a3) (heroBounceTriggered a3)
      elapsed
      (negb (clipDuration (clipSpec HERO_ANIM_turn) <=? elapsed))
      (heroPrevVelY a3)
  else a3.

(** The frame of a clip that plays once:
    [Math.min(clip.length - 1, Math.floor(elapsed * clip.fps))]. *)
Definition oneShotFrame (c : SheetClip) (elapsed : R) : Z :=
  Z.min (sc_length c - 1) (floor (elapsed * sc_fps c)).

(** [Game.getHeroFrameIndex], lines 1371-1409, for a sheet of [columns]
    columns. *)
Definition getHeroFrameIndex (g : Game) (a : HeroAnim) (columns : Z) : Z :=
  if heroBounceActive a then
    clipFrameIndex HERO_ANIM_bounce
      (oneShotFrame HERO_ANIM_bounce (heroBounceElapsed a)) columns
  else if heroThrowReleaseActive a then
    clipFrameIndex HERO_ANIM_throwRelease
      (oneShotFrame HERO_ANIM_throwRelease (heroThrowReleaseElapsed a)) columns
  else if heroThrowCharging a then
    clipFrameIndex HERO_ANIM_throwCharge
      (oneShotFrame HERO_ANIM_throwCharge (heroThrowChargeElapsed a)) columns
  else if heroTurnActive a then
    clipFrameIndex HERO_ANIM_turn
      (oneShotFrame HERO_ANIM_turn (heroTurnElapsed a)) columns
  else
    let idleClip :=
      if 0 <=? v_y (hero_vel (hero g)) then HERO_ANIM_idleUp
      else HERO_ANIM_idleDown in
    let idleFrame :=
      if (1 <? sc_length idleClip)%Z
      then floor (jsRem (time g * sc_fps idleClip) (IZR (sc_length idleClip)))
      else 0%Z in
    clipFrameIndex idleClip idleFrame columns.

(* ================================================================== *)
(** ** game.ts: the prompt *)

(** [Game.updateScoreUi], lines 949-956: whether the prompt is shown. *)
Definition promptShown (g : Game) : bool := 0 <? promptTimer g.

(* ================================================================== *)
(** ** game.ts: the human's idle clips *)

(** [HUMAN_ANIM.idle]. *)
Definition HUMAN_ANIM_idle_loopClips : list SheetClip :=
  [mkSheetClip 0 6 1 1; mkSheetClip 0 1 1 1; mkSheetClip 0 5 1 1;
   mkSheetClip 0 5 2 1].
Definition HUMAN_ANIM_idle_oneShotClips : list SheetClip :=
  [mkSheetClip 0 0 1 1; mkSheetClip 0 1 3 3].
Definition HUMAN_ANIM_idle_oneShotChance : R := 0.35.
Definition HUMAN_ANIM_idle_minHold : R := 3.
Definition HUMAN_ANIM_idle_maxHold : R := 5.
Definition HUMAN_ANIM_idle_delayAfterLand : R := 0.4.

Inductive IdleSource := loop | oneShot.

Definition IdleSource_eqb (a b : IdleSource) : bool :=
  match a, b with loop, loop | oneShot, oneShot => true | _, _ => false end.

(** The human's idle animation fields of [class Game]. *)
Record IdleAnim := mkIdleAnim {
  humanIdleClipIndex : Z;
  humanIdleClipSource : IdleSource;
  humanIdleClipStartedAt : R;
  humanIdleNextSwitch : R;
  humanIdleElapsed : R
}.

(** [Game.pickIdleClip], lines 923-947, at the time [now] of the game.
    [u1], [u2] and [u3] are the draws of [Math.random()] for the source,
    for the index and for the hold of a loop.  The result is [None] where
    the code raises (an index outside the clips, which no draw of
    [[0, 1)] produces). *)
Definition pickIdleClip (force : option IdleSource) (u1 u2 u3 now : R)
    (a : IdleAnim) : option IdleAnim :=
  let wantsOneShot :=
    match force with
    | Some f => IdleSource_eqb f oneShot
    | None => u1 <? HUMAN_ANIM_idle_oneShotChance
    end in
  let clips0 :=
    if wantsOneShot then HUMAN_ANIM_idle_oneShotClips
    else HUMAN_ANIM_idle_loopClips in
  let source0 := if wantsOneShot then oneShot else loop in
  let '(clips, source) :=
    if Nat.eqb (length clips0) 0 then
      (if wantsOneShot then HUMAN_ANIM_idle_loopClips
       else HUMAN_ANIM_idle_oneShotClips,
       if IdleSource_eqb source0 oneShot then loop else oneShot)
    else (clips0, source0) in
  if Nat.eqb (length clips) 0 then Some a
  else
    let len := Z.of_nat (length clips) in
    let drawn := floor (u2 * IZR len) in
    let nextIndex :=
      if (1 <? len)%Z && IdleSource_eqb source (humanIdleClipSource a)
         && (drawn =? humanIdleClipIndex a)%Z
      then Z.rem (drawn + 1) len
      else drawn in
    if (nextIndex <? 0)%Z then None
    else
      match nth_error clips (Z.to_nat nextIndex) with
      | None => None
      | Some clip =>
          Some (mkIdleAnim nextIndex source now
                  (match source with
                   | loop =>
                       now + randRange u3 HUMAN_ANIM_idle_minHold
                               HUMAN_ANIM_idle_maxHold
                   | oneShot => now + clipDuration (clipSpec clip)
                   end)
                  (humanIdleElapsed a))
      end.

(** [Game.updateHumanIdleAnimation], lines 907-921, for the game after the
    human's update. *)
Definition updateHumanIdleAnimation (g : Game) (dt u1 u2 u3 : R)
    (a : IdleAnim) : option IdleAnim :=
  if HumanState_eqb (hum_state (human g)) jumping then
    Some (mkIdleAnim (humanIdleClipIndex a) (humanIdleClipSource a)
            (humanIdleClipStartedAt a) (humanIdleNextSwitch a) 0)
  else
    let a1 :=
      mkIdleAnim (humanIdleClipIndex a) (humanIdleClipSource a)
        (humanIdleClipStartedAt a) (humanIdleNextSwitch a)
        (humanIdleElapsed a + dt) in
    if humanIdleElapsed a1 <? HUMAN_ANIM_idle_delayAfterLand then Some a1
    else if humanIdleNextSwitch a1 <=? time g
    then pickIdleClip None u1 u2 u3 (time g) a1
    else Some a1.

(* ================================================================== *)
(** ** game.ts: the frame loop and the input handlers *)

(** The game, the hero's animation fields and [lastFrame]. *)
Record Session := mkSession {
  s_game : Game;
  s_anim : HeroAnim;
  s_lastFrame : R
}.

(** What [Game.update] does to the animation fields (lines 631-632): the
    bookkeeping of [updateHero], then [updateHeroAnimation]. *)
Definition update_anim (g : Game) (dt u : R) (a : HeroAnim) : HeroAnim :=
  if negb (GameMode_eqb (mode g) playing) then a
  else updateHeroAnimation (updateHero_anim (tickClock g dt) dt u a) dt.

(** The [dt] of [Game.tick], lines 1504-1507: a [lastFrame] of [0] is
    replaced by the timestamp, and the step is capped at 33 ms. *)
Definition tick_dt (lastFrame timestamp : R) : R :=
  let lastFrame1 :=
    if Req_dec_T lastFrame 0 then timestamp else lastFrame in
  Rmin 0.033 ((timestamp - lastFrame1) / 1000).

(** [Game.tick], lines 1503-1514, without the rendering. *)
Definition tick (s : Session) (timestamp u : R) : Session :=
  let dt := tick_dt (s_lastFrame s) timestamp in
  mkSession (update (s_game s) dt u)
            (update_anim (s_game s) dt u (s_anim s))
            timestamp.

(** The events that [bindControls], [bindUi] and the frame loop react to:
    [pointerdown] or [keydown] of Space or Enter, [pointerup],
    [pointercancel] or [keyup], an animation frame, and the restart button
    or the R key. *)
Inductive Input :=
| Press
| Release (u : R)
| Frame (timestamp u : R)
| Restart.

Definition handle (s : Session) (i : Input) : Session :=
  match i with
  | Press =>
      mkSession (s_game s) (startHeroThrowCharge (s_game s) (s_anim s))
                (s_lastFrame s)
  | Release u =>
      let '(g, a) := releaseHeroThrow (s_game s) (s_anim s) u in
      mkSession g a (s_lastFrame s)
  | Frame timestamp u => tick s timestamp u
  | Restart =>
      mkSession (resetGame (s_game s)) resetGame_anim (s_lastFrame s)
  end.

Definition play (s : Session) (inputs : list Input) : Session :=
  fold_left handle inputs s.

(* ================================================================== *)
(** * The vocabulary of the further properties *)

(** Some platform of [ps] is at height [y]. *)
Definition stands_at (ps : list Platform) (y : R) : Prop :=
  exists p, In p ps /\ plat_y p = y.

(** The human [h] stands on a platform of [ps], or is on the way from one
    platform to a higher one that is at most [threshold] above. *)
Definition grounded (threshold : R) (ps : list Platform) (h : Human) : Prop :=
  match hum_state h with
  | jumping =>
      stands_at ps (hum_jumpStart h) /\
      stands_at ps (hum_jumpTarget h) /\
      hum_jumpStart h < hum_jumpTarget h /\
      hum_jumpTarget h - hum_jumpStart h <= threshold
  | _ => stands_at ps (hum_y h)
  end.

Definition human_grounded (g : Game) : Prop :=
  grounded (human_jumpThreshold (config g)) (platforms g) (human g).

(** A jumping human is at most [jumpArc] above the platform it jumps to. *)
Definition within_arc (g : Game) : Prop :=
  hum_state (human g) = jumping ->
  hum_y (human g) <= hum_jumpTarget (human g) + human_jumpArc (config g).

(** Some platform is less than [jumpArc] below the height [y]. *)
Definition near_a_platform (g : Game) (y : R) : Prop :=
  exists p, In p (platforms g) /\ y <= plat_y p + human_jumpArc (config g).

(** A projectile in flight: active and to the right of the wall. *)
Definition in_flight (p : Projectile) : Prop :=
  proj_active p = true /\ 0 < v_x (proj_pos p).

(** [entries] are in descending order of score. *)
Fixpoint descending (entries : list ScoreEntry) : Prop :=
  match entries with
  | [] => True
  | e :: rest =>
      (forall x, In x rest -> se_score x <= se_score e) /\ descending rest
  end.

(** The crawler after the frames [frames], each a [dt] and the game that
    [update] hands to the feature. *)
Definition crawler_frames (c : BonusCrawler) (frames : list (R * Game))
  : BonusCrawler :=
  fold_left (fun c f => crawler_update c (fst f) (snd f)) frames c.

(** The time [frames] add up to. *)
Definition frames_time (frames : list (R * Game)) : R :=
  fold_right (fun f acc => fst f + acc) 0 frames.

(** The feature is switched on in every frame, and no [dt] is negative. *)
Definition crawler_on (f : R * Game) : Prop :=
  features_bonusCrawler (config (snd f)) = true /\ 0 <= fst f.

(** The squared distance test of [BonusCrawlerFeature.onProjectile]. *)
Definition crawler_reaches (c : BonusCrawler) (p : Projectile) : bool :=
  (v_x (proj_pos p) - 0.25) * (v_x (proj_pos p) - 0.25)
  + (v_y (proj_pos p) - bc_y c) * (v_y (proj_pos p) - bc_y c)
  <=? 0.35 * 0.35.

(** ** Concrete crawlers and sessions *)

(** An active crawler one metre up, and a projectile on it. *)
Definition crawlerAtOne : BonusCrawler := mkCrawler 1 true 0 0.

Definition onTheCrawler : Projectile :=
  mkProjectile (mkVec2 0.25 1) (mkVec2 (-10) 0) 0.2 true.

(** The default game with the bonus crawler switched off in the settings. *)
Definition crawlerOffGame : Game :=
  set_config initialGame
    (mkConfig 14 10 0.2 10 2 0.5 1.6 2 0.6 0.7 0.6 2.4 5.6 false 3 1.7 2 2).

(** The default game with an active crawler one metre up, and a projectile
    that the next frame carries onto it. *)
Definition crawlerGame : Game :=
  set_features initialGame [BonusCrawlerFeature crawlerAtOne].

Definition towardsTheCrawler : Projectile :=
  mkProjectile (mkVec2 0.55 1) (mkVec2 (-10) 0) 0.2 true.

(** A player's name, [R]. *)
Definition playerName : String.string :=
  String.String (Ascii.Ascii false true false false true false true false)
    String.EmptyString.

(** A full board of ten entries at 2 m. *)
Definition fullBoard : list ScoreEntry :=
  repeat (mkScoreEntry playerName 2 0) 10.

(** The session the constructor leaves behind, before the first frame. *)
Definition firstSession : Session := mkSession initialGame resetGame_anim 0.

(** The idle fields after [resetGame] at time 0. *)
Definition resetGame_idle : IdleAnim := mkIdleAnim 0 loop 0 0 0.

(** The clips of [HERO_ANIM]. *)
Definition HERO_ANIM_clips : list SheetClip :=
  [HERO_ANIM_bounce; HERO_ANIM_throwRelease; HERO_ANIM_throwCharge;
   HERO_ANIM_turn; HERO_ANIM_idleUp; HERO_ANIM_idleDown].

(** The idle clips of a source. *)
Definition idleClips (source : IdleSource) : list SheetClip :=
  match source with
  | loop => HUMAN_ANIM_idle_loopClips
  | oneShot => HUMAN_ANIM_idle_oneShotClips
  end.

(** The operations of a player: throws, and ticks of at most 33 ms. *)
Definition no_grant (op : Op) : Prop :=
  match op with OpAdd _ => False | _ => True end.

Definition capped_tick (op : Op) : Prop :=
  match op with OpTick dt _ => dt <= 0.033 | _ => True end.

(** Time does not run backwards in the ticks. *)
Definition forward_tick (op : Op) : Prop :=
  match op with OpTick dt _ => 0 <= dt | _ => True end.

(* ================================================================== *)
(** * Properties *)

(** ** Reflection of the boolean tests *)

Lemma Rleb_true_iff (a b : R) : (a <=? b) = true <-> a <= b.
Proof. unfold Rleb; destruct (Rle_dec a b); split; auto; discriminate. Qed.

Lemma Rleb_false_iff (a b : R) : (a <=? b) = false <-> b < a.
Proof.
  unfold Rleb; destruct (Rle_dec a b); split; intros; try discriminate; lra.
Qed.

Lemma Rltb_true_iff (a b : R) : (a <? b) = true <-> a < b.
Proof. unfold Rltb; destruct (Rlt_dec a b); split; auto; discriminate. Qed.

Lemma Rltb_false_iff (a b : R) : (a <? b) = false <-> b <= a.
Proof.
  unfold Rltb; destruct (Rlt_dec a b); split; intros; try discriminate; lra.
Qed.

Lemma GameMode_eqb_eq (a b : GameMode) : GameMode_eqb a b = true <-> a = b.
Proof. destruct a, b; simpl; split; congruence. Qed.

Lemma HumanState_eqb_eq (a b : HumanState) : HumanState_eqb a b = true <-> a = b.
Proof. destruct a, b; simpl; split; congruence. Qed.

Lemma HumanState_eqb_neq (a b : HumanState) : HumanState_eqb a b = false <-> a <> b.
Proof. destruct a, b; simpl; split; congruence. Qed.

(** Decide the numeric tests of a goal whose operands are known. *)
Ltac rtest :=
  repeat match goal with
  | |- context [?a <=? ?b] =>
      first [ rewrite (proj2 (Rleb_true_iff a b)) by lra
            | rewrite (proj2 (Rleb_false_iff a b)) by lra ]
  | |- context [?a <? ?b] =>
      first [ rewrite (proj2 (Rltb_true_iff a b)) by lra
            | rewrite (proj2 (Rltb_false_iff a b)) by lra ]
  end.

(** ** What a step leaves alone *)

Lemma same_frame_refl g : same_frame g g.
Proof. repeat split. Qed.

Lemma same_frame_trans g1 g2 g3 :
  same_frame g1 g2 -> same_frame g2 g3 -> same_frame g1 g3.
Proof.
  unfold same_frame.
  intros (a1 & a2 & a3 & a4 & a5 & a6 & a7) (b1 & b2 & b3 & b4 & b5 & b6 & b7).
  repeat split; congruence.
Qed.

Lemma only_human_refl g : only_human g g.
Proof. destruct g; reflexivity. Qed.

Lemma only_human_set g h : only_human g (set_human g h).
Proof. reflexivity. Qed.

Lemma only_human_trans g1 g2 g3 :
  only_human g1 g2 -> only_human g2 g3 -> only_human g1 g3.
Proof. unfold only_human; intros H12 H23; rewrite H23, H12; reflexivity. Qed.

Lemma only_human_frame g g' : only_human g g' -> same_frame g g'.
Proof. unfold only_human; intros ->; repeat split. Qed.

Lemma only_human_budget g g' :
  only_human g g' -> platformsLeft g' = platformsLeft g.
Proof. unfold only_human; intros ->; reflexivity. Qed.

Lemma only_human_platforms g g' : only_human g g' -> platforms g' = platforms g.
Proof. unfold only_human; intros ->; reflexivity. Qed.

Lemma only_human_features g g' : only_human g g' -> features g' = features g.
Proof. unfold only_human; intros ->; reflexivity. Qed.

Lemma attemptHumanJump_only_human g : only_human g (snd (attemptHumanJump g)).
Proof.
  unfold attemptHumanJump.
  destruct (HumanState_eqb _ _); [apply only_human_refl|].
  destruct (findReachablePlatform g); simpl;
    [apply only_human_set | apply only_human_refl].
Qed.

Lemma handlePlatformPlacement_only_human g y :
  only_human g (handlePlatformPlacement g y).
Proof.
  unfold handlePlatformPlacement.
  destruct (HumanState_eqb _ _); [apply only_human_refl|].
  pose proof (attemptHumanJump_only_human g) as H.
  destruct (attemptHumanJump g) as [jumped g1]; simpl in H.
  destruct jumped; [exact H|].
  eapply only_human_trans; [exact H | apply only_human_set].
Qed.

Lemma advanceHumanJump_only_human g dt : only_human g (advanceHumanJump g dt).
Proof.
  unfold advanceHumanJump.
  destruct (negb _); destruct (1 <=? _); apply only_human_set.
Qed.

Lemma humanJumpingStep_only_human g dt : only_human g (humanJumpingStep g dt).
Proof.
  unfold humanJumpingStep.
  destruct (HumanState_eqb _ _); [|apply only_human_refl].
  destruct (HumanJumpPhase_eqb _ _); [|apply advanceHumanJump_only_human].
  destruct (_ <=? _); [|apply only_human_set].
  destruct (0 <? _); [|apply only_human_set].
  eapply only_human_trans; [apply only_human_set|apply advanceHumanJump_only_human].
Qed.

Lemma humanWorryStep_only_human g dt : only_human g (humanWorryStep g dt).
Proof.
  unfold humanWorryStep.
  destruct (HumanState_eqb _ _); [apply only_human_set|apply only_human_refl].
Qed.

Lemma humanIdleStep_only_human g : only_human g (humanIdleStep g).
Proof.
  unfold humanIdleStep.
  destruct (HumanState_eqb _ _);
    [apply attemptHumanJump_only_human|apply only_human_refl].
Qed.

Lemma updateHuman_only_human g dt : only_human g (updateHuman g dt).
Proof.
  unfold updateHuman.
  eapply only_human_trans; [|apply humanIdleStep_only_human].
  eapply only_human_trans; [|apply humanWorryStep_only_human].
  apply humanJumpingStep_only_human.
Qed.

Lemma only_budget_refl g : only_budget g g.
Proof. destruct g; reflexivity. Qed.

Lemma only_budget_trans g1 g2 g3 :
  only_budget g1 g2 -> only_budget g2 g3 -> only_budget g1 g3.
Proof. unfold only_budget; intros H12 H23; rewrite H23, H12; reflexivity. Qed.

Lemma only_budget_frame g g' : only_budget g g' -> same_frame g g'.
Proof. unfold only_budget; intros ->; repeat split. Qed.

Lemma addPlatforms_only_budget g a : only_budget g (addPlatforms g a).
Proof. reflexivity. Qed.


Lemma crawler_onProjectile_only_budget c p g :
  only_budget g (snd (fst (crawler_onProjectile c p g))).
Proof.
  unfold crawler_onProjectile.
  destruct (negb _); [apply only_budget_refl|].
  destruct (_ <=? _); simpl;
    [apply addPlatforms_only_budget|apply only_budget_refl].
Qed.


Lemma feature_onProjectile_only_budget f p g :
  only_budget g (snd (fst (feature_onProjectile f p g))).
Proof.
  destruct f as [c]; simpl.
  pose proof (crawler_onProjectile_only_budget c p g) as H.
  destruct (crawler_onProjectile c p g) as [[c1 g1] hit]; exact H.
Qed.


Lemma offerToFeatures_only_budget fs p :
  forall g, only_budget g (snd (fst (offerToFeatures fs p g))).
Proof.
  induction fs as [|f rest IH]; intros g; simpl; [apply only_budget_refl|].
  pose proof (feature_onProjectile_only_budget f p g) as Hf.
  destruct (feature_onProjectile f p g) as [[f1 g1] consumed]; simpl in Hf.
  destruct consumed; simpl; [exact Hf|].
  specialize (IH g1).
  destruct (offerToFeatures rest p g1) as [[rest1 g2] c]; simpl in *.
  eapply only_budget_trans; eassumption.
Qed.



Lemma stickToWall_frame g p : same_frame g (stickToWall g p).
Proof.
  unfold stickToWall.
  eapply same_frame_trans;
    [|apply only_human_frame, handlePlatformPlacement_only_human].
  repeat split.
Qed.

Lemma stickToWall_budget g p : platformsLeft (stickToWall g p) = platformsLeft g.
Proof.
  unfold stickToWall.
  rewrite (only_human_budget _ _ (handlePlatformPlacement_only_human _ _)).
  reflexivity.
Qed.

Lemma stepProjectile_frame g dt p : same_frame g (fst (stepProjectile g dt p)).
Proof.
  unfold stepProjectile.
  destruct (negb _); [apply same_frame_refl|].
  pose proof (offerToFeatures_only_budget (features g)
    (integrate (physics_gravity (config g) * 0.85) dt p) g) as Ho.
  destruct (offerToFeatures _ _ g) as [[fs g1] consumed]; simpl in Ho.
  apply only_budget_frame in Ho.
  assert (Hf : same_frame g (set_features g1 fs))
    by (eapply same_frame_trans; [exact Ho|repeat split]).
  destruct consumed; [exact Hf|].
  destruct (_ <=? 0); simpl.
  - assert (Hs : same_frame g (stickToWall (set_features g1 fs)
        (integrate (physics_gravity (config g) * 0.85) dt p)))
      by (eapply same_frame_trans; [exact Hf|apply stickToWall_frame]).
    destruct (offRange _ _); exact Hs.
  - destruct (offRange _ _); exact Hf.
Qed.


Lemma stepProjectiles_frame dt ps :
  forall g, same_frame g (fst (stepProjectiles g dt ps)).
Proof.
  induction ps as [|p rest IH]; intros g; simpl; [apply same_frame_refl|].
  pose proof (stepProjectile_frame g dt p) as H1.
  destruct (stepProjectile g dt p) as [g1 p1]; simpl in H1.
  specialize (IH g1).
  destruct (stepProjectiles g1 dt rest) as [g2 rest1]; simpl in *.
  eapply same_frame_trans; eassumption.
Qed.


Lemma updateProjectiles_frame g dt : same_frame g (updateProjectiles g dt).
Proof.
  unfold updateProjectiles.
  pose proof (stepProjectiles_frame dt (projectiles g) g) as H.
  destruct (stepProjectiles g dt (projectiles g)) as [g1 ps]; simpl in H.
  eapply same_frame_trans; [exact H|repeat split].
Qed.


(** Projections out of the straight-line steps of a tick. *)
Ltac proj_simpl :=
  cbn [config mode cameraY viewHeightMeters maxAltitude heroGroundY hero human
       platforms projectiles features platformsLeft score lastThrowAt time
       promptTimer
       set_mode set_cameraY set_maxAltitude set_hero set_human set_platforms
       set_projectiles set_features set_platformsLeft set_score
       set_lastThrowAt set_time set_promptTimer
       tickClock updateHero updateCamera trackAltitude updateFeatures
       updateScore endGame addPlatforms fst snd].

(** What [advance] does to the fields of the frame and to the budget. *)
Lemma advance_frame g dt u :
  config (advance g dt u) = config g /\
  mode (advance g dt u) = mode g /\
  lastThrowAt (advance g dt u) = lastThrowAt g /\
  time (advance g dt u) = time g + dt /\
  score (advance g dt u) = Rmax (score g) (hum_y (human (advance g dt u))).
Proof.
  unfold advance; cbv zeta.
  set (g2 := updateHero (tickClock g dt) dt u).
  pose proof (updateProjectiles_frame g2 dt) as H3.
  set (g3 := updateProjectiles g2 dt) in *.
  pose proof (only_human_frame _ _ (updateHuman_only_human g3 dt)) as H4.
  set (g4 := updateHuman g3 dt) in *.
  destruct (same_frame_trans _ _ _ H3 H4) as (Hc & Hm & Hs & Hl & Ht & _).
  proj_simpl. rewrite Hc, Hm, Hs, Hl, Ht.
  subst g2; proj_simpl.
  repeat split.
Qed.

Lemma advance_config g dt u : config (advance g dt u) = config g.
Proof. exact (proj1 (advance_frame g dt u)). Qed.

Lemma advance_mode g dt u : mode (advance g dt u) = mode g.
Proof. exact (proj1 (proj2 (advance_frame g dt u))). Qed.

Lemma advance_lastThrowAt g dt u :
  lastThrowAt (advance g dt u) = lastThrowAt g.
Proof. exact (proj1 (proj2 (proj2 (advance_frame g dt u)))). Qed.

Lemma advance_time g dt u : time (advance g dt u) = time g + dt.
Proof. exact (proj1 (proj2 (proj2 (proj2 (advance_frame g dt u))))). Qed.

Lemma advance_score g dt u :
  score (advance g dt u) = Rmax (score g) (hum_y (human (advance g dt u))).
Proof. exact (proj2 (proj2 (proj2 (proj2 (advance_frame g dt u))))). Qed.



Lemma update_config g dt u : config (update g dt u) = config g.
Proof.
  unfold update.
  destruct (negb _); [reflexivity|].
  transitivity (config (advance g dt u)); [|exact (advance_config g dt u)].
  generalize (advance g dt u); intros g1.
  destruct (runIsOver g1); reflexivity.
Qed.

Lemma throwPlatform_config g u : config (snd (throwPlatform g u)) = config g.
Proof.
  unfold throwPlatform.
  destruct (negb _); [reflexivity|].
  destruct (_ <=? _)%Z; [reflexivity|].
  destruct (_ <? _); reflexivity.
Qed.


(* ================================================================== *)
(** ** Runs: throws, bonus grants and ticks, interleaved *)




(* ================================================================== *)
(** ** The initial game *)



(* ================================================================== *)
(** ** C8: the cap of [addPlatforms] *)

(** C8.  [addPlatforms(a)] sets [platformsLeft] to
    [min(config.platform.count, platformsLeft + a)], touches nothing else,
    and so never leaves the budget above the configured count (for every
    amount, the non-negative ones included). *)
Theorem addPlatforms_min_cap (g : Game) (a : Z) :
  platformsLeft (addPlatforms g a)
    = Z.min (platform_count (config g)) (platformsLeft g + a) /\
  (platformsLeft (addPlatforms g a) <= platform_count (config (addPlatforms g a)))%Z /\
  addPlatforms g a = set_platformsLeft g (platformsLeft (addPlatforms g a)).
Proof.
  unfold addPlatforms; proj_simpl.
  split; [reflexivity|]. split; [apply Z.le_min_l|reflexivity].
Qed.

(* ================================================================== *)
(** ** C4: when a throw is accepted *)

Lemma update_gameover g dt u : mode g = gameover -> update g dt u = g.
Proof. intros Hm; unfold update; rewrite Hm; reflexivity. Qed.

Lemma update_lastThrowAt g dt u : lastThrowAt (update g dt u) = lastThrowAt g.
Proof.
  unfold update.
  destruct (negb _); [reflexivity|].
  transitivity (lastThrowAt (advance g dt u)); [|exact (advance_lastThrowAt g dt u)].
  generalize (advance g dt u); intros g1.
  destruct (runIsOver g1); reflexivity.
Qed.

Lemma update_time_playing g dt u :
  mode g = playing -> time (update g dt u) = time g + dt.
Proof.
  intros Hm; unfold update; rewrite Hm; cbn [GameMode_eqb negb].
  transitivity (time (advance g dt u)); [|exact (advance_time g dt u)].
  generalize (advance g dt u); intros g1.
  destruct (runIsOver g1); reflexivity.
Qed.

Lemma throwPlatform_time g u : time (snd (throwPlatform g u)) = time g.
Proof.
  unfold throwPlatform.
  destruct (negb _); [reflexivity|].
  destruct (_ <=? _)%Z; [reflexivity|].
  destruct (_ <? _); reflexivity.
Qed.

Lemma applyOp_config g op : config (applyOp g op) = config g.
Proof.
  destruct op as [u|a|dt u]; simpl.
  - apply throwPlatform_config.
  - reflexivity.
  - apply update_config.
Qed.

Lemma run_config ops : forall g, config (run g ops) = config g.
Proof.
  induction ops as [|op rest IH]; intros g; simpl; [reflexivity|].
  rewrite IH. apply applyOp_config.
Qed.

Lemma run_ticks_gameover ts :
  forall g, mode g = gameover -> run g (ticks ts) = g.
Proof.
  induction ts as [|[dt u] rest IH]; intros g Hm; simpl; [reflexivity|].
  rewrite (update_gameover g dt u Hm). apply IH; exact Hm.
Qed.

(** While the run goes on, the clock adds up the [dt]s and nothing but a
    throw stamps [lastThrowAt]. *)
Lemma run_ticks_clock ts :
  forall g, mode (run g (ticks ts)) = playing ->
    time (run g (ticks ts)) = time g + elapsed ts /\
    lastThrowAt (run g (ticks ts)) = lastThrowAt g.
Proof.
  induction ts as [|[dt u] rest IH]; intros g Hm; simpl in *.
  - split; [lra|reflexivity].
  - destruct (mode g) eqn:Hg.
    + destruct (IH _ Hm) as (Ht & Hl).
      rewrite Ht, Hl, (update_time_playing g dt u Hg), update_lastThrowAt.
      split; [lra|reflexivity].
    + rewrite (update_gameover g dt u Hg) in Hm.
      rewrite (run_ticks_gameover rest g Hg) in Hm. congruence.
Qed.

Lemma throwPlatform_guards g u :
  fst (throwPlatform g u) = true <->
  mode g = playing /\ (0 < platformsLeft g)%Z /\
  throwing_cooldown (config g) <= time g - lastThrowAt g.
Proof.
  unfold throwPlatform.
  destruct (mode g) eqn:Hm; simpl.
  2:{ split; [discriminate|]. intros (H & _); discriminate. }
  destruct (Z.leb_spec (platformsLeft g) 0) as [Hl|Hl]; simpl.
  { split; [discriminate|]. intros (_ & H & _); lia. }
  destruct (time g - lastThrowAt g <? throwing_cooldown (config g)) eqn:Hc; simpl.
  - apply Rltb_true_iff in Hc. split; [discriminate|]. intros (_ & _ & H); lra.
  - apply Rltb_false_iff in Hc. split; auto.
Qed.

Lemma throwPlatform_accepted g u :
  fst (throwPlatform g u) = true ->
  snd (throwPlatform g u)
  = set_promptTimer
      (set_lastThrowAt
         (set_platformsLeft
            (set_projectiles g
               (projectiles g ++
                [mkProjectile
                   (mkVec2 (v_x (hero_pos (hero g)) - 0.2)
                           (v_y (hero_pos (hero g)) + 0.6))
                   (mkVec2 (- throwing_speed (config g))
                      (sqrt (2 * (physics_gravity (config g) * 0.85)
                               * randRange u 0.35 0.75)))
                   0 true]))
            (platformsLeft g - 1))
         (time g))
      0.
Proof.
  unfold throwPlatform.
  destruct (negb _); [discriminate|].
  destruct (_ <=? _)%Z; [discriminate|].
  destruct (_ <? _); [discriminate|reflexivity].
Qed.

Lemma throwPlatform_refused g u :
  fst (throwPlatform g u) = false -> snd (throwPlatform g u) = g.
Proof.
  unfold throwPlatform.
  destruct (negb _); [reflexivity|].
  destruct (_ <=? _)%Z; [reflexivity|].
  destruct (_ <? _); [reflexivity|discriminate].
Qed.

(** C4.  [throwPlatform] returns [true] exactly when the mode is playing,
    the budget is positive and at least [cooldown] seconds of simulation
    time lie between [lastThrowAt] and now (equality is accepted).  A
    refused throw returns [false] with the game untouched.  An accepted
    throw stamps [lastThrowAt] with the current time, takes one platform
    from the budget and adds one projectile; so after an accepted throw
    and any ticks, the next throw is accepted exactly when the game is
    still playing, the budget is positive and the ticks add up to at least
    [cooldown] seconds.  The function is total: no input raises. *)
Theorem throwPlatform_accepts_iff (g : Game) (u : R) :
  (fst (throwPlatform g u) = true <->
     mode g = playing /\ (0 < platformsLeft g)%Z /\
     throwing_cooldown (config g) <= time g - lastThrowAt g) /\
  (fst (throwPlatform g u) = false -> snd (throwPlatform g u) = g) /\
  (fst (throwPlatform g u) = true ->
     lastThrowAt (snd (throwPlatform g u)) = time g /\
     platformsLeft (snd (throwPlatform g u)) = (platformsLeft g - 1)%Z /\
     length (projectiles (snd (throwPlatform g u)))
       = S (length (projectiles g))) /\
  (forall (ts : list (R * R)) (u' : R),
     fst (throwPlatform g u) = true ->
     (fst (throwPlatform (run (snd (throwPlatform g u)) (ticks ts)) u') = true
      <->
      mode (run (snd (throwPlatform g u)) (ticks ts)) = playing /\
      (0 < platformsLeft (run (snd (throwPlatform g u)) (ticks ts)))%Z /\
      throwing_cooldown (config g) <= elapsed ts)).
Proof.
  split; [apply throwPlatform_guards|].
  split; [apply throwPlatform_refused|].
  split.
  - intros Hacc; rewrite (throwPlatform_accepted g u Hacc); cbn.
    repeat split. rewrite length_app; simpl; lia.
  - intros ts u' Hacc.
    rewrite throwPlatform_guards.
    assert (Hstamp : lastThrowAt (snd (throwPlatform g u)) = time g)
      by (rewrite (throwPlatform_accepted g u Hacc); reflexivity).
    pose proof (throwPlatform_time g u) as Htime.
    pose proof (throwPlatform_config g u) as Hcfg.
    pose proof (run_config (ticks ts) (snd (throwPlatform g u))) as Hrcfg.
    pose proof (run_ticks_clock ts (snd (throwPlatform g u))) as Hclock.
    revert Hstamp Htime Hcfg Hrcfg Hclock.
    generalize (snd (throwPlatform g u)); intros g1 Hstamp Htime Hcfg Hrcfg Hclock.
    revert Hrcfg Hclock; generalize (run g1 (ticks ts)); intros g2 Hrcfg Hclock.
    rewrite Hrcfg, Hcfg.
    split; intros (Hm & Hl & Hc); destruct (Hclock Hm) as (Ht & Hlast);
      repeat split; auto; rewrite Ht, Hlast, Hstamp, Htime in *; lra.
Qed.

(* ================================================================== *)
(** ** C3: the budget is never negative *)



(* ================================================================== *)
(** ** C9: the score never goes down *)

Lemma update_score_playing g dt u :
  mode g = playing ->
  score (update g dt u) = Rmax (score g) (hum_y (human (update g dt u))).
Proof.
  intros Hm; unfold update; rewrite Hm; cbn [GameMode_eqb negb].
  pose proof (advance_score g dt u) as H.
  revert H; generalize (advance g dt u); intros g1 H.
  destruct (runIsOver g1); exact H.
Qed.

Lemma update_score_le g dt u : score g <= score (update g dt u).
Proof.
  destruct (mode g) eqn:Hm.
  - rewrite (update_score_playing g dt u Hm). apply Rmax_l.
  - unfold update; rewrite Hm; simpl. apply Rle_refl.
Qed.

Lemma throwPlatform_score g u : score (snd (throwPlatform g u)) = score g.
Proof.
  unfold throwPlatform.
  destruct (negb _); [reflexivity|].
  destruct (_ <=? _)%Z; [reflexivity|].
  destruct (_ <? _); reflexivity.
Qed.

Lemma applyOp_score_le g op : score g <= score (applyOp g op).
Proof.
  destruct op as [u|a|dt u]; simpl.
  - rewrite throwPlatform_score; apply Rle_refl.
  - apply Rle_refl.
  - apply update_score_le.
Qed.

Lemma run_score_le ops : forall g, score g <= score (run g ops).
Proof.
  induction ops as [|op rest IH]; intros g; simpl; [apply Rle_refl|].
  eapply Rle_trans; [apply applyOp_score_le|apply IH].
Qed.

Lemma run_app g ops1 ops2 : run g (ops1 ++ ops2) = run (run g ops1) ops2.
Proof. apply fold_left_app. Qed.

(** C9.  Without a reset the score never decreases: a tick of a playing
    game sets it to [max(score, human.y)] (the human's height after the
    tick), a tick after the end of the run leaves it alone, so the score
    after any tick is at least the score before it; and along every run
    (ticks, also interleaved with throws and bonus grants) the score after
    a longer prefix is at least the score after a shorter one. *)
Theorem score_never_decreases (g : Game) (dt u : R) (ops1 ops2 : list Op) :
  score (update g dt u)
    = (if GameMode_eqb (mode g) playing
       then Rmax (score g) (hum_y (human (update g dt u)))
       else score g) /\
  score g <= score (update g dt u) /\
  score (run g ops1) <= score (run g (ops1 ++ ops2)).
Proof.
  split; [|split].
  - destruct (mode g) eqn:Hm; simpl.
    + apply update_score_playing; exact Hm.
    + unfold update; rewrite Hm; reflexivity.
  - apply update_score_le.
  - rewrite run_app. apply run_score_le.
Qed.

(* ================================================================== *)
(** ** C1: when the run ends *)




(* ================================================================== *)
(** ** C6: the auto-jump target *)

Lemma reachableStep_best humanY threshold seen candidate p :
  best_of humanY threshold seen candidate ->
  best_of humanY threshold (seen ++ [p])
    (reachableStep humanY threshold candidate p).
Proof.
  intros Hb; unfold reachableStep.
  destruct (plat_y p <=? humanY) eqn:Hle.
  { (* not above the human: skipped *)
    apply Rleb_true_iff in Hle.
    destruct candidate as [c|]; simpl in *.
    - destruct Hb as (Hin & Hq & Hmax).
      split; [apply in_or_app; auto|]. split; [exact Hq|].
      intros q Hq1 Hq2; apply in_app_or in Hq1; destruct Hq1 as [Hq1|[<-|[]]].
      + apply Hmax; assumption.
      + destruct Hq2; lra.
    - intros q Hq1 Hq2; apply in_app_or in Hq1; destruct Hq1 as [Hq1|[<-|[]]].
      + exact (Hb q Hq1 Hq2).
      + destruct Hq2; lra. }
  apply Rleb_false_iff in Hle.
  destruct (plat_y p - humanY <=? threshold) eqn:Hthr.
  - apply Rleb_true_iff in Hthr.
    assert (Hp : qualifies humanY threshold p) by (split; assumption).
    destruct candidate as [c|]; simpl in *.
    + destruct Hb as (Hin & Hq & Hmax).
      destruct (plat_y c <? plat_y p) eqn:Hlt; simpl.
      * apply Rltb_true_iff in Hlt.
        split; [apply in_or_app; simpl; auto|]. split; [exact Hp|].
        intros q Hq1 Hq2; apply in_app_or in Hq1; destruct Hq1 as [Hq1|[<-|[]]].
        -- specialize (Hmax q Hq1 Hq2); lra.
        -- apply Rle_refl.
      * apply Rltb_false_iff in Hlt.
        split; [apply in_or_app; auto|]. split; [exact Hq|].
        intros q Hq1 Hq2; apply in_app_or in Hq1; destruct Hq1 as [Hq1|[<-|[]]].
        -- apply Hmax; assumption.
        -- exact Hlt.
    + split; [apply in_or_app; simpl; auto|]. split; [exact Hp|].
      intros q Hq1 Hq2; apply in_app_or in Hq1; destruct Hq1 as [Hq1|[<-|[]]].
      * destruct (Hb q Hq1 Hq2).
      * apply Rle_refl.
  - apply Rleb_false_iff in Hthr.
    destruct candidate as [c|]; simpl in *.
    + destruct Hb as (Hin & Hq & Hmax).
      split; [apply in_or_app; auto|]. split; [exact Hq|].
      intros q Hq1 Hq2; apply in_app_or in Hq1; destruct Hq1 as [Hq1|[<-|[]]].
      * apply Hmax; assumption.
      * destruct Hq2; lra.
    + intros q Hq1 Hq2; apply in_app_or in Hq1; destruct Hq1 as [Hq1|[<-|[]]].
      * exact (Hb q Hq1 Hq2).
      * destruct Hq2; lra.
Qed.

Lemma findReachableFrom_best humanY threshold ps :
  forall seen candidate,
    best_of humanY threshold seen candidate ->
    best_of humanY threshold (seen ++ ps)
      (findReachableFrom humanY threshold ps candidate).
Proof.
  unfold findReachableFrom.
  induction ps as [|p rest IH]; intros seen candidate Hb; simpl.
  - rewrite app_nil_r; exact Hb.
  - replace (seen ++ p :: rest) with ((seen ++ [p]) ++ rest)
      by (rewrite <- app_assoc; reflexivity).
    apply IH, reachableStep_best, Hb.
Qed.

(** C6.  The search returns a platform of the list that is strictly above
    the human, at most [jumpThreshold] above, and at least as high as every
    platform with these two properties; it returns nothing exactly when no
    platform has them.  With platforms at 2.0, 3.5 and 5.0, the human at
    1.0 and a threshold of 2.0 the platform at 2.0 is returned. *)
Theorem findReachablePlatform_highest_in_reach :
  (forall g : Game,
     match findReachablePlatform g with
     | Some p =>
         In p (platforms g) /\
         hum_y (human g) < plat_y p /\
         plat_y p - hum_y (human g) <= human_jumpThreshold (config g) /\
         (forall q, In q (platforms g) ->
            qualifies (hum_y (human g)) (human_jumpThreshold (config g)) q ->
            plat_y q <= plat_y p)
     | None =>
         forall q, In q (platforms g) ->
           ~ qualifies (hum_y (human g)) (human_jumpThreshold (config g)) q
     end) /\
  (forall t1 t2 t3 : R,
     findReachableFrom 1 2
       [mkPlatform 2 t1; mkPlatform 3.5 t2; mkPlatform 5 t3] None
     = Some (mkPlatform 2 t1)).
Proof.
  split.
  - intros g; unfold findReachablePlatform.
    pose proof (findReachableFrom_best (hum_y (human g))
      (human_jumpThreshold (config g)) (platforms g) [] None) as H.
    simpl app in H.
    destruct (findReachableFrom _ _ _ _) as [p|].
    + destruct H as (Hin & (Ha & Hb) & Hmax); [intros q []|].
      repeat split; assumption.
    + apply H; intros q [].
  - intros t1 t2 t3.
    unfold findReachableFrom, reachableStep; cbn [fold_left plat_y].
    rtest. reflexivity.
Qed.

(* ================================================================== *)
(** ** C5: the apex of the hero's bounce *)

(** Every projection of the records, for goals that hold concrete games. *)
Ltac rec_simpl :=
  cbn [config mode cameraY viewHeightMeters maxAltitude heroGroundY hero human
       platforms projectiles features platformsLeft score lastThrowAt time
       promptTimer
       set_mode set_cameraY set_maxAltitude set_hero set_human set_platforms
       set_projectiles set_features set_platformsLeft set_score
       set_lastThrowAt set_time set_promptTimer
       physics_gravity throwing_speed throwing_cooldown platform_count
       hero_peakOffset hero_peakRandomness hero_minPeak human_jumpThreshold
       human_jumpDuration human_jumpArc human_worryDuration camera_offset
       camera_followSpeed features_bonusCrawler features_bonusReward
       features_bonusSpeed features_bonusRespawn ui_promptDuration
       v_x v_y plat_y plat_createdAt proj_pos proj_vel proj_age proj_active
       hero_pos hero_vel hero_squish
       hum_y hum_state hum_jumpPhase hum_jumpPhaseTime hum_jumpStart
       hum_jumpTarget hum_jumpTime hum_worryTime
       bc_y bc_active bc_respawnTimer bc_flashTime
       clip_length clip_fps fst snd negb andb orb
       GameMode_eqb HumanState_eqb HumanJumpPhase_eqb].

Lemma updateHero_contact_velocity g dt u :
  groundContact g dt ->
  v_y (hero_vel (hero (updateHero g dt u))) = desiredVy g u.
Proof.
  unfold groundContact, updateHero; intros Hc; cbv zeta.
  rewrite (proj2 (Rleb_true_iff _ _) Hc). reflexivity.
Qed.

Lemma randRange_symmetric_bounds u r :
  0 <= u < 1 -> 0 <= r -> - r <= randRange u (- r) r <= r.
Proof.
  unfold randRange; intros [Hu0 Hu1] Hr.
  assert (0 <= u * (r - - r)) by (apply Rmult_le_pos; lra).
  assert (u * (r - - r) <= 1 * (r - - r))
    by (apply Rmult_le_compat_r; lra).
  lra.
Qed.

Lemma desiredApex_bounds g u :
  0 <= u < 1 -> 0 <= hero_peakRandomness (config g) ->
  Rmax (hero_minPeak (config g))
       (hum_y (human g) + hero_peakOffset (config g)
          - hero_peakRandomness (config g))
  <= desiredApex g u
  <= Rmax (hero_minPeak (config g))
       (hum_y (human g) + hero_peakOffset (config g)
          + hero_peakRandomness (config g)).
Proof.
  intros Hu Hr; unfold desiredApex; cbv zeta.
  pose proof (randRange_symmetric_bounds u _ Hu Hr) as Hrand.
  revert Hrand; generalize (randRange u (- hero_peakRandomness (config g))
                              (hero_peakRandomness (config g))); intros w Hw.
  unfold Rmax; repeat destruct (Rle_dec _ _); lra.
Qed.

Lemma apexOf_desiredVy g u :
  0 < physics_gravity (config g) ->
  apexOf (heroGroundY g) (desiredVy g u) (physics_gravity (config g))
  = heroGroundY g + Rmax 0.1 (desiredApex g u - heroGroundY g).
Proof.
  intros Hg; unfold apexOf, desiredVy; cbv zeta.
  assert (Hh : 0 < Rmax 0.1 (desiredApex g u - heroGroundY g)).
  { eapply Rlt_le_trans; [|apply Rmax_l]. lra. }
  revert Hh; generalize (Rmax 0.1 (desiredApex g u - heroGroundY g)); intros h Hh.
  rewrite sqrt_sqrt by (apply Rmult_le_pos; lra).
  field; lra.
Qed.

(** C5, with the gravity positive.  On a ground contact of the hero, with
    human height [H], [peakOffset = P], [peakRandomness = R >= 0],
    [minPeak = M], [groundY = 0] and [gravity > 0], the apex implied by the
    new launch velocity lies in [[max(M, H+P-R), max(M, H+P+R)]] for every
    draw [0 <= u < 1], provided [max(M, H+P-R) >= groundY + 0.1]. *)
Theorem hero_apex_in_range (g : Game) (dt u : R) :
  0 <= u < 1 ->
  0 < physics_gravity (config g) ->
  0 <= hero_peakRandomness (config g) ->
  heroGroundY g = 0 ->
  heroGroundY g + 0.1
    <= Rmax (hero_minPeak (config g))
         (hum_y (human g) + hero_peakOffset (config g)
            - hero_peakRandomness (config g)) ->
  groundContact g dt ->
  Rmax (hero_minPeak (config g))
       (hum_y (human g) + hero_peakOffset (config g)
          - hero_peakRandomness (config g))
  <= apexOf (heroGroundY g) (v_y (hero_vel (hero (updateHero g dt u))))
       (physics_gravity (config g))
  <= Rmax (hero_minPeak (config g))
       (hum_y (human g) + hero_peakOffset (config g)
          + hero_peakRandomness (config g)).
Proof.
  intros Hu Hgrav Hr Hground Hguard Hcontact.
  rewrite (updateHero_contact_velocity g dt u Hcontact).
  rewrite (apexOf_desiredVy g u Hgrav).
  pose proof (desiredApex_bounds g u Hu Hr) as Hb.
  revert Hb Hguard; rewrite Hground.
  generalize (desiredApex g u); intros a.
  generalize (Rmax (hero_minPeak (config g))
       (hum_y (human g) + hero_peakOffset (config g)
          - hero_peakRandomness (config g))); intros lo.
  generalize (Rmax (hero_minPeak (config g))
       (hum_y (human g) + hero_peakOffset (config g)
          + hero_peakRandomness (config g))); intros hi.
  intros [Hlo Hhi] Hguard.
  rewrite Rmax_right by lra. lra.
Qed.

Lemma initialGame_groundContact : groundContact initialGame 0.03.
Proof. unfold groundContact; simpl; lra. Qed.

Lemma Rmax_16_35 : Rmax 1.6 (2 + 2 - 0.5) = 3.5.
Proof. unfold Rmax; destruct (Rle_dec _ _); lra. Qed.

(** The first bounce of the initial game: the apex lies in [[3.5, 4.5]]. *)
Lemma hero_apex_in_range_witness :
  groundContact initialGame 0.03 /\
  Rmax (hero_minPeak (config initialGame))
       (hum_y (human initialGame) + hero_peakOffset (config initialGame)
          - hero_peakRandomness (config initialGame))
  <= apexOf (heroGroundY initialGame)
       (v_y (hero_vel (hero (updateHero initialGame 0.03 0.25))))
       (physics_gravity (config initialGame))
  <= Rmax (hero_minPeak (config initialGame))
       (hum_y (human initialGame) + hero_peakOffset (config initialGame)
          + hero_peakRandomness (config initialGame)).
Proof.
  split; [exact initialGame_groundContact|].
  apply (hero_apex_in_range initialGame 0.03 0.25).
  - lra.
  - simpl; lra.
  - simpl; lra.
  - reflexivity.
  - simpl. rewrite Rmax_16_35. lra.
  - exact initialGame_groundContact.
Defined.

(** C5 as stated fails when the gravity is [0]: every proviso of the claim
    holds at the first tick of [zeroGravityGame], the hero is in contact
    with the ground, and the launch velocity is [0], so the implied apex is
    the ground height [0], below [max(M, H+P-R) = 3.5]. *)
Lemma hero_apex_zero_gravity_counterexample :
  0 <= 0.25 < 1 /\
  0 <= hero_peakRandomness (config zeroGravityGame) /\
  heroGroundY zeroGravityGame = 0 /\
  heroGroundY zeroGravityGame + 0.1
    <= Rmax (hero_minPeak (config zeroGravityGame))
         (hum_y (human zeroGravityGame)
            + hero_peakOffset (config zeroGravityGame)
            - hero_peakRandomness (config zeroGravityGame)) /\
  groundContact zeroGravityGame 0.03 /\
  ~ (Rmax (hero_minPeak (config zeroGravityGame))
          (hum_y (human zeroGravityGame)
             + hero_peakOffset (config zeroGravityGame)
             - hero_peakRandomness (config zeroGravityGame))
     <= apexOf (heroGroundY zeroGravityGame)
          (v_y (hero_vel (hero (updateHero zeroGravityGame 0.03 0.25))))
          (physics_gravity (config zeroGravityGame))).
Proof.
  assert (Hc : groundContact zeroGravityGame 0.03)
    by (unfold groundContact; simpl; lra).
  pose proof Rmax_16_35 as Hlo.
  split; [lra|]. split; [simpl; lra|]. split; [reflexivity|].
  split; [simpl; rewrite Hlo; lra|]. split; [exact Hc|].
  rewrite (updateHero_contact_velocity _ _ 0.25 Hc).
  unfold desiredVy, apexOf; cbv zeta.
  unfold zeroGravityGame, resetGame; rec_simpl.
  rewrite Hlo.
  replace (2 * 0 * Rmax 0.1 (desiredApex _ 0.25 - 0)) with 0 by ring.
  rewrite sqrt_0.
  replace (0 + 0 * 0 / (2 * 0)) with 0 by (unfold Rdiv; ring).
  lra.
Qed.

(* ================================================================== *)
(** ** C10: landing and looking for the next platform in one call *)

Lemma clamp_ge_1 x : 1 <= x -> clamp x 0 1 = 1.
Proof.
  intros Hx; unfold clamp.
  rewrite (Rmax_right 0 x) by lra. apply Rmin_left; exact Hx.
Qed.

(** The jump in progress completes: the human is idle at [jumpTarget]. *)
Lemma advanceHumanJump_lands g dt :
  1 <= (hum_jumpTime (human g) + dt) / human_jumpDuration (config g) ->
  advanceHumanJump g dt =
  set_human g
    (mkHuman (hum_jumpTarget (human g)) idle land 0 (hum_jumpStart (human g))
       (hum_jumpTarget (human g)) (hum_jumpTime (human g) + dt)
       (hum_worryTime (human g))).
Proof.
  intros Ht; unfold advanceHumanJump; cbv zeta.
  rewrite (clamp_ge_1 _ Ht).
  destruct (negb _); rewrite (proj2 (Rleb_true_iff 1 1)) by lra; reflexivity.
Qed.

Lemma attemptHumanJump_from_idle_or_worry g q :
  hum_state (human g) <> jumping ->
  findReachablePlatform g = Some q ->
  attemptHumanJump g =
  (true,
   set_human g
     (mkHuman (hum_y (human g)) jumping prep 0 (hum_y (human g)) (plat_y q) 0 0)).
Proof.
  intros Hs Hq; unfold attemptHumanJump.
  rewrite (proj2 (HumanState_eqb_neq _ _) Hs), Hq. reflexivity.
Qed.

(** C10.  The three tests of [updateHuman] are made one after the other in
    the same call: whenever the human is idle after the jump and worry
    tests, the idle test of that call is the jump attempt.  When the jump
    in progress completes (the normalised progress [t] reaches 1) the human
    is set idle at [jumpTarget] and the idle test of the same call starts
    the next jump if a platform is in reach from there; likewise when the
    worry timer runs out.  So the human can be jumping again at the end of
    the very tick it landed, or stopped worrying, in. *)
Theorem updateHuman_relaunches_same_tick (g : Game) (dt : R) (q : Platform) :
  (hum_state (human (humanWorryStep (humanJumpingStep g dt) dt)) = idle ->
   updateHuman g dt
   = snd (attemptHumanJump (humanWorryStep (humanJumpingStep g dt) dt))) /\
  (hum_state (human g) = jumping ->
   hum_jumpPhase (human g) <> prep ->
   1 <= (hum_jumpTime (human g) + dt) / human_jumpDuration (config g) ->
   findReachableFrom (hum_jumpTarget (human g))
     (human_jumpThreshold (config g)) (platforms g) None = Some q ->
   hum_state (human (humanJumpingStep g dt)) = idle /\
   hum_y (human (humanJumpingStep g dt)) = hum_jumpTarget (human g) /\
   human (updateHuman g dt)
     = mkHuman (hum_jumpTarget (human g)) jumping prep 0
         (hum_jumpTarget (human g)) (plat_y q) 0 0) /\
  (hum_state (human g) = worry ->
   hum_worryTime (human g) - dt <= 0 ->
   findReachablePlatform g = Some q ->
   hum_state (human (humanWorryStep (humanJumpingStep g dt) dt)) = idle /\
   human (updateHuman g dt)
     = mkHuman (hum_y (human g)) jumping prep 0 (hum_y (human g)) (plat_y q) 0 0).
Proof.
  split; [intros Hi; unfold updateHuman, humanIdleStep; rewrite Hi; reflexivity|].
  split.
  - intros Hs Hp Ht Hq.
    assert (Hj : humanJumpingStep g dt =
      set_human g
        (mkHuman (hum_jumpTarget (human g)) idle land 0 (hum_jumpStart (human g))
           (hum_jumpTarget (human g)) (hum_jumpTime (human g) + dt)
           (hum_worryTime (human g)))).
    { unfold humanJumpingStep; rewrite Hs; cbn [HumanState_eqb].
      destruct (hum_jumpPhase (human g)); try congruence;
        cbn [HumanJumpPhase_eqb]; apply advanceHumanJump_lands; exact Ht. }
    unfold updateHuman; rewrite Hj.
    split; [reflexivity|]. split; [reflexivity|].
    unfold humanWorryStep, humanIdleStep; rec_simpl.
    rewrite (attemptHumanJump_from_idle_or_worry _ q); [reflexivity|discriminate|].
    unfold findReachablePlatform; rec_simpl; exact Hq.
  - intros Hs Hw Hq.
    assert (Hj : humanJumpingStep g dt = g)
      by (unfold humanJumpingStep; rewrite Hs; reflexivity).
    unfold updateHuman; rewrite Hj.
    assert (Hwy : humanWorryStep g dt =
      set_human g
        (mkHuman (hum_y (human g)) idle (hum_jumpPhase (human g))
           (hum_jumpPhaseTime (human g)) (hum_jumpStart (human g))
           (hum_jumpTarget (human g)) (hum_jumpTime (human g)) 0)).
    { unfold humanWorryStep; rewrite Hs; cbn [HumanState_eqb]; cbv zeta.
      rewrite (Rmax_left 0 _) by lra.
      rewrite (proj2 (Rleb_true_iff 0 0)) by lra. reflexivity. }
    rewrite Hwy; split; [reflexivity|].
    unfold humanIdleStep; rec_simpl.
    rewrite (attemptHumanJump_from_idle_or_worry _ q); [reflexivity|discriminate|].
    unfold findReachablePlatform; rec_simpl; exact Hq.
Qed.

Lemma updateHuman_relaunches_same_tick_witness :
  human (updateHuman landingGame 0.03) = mkHuman 4 jumping prep 0 4 5.5 0 0 /\
  human (updateHuman worryEndsGame 0.03) = mkHuman 2 jumping prep 0 2 4 0 0.
Proof.
  split.
  - refine (proj2 (proj2 (proj1 (proj2
      (updateHuman_relaunches_same_tick landingGame 0.03 (mkPlatform 5.5 2)))
      _ _ _ _))).
    + reflexivity.
    + discriminate.
    + simpl; lra.
    + unfold findReachableFrom, reachableStep; simpl; rtest; reflexivity.
  - refine (proj2 (proj2 (proj2
      (updateHuman_relaunches_same_tick worryEndsGame 0.03 (mkPlatform 4 2)))
      _ _ _)).
    + reflexivity.
    + simpl; lra.
    + unfold findReachablePlatform, findReachableFrom, reachableStep; simpl;
        rtest; reflexivity.
Defined.

(* ================================================================== *)
(** ** C7: one outcome per projectile *)

Lemma set_features_same g : set_features g (features g) = g.
Proof. destruct g; reflexivity. Qed.

(** The off-range test that follows a wall stick only repeats the
    deactivation. *)
Lemma deactivate_idem p : deactivate (deactivate p) = deactivate p.
Proof. reflexivity. Qed.

(** A feature that does not consume the projectile changes nothing. *)
Lemma feature_onProjectile_declines f p g :
  snd (feature_onProjectile f p g) = false ->
  feature_onProjectile f p g = (f, g, false).
Proof.
  destruct f as [c]; unfold feature_onProjectile, crawler_onProjectile.
  destruct (negb _); [reflexivity|].
  destruct (_ <=? _); [discriminate|reflexivity].
Qed.

Lemma offerToFeatures_declined fs p g :
  snd (offerToFeatures fs p g) = false ->
  offerToFeatures fs p g = (fs, g, false).
Proof.
  induction fs as [|f rest IH]; simpl; [reflexivity|].
  destruct (feature_onProjectile f p g) as [[f1 g1] consumed] eqn:Hf.
  destruct consumed; simpl; [discriminate|].
  pose proof (feature_onProjectile_declines f p g) as Hd.
  rewrite Hf in Hd; specialize (Hd eq_refl); inversion Hd; subst f1 g1.
  destruct (offerToFeatures rest p g) as [[rest1 g2] c]; simpl in *.
  intros Hc; specialize (IH Hc); inversion IH; reflexivity.
Qed.

(** When the projectile is consumed, one feature did it: the features
    before it declined, the features after it were not called. *)
Lemma offerToFeatures_consumed fs p g :
  snd (offerToFeatures fs p g) = true ->
  exists fs1 f f1 fs2,
    fs = fs1 ++ f :: fs2 /\
    (forall f0, In f0 fs1 -> feature_onProjectile f0 p g = (f0, g, false)) /\
    feature_onProjectile f p g = (f1, snd (fst (offerToFeatures fs p g)), true) /\
    fst (fst (offerToFeatures fs p g)) = fs1 ++ f1 :: fs2.
Proof.
  induction fs as [|f rest IH]; simpl; [discriminate|].
  destruct (feature_onProjectile f p g) as [[f1 g1] consumed] eqn:Hf.
  destruct consumed; simpl.
  - intros _. exists [], f, f1, rest; simpl.
    repeat split; auto. intros f0 [].
  - pose proof (feature_onProjectile_declines f p g) as Hd.
    rewrite Hf in Hd; specialize (Hd eq_refl); inversion Hd; subst f1 g1.
    destruct (offerToFeatures rest p g) as [[rest1 g2] c]; simpl in *.
    intros Hc; destruct (IH Hc) as (fs1 & f' & f1' & fs2 & -> & Hbefore & Hhit & ->).
    exists (f :: fs1), f', f1', fs2; simpl.
    repeat split; auto.
    intros f0 [<-|Hin]; [exact Hf|apply Hbefore; exact Hin].
Qed.

Lemma stickToWall_platforms g p :
  platforms (stickToWall g p)
  = platforms g ++ [mkPlatform (Rmax 0 (v_y (proj_pos p))) (time g)].
Proof.
  unfold stickToWall; cbv zeta.
  rewrite (only_human_platforms _ _ (handlePlatformPlacement_only_human _ _)).
  reflexivity.
Qed.

Lemma stickToWall_features g p : features (stickToWall g p) = features g.
Proof.
  unfold stickToWall; cbv zeta.
  rewrite (only_human_features _ _ (handlePlatformPlacement_only_human _ _)).
  reflexivity.
Qed.

Lemma only_budget_platforms g g' : only_budget g g' -> platforms g' = platforms g.
Proof. unfold only_budget; intros ->; reflexivity. Qed.



(** The four cases of one iteration. *)
Lemma stepProjectile_outcomes (g : Game) (dt : R) (p : Projectile) :
  proj_active p = true ->
  let p1 := integrate (physics_gravity (config g) * 0.85) dt p in
  let consumed := snd (offerToFeatures (features g) p1 g) in
  let g' := fst (stepProjectile g dt p) in
  let p' := snd (stepProjectile g dt p) in
  (consumed = true ->
     (exists fs1 f f1 fs2,
        features g = fs1 ++ f :: fs2 /\
        features g' = fs1 ++ f1 :: fs2 /\
        (forall f0, In f0 fs1 -> feature_onProjectile f0 p1 g = (f0, g, false)) /\
        fst (fst (feature_onProjectile f p1 g)) = f1 /\
        snd (feature_onProjectile f p1 g) = true) /\
     p' = deactivate p1 /\
     platforms g' = platforms g /\
     human g' = human g) /\
  (consumed = false -> v_x (proj_pos p1) <= 0 ->
     p' = deactivate p1 /\
     platforms g'
       = platforms g ++ [mkPlatform (Rmax 0 (v_y (proj_pos p1))) (time g)] /\
     features g' = features g /\
     platformsLeft g' = platformsLeft g) /\
  (consumed = false -> 0 < v_x (proj_pos p1) -> offRange g p1 = true ->
     p' = deactivate p1 /\ g' = g) /\
  (consumed = false -> 0 < v_x (proj_pos p1) -> offRange g p1 = false ->
     p' = p1 /\ proj_active p' = true /\ g' = g).
Proof.
  intros Hact p1 consumed g' p'.
  assert (Hact1 : proj_active p1 = true) by exact Hact.
  subst g' p'; unfold stepProjectile; rewrite Hact; cbn [negb]; cbv zeta.
  fold p1.
  pose proof (offerToFeatures_consumed (features g) p1 g) as Hyes.
  pose proof (offerToFeatures_declined (features g) p1 g) as Hno.
  pose proof (offerToFeatures_only_budget (features g) p1 g) as Hbud.
  subst consumed.
  destruct (offerToFeatures (features g) p1 g) as [[fs g1] c]; simpl in Hyes, Hno, Hbud.
  destruct c; cbn [snd fst].
  - (* consumed *)
    split; [intros _|split; [discriminate|split; discriminate]].
    destruct (Hyes eq_refl) as (fs1 & f & f1 & fs2 & Hfs & Hbefore & Hhit & Hafter).
    unfold only_budget in Hbud.
    split; [|split; [reflexivity|split; rewrite Hbud; reflexivity]].
    exists fs1, f, f1, fs2.
    repeat split; auto; rewrite Hhit; reflexivity.
  - (* offered to every feature, consumed by none *)
    specialize (Hno eq_refl); inversion Hno; subst fs g1.
    rewrite set_features_same.
    split; [discriminate|].
    split; [|split].
    + intros _ Hx. rewrite (proj2 (Rleb_true_iff _ _) Hx).
      assert (Hp : (if offRange (stickToWall g p1) (deactivate p1)
                    then (stickToWall g p1, deactivate (deactivate p1))
                    else (stickToWall g p1, deactivate p1))
                   = (stickToWall g p1, deactivate p1))
        by (destruct (offRange _ _); reflexivity).
      rewrite Hp; cbn [fst snd].
      split; [reflexivity|]. split; [apply stickToWall_platforms|].
      split; [apply stickToWall_features|apply stickToWall_budget].
    + intros _ Hx Hoff. rewrite (proj2 (Rleb_false_iff _ _) Hx), Hoff.
      split; reflexivity.
    + intros _ Hx Hoff. rewrite (proj2 (Rleb_false_iff _ _) Hx), Hoff.
      repeat split; auto.
Qed.



(* ================================================================== *)
(** ** C2: from which states a jump begins *)

Lemma attemptHumanJump_only_if_not_jumping g :
  fst (attemptHumanJump g) = true -> hum_state (human g) <> jumping.
Proof.
  unfold attemptHumanJump.
  destruct (hum_state (human g)); cbn [HumanState_eqb]; intros H;
    try discriminate H; discriminate.
Qed.

Lemma handlePlatformPlacement_from_worry g y q :
  hum_state (human g) = worry ->
  findReachablePlatform g = Some q ->
  human (handlePlatformPlacement g y)
  = mkHuman (hum_y (human g)) jumping prep 0 (hum_y (human g)) (plat_y q) 0 0.
Proof.
  intros Hs Hq; unfold handlePlatformPlacement.
  rewrite Hs; cbn [HumanState_eqb].
  rewrite (attemptHumanJump_from_idle_or_worry g q); [reflexivity| |exact Hq].
  rewrite Hs; discriminate.
Qed.

Lemma updateHuman_keeps_worry g dt :
  hum_state (human g) = worry ->
  0 < hum_worryTime (human g) - dt ->
  hum_state (human (updateHuman g dt)) = worry.
Proof.
  intros Hs Hw; unfold updateHuman.
  assert (Hj : humanJumpingStep g dt = g)
    by (unfold humanJumpingStep; rewrite Hs; reflexivity).
  rewrite Hj.
  unfold humanWorryStep; rewrite Hs; cbn [HumanState_eqb]; cbv zeta.
  rewrite (Rmax_right 0 _) by lra.
  rewrite (proj2 (Rleb_false_iff _ 0)) by lra.
  unfold humanIdleStep; rec_simpl. reflexivity.
Qed.

(** C2, as the code has it.  A jump never begins while the human is
    jumping, and placement handling leaves a jumping human alone.  Inside
    [updateHuman] a jump begins from the idle state only: a human whose
    worry timer has not run out is still worried after the call.  Platform
    placement, however, attempts the jump whenever the human is not
    jumping: a reachable platform takes a worried human to jumping with no
    idle state in between. *)
Theorem jump_begins_when_not_jumping (g : Game) (dt y : R) (q : Platform) :
  (fst (attemptHumanJump g) = true -> hum_state (human g) <> jumping) /\
  (hum_state (human g) = jumping -> handlePlatformPlacement g y = g) /\
  (hum_state (human g) = worry -> 0 < hum_worryTime (human g) - dt ->
   hum_state (human (updateHuman g dt)) = worry) /\
  (hum_state (human g) = worry -> findReachablePlatform g = Some q ->
   human (handlePlatformPlacement g y)
   = mkHuman (hum_y (human g)) jumping prep 0 (hum_y (human g)) (plat_y q) 0 0).
Proof.
  split; [apply attemptHumanJump_only_if_not_jumping|].
  split; [intros Hs; unfold handlePlatformPlacement; rewrite Hs; reflexivity|].
  split; [apply updateHuman_keeps_worry|apply handlePlatformPlacement_from_worry].
Qed.

(* ================================================================== *)
(** ** Evaluating the model on concrete games *)

Lemma sqrt_of_square x r : 0 <= r -> x = r * r -> sqrt x = r.
Proof. intros Hr ->; apply sqrt_square; exact Hr. Qed.

(** Unfold the straight-line helpers and the list recursions; the calls of
    the functions that branch on numbers stay. *)
Ltac base_cbv t :=
  eval cbv beta iota zeta delta
      [desiredVy desiredApex randRange integrate deactivate offRange
       stepProjectiles offerToFeatures fold_left map filter app length Nat.eqb
       lerp clamp clipDuration HUMAN_ANIM_jump_prep DEFAULT_CONFIG
       config mode cameraY viewHeightMeters maxAltitude heroGroundY hero human
       platforms projectiles features platformsLeft score lastThrowAt time
       promptTimer
       set_mode set_cameraY set_maxAltitude set_hero set_human set_platforms
       set_projectiles set_features set_platformsLeft set_score
       set_lastThrowAt set_time set_promptTimer
       physics_gravity throwing_speed throwing_cooldown platform_count
       hero_peakOffset hero_peakRandomness hero_minPeak human_jumpThreshold
       human_jumpDuration human_jumpArc human_worryDuration camera_offset
       camera_followSpeed features_bonusCrawler features_bonusReward
       features_bonusSpeed features_bonusRespawn ui_promptDuration
       v_x v_y plat_y plat_createdAt proj_pos proj_vel proj_age proj_active
       hero_pos hero_vel hero_squish
       hum_y hum_state hum_jumpPhase hum_jumpPhaseTime hum_jumpStart
       hum_jumpTarget hum_jumpTime hum_worryTime
       bc_y bc_active bc_respawnTimer bc_flashTime
       clip_length clip_fps fst snd negb andb orb
       GameMode_eqb HumanState_eqb HumanJumpPhase_eqb] in t.

(** Decide the [max]s and [min]s of known numbers. *)
Ltac rminmax :=
  repeat match goal with
  | |- context [Rmax ?a ?b] =>
      first [ rewrite (Rmax_left a b) by lra | rewrite (Rmax_right a b) by lra ]
  | |- context [Rmin ?a ?b] =>
      first [ rewrite (Rmin_left a b) by lra | rewrite (Rmin_right a b) by lra ]
  end.

(** Evaluate the integer tests and subtractions on the budget. *)
Ltac ztest :=
  repeat match goal with
  | |- context [(?a <=? ?b)%Z] =>
      let v := eval vm_compute in (a <=? b)%Z in change (a <=? b)%Z with v
  | |- context [(?a - ?b)%Z] =>
      let v := eval vm_compute in (a - b)%Z in change (a - b)%Z with v
  end.

Lemma mkVec2_eq a b a' b' : a = a' -> b = b' -> mkVec2 a b = mkVec2 a' b'.
Proof. intros -> ->; reflexivity. Qed.

Lemma mkPlatform_eq a b a' b' :
  a = a' -> b = b' -> mkPlatform a b = mkPlatform a' b'.
Proof. intros -> ->; reflexivity. Qed.

Lemma mkHero_eq a b c a' b' c' :
  a = a' -> b = b' -> c = c' -> mkHero a b c = mkHero a' b' c'.
Proof. intros -> -> ->; reflexivity. Qed.

Lemma mkProjectile_eq a b c d a' b' c' :
  a = a' -> b = b' -> c = c' -> mkProjectile a b c d = mkProjectile a' b' c' d.
Proof. intros -> -> ->; reflexivity. Qed.

Lemma mkCrawler_eq a b c d a' c' d' :
  a = a' -> c = c' -> d = d' -> mkCrawler a b c d = mkCrawler a' b c' d'.
Proof. intros -> -> ->; reflexivity. Qed.

Lemma mkHuman_eq y s ph pt js jt tm w y' pt' js' jt' tm' w' :
  y = y' -> pt = pt' -> js = js' -> jt = jt' -> tm = tm' -> w = w' ->
  mkHuman y s ph pt js jt tm w = mkHuman y' s ph pt' js' jt' tm' w'.
Proof. intros -> -> -> -> -> ->; reflexivity. Qed.

Lemma mkGame_eq cfg m cam view alt ground he hu pl pr fe left sc last tm prompt
    cam' view' alt' ground' he' hu' pl' pr' fe' sc' last' tm' prompt' :
  cam = cam' -> view = view' -> alt = alt' -> ground = ground' ->
  he = he' -> hu = hu' -> pl = pl' -> pr = pr' -> fe = fe' ->
  sc = sc' -> last = last' -> tm = tm' -> prompt = prompt' ->
  mkGame cfg m cam view alt ground he hu pl pr fe left sc last tm prompt
  = mkGame cfg m cam' view' alt' ground' he' hu' pl' pr' fe' left sc' last'
      tm' prompt'.
Proof. intros -> -> -> -> -> -> -> -> -> -> -> -> ->; reflexivity. Qed.

(** Two games are equal when their numbers are. *)
Ltac rec_eq :=
  lazymatch goal with
  | |- @eq R _ _ => lra
  | |- mkGame _ _ _ _ _ _ _ _ _ _ _ _ _ _ _ _ = _ => apply mkGame_eq; rec_eq
  | |- mkHero _ _ _ = _ => apply mkHero_eq; rec_eq
  | |- mkHuman _ _ _ _ _ _ _ _ = _ => apply mkHuman_eq; rec_eq
  | |- mkVec2 _ _ = _ => apply mkVec2_eq; rec_eq
  | |- mkPlatform _ _ = _ => apply mkPlatform_eq; rec_eq
  | |- mkProjectile _ _ _ _ = _ => apply mkProjectile_eq; rec_eq
  | |- mkCrawler _ _ _ _ = _ => apply mkCrawler_eq; rec_eq
  | |- BonusCrawlerFeature _ = _ => apply f_equal; rec_eq
  | |- cons _ _ = cons _ _ => apply f_equal2; rec_eq
  | |- _ => reflexivity
  end.

(** After a call: reduce, then decide what the call has exposed. *)
Ltac settle := repeat (progress (cbv beta iota; ztest; rminmax; rtest)).

Ltac is_game g :=
  lazymatch g with mkGame _ _ _ _ _ _ _ _ _ _ _ _ _ _ _ _ => idtac end.
Ltac is_option o :=
  lazymatch o with Some _ => idtac | None => idtac end.

(** One call [t] of the function [f], its arguments being values. *)
Ltac call f t :=
  let t1 := eval cbv delta [f] in t in
  let t2 := base_cbv t1 in
  change t with t2; settle.

(** Evaluate one call whose game argument is given field by field,
    innermost calls first. *)
Ltac step_model :=
  match goal with
  | |- context [reachableStep ?h ?thr ?c ?p] =>
      is_option c; call reachableStep (reachableStep h thr c p)
  | |- context [findReachableFrom ?h ?thr ?ps ?c] =>
      is_option c; call findReachableFrom (findReachableFrom h thr ps c)
  | |- context [findReachablePlatform ?g] =>
      is_game g; call findReachablePlatform (findReachablePlatform g)
  | |- context [attemptHumanJump ?g] =>
      is_game g; call attemptHumanJump (attemptHumanJump g)
  | |- context [handlePlatformPlacement ?g ?y] =>
      is_game g; call handlePlatformPlacement (handlePlatformPlacement g y)
  | |- context [stickToWall ?g ?p] =>
      is_game g; call stickToWall (stickToWall g p)
  | |- context [crawler_onProjectile ?c ?p ?g] =>
      is_game g; call crawler_onProjectile (crawler_onProjectile c p g)
  | |- context [feature_onProjectile ?f ?p ?g] =>
      is_game g; call feature_onProjectile (feature_onProjectile f p g)
  | |- context [stepProjectile ?g ?dt ?p] =>
      is_game g; call stepProjectile (stepProjectile g dt p)
  | |- context [updateProjectiles ?g ?dt] =>
      is_game g; call updateProjectiles (updateProjectiles g dt)
  | |- context [tickClock ?g ?dt] => is_game g; call tickClock (tickClock g dt)
  | |- context [updateHero ?g ?dt ?u] =>
      is_game g; call updateHero (updateHero g dt u)
  | |- context [humanJumpingStep ?g ?dt] =>
      is_game g; call humanJumpingStep (humanJumpingStep g dt)
  | |- context [humanWorryStep ?g ?dt] =>
      is_game g; call humanWorryStep (humanWorryStep g dt)
  | |- context [humanIdleStep ?g] =>
      is_game g; call humanIdleStep (humanIdleStep g)
  | |- context [updateHuman ?g ?dt] =>
      is_game g; call updateHuman (updateHuman g dt)
  | |- context [updateCamera ?g ?dt] =>
      is_game g; call updateCamera (updateCamera g dt)
  | |- context [trackAltitude ?g] => is_game g; call trackAltitude (trackAltitude g)
  | |- context [crawler_update ?c ?dt ?g] =>
      is_game g; call crawler_update (crawler_update c dt g)
  | |- context [feature_update ?f ?dt ?g] =>
      is_game g; call feature_update (feature_update f dt g)
  | |- context [updateFeatures ?g ?dt] =>
      is_game g; call updateFeatures (updateFeatures g dt)
  | |- context [updateScore ?g] => is_game g; call updateScore (updateScore g)
  | |- context [runIsOver ?g] => is_game g; call runIsOver (runIsOver g)
  | |- context [endGame ?g] => is_game g; call endGame (endGame g)
  | |- context [addPlatforms ?g ?a] => is_game g; call addPlatforms (addPlatforms g a)
  | |- context [throwPlatform ?g ?u] =>
      is_game g; call throwPlatform (throwPlatform g u)
  end.

(** The rational a closed arithmetic expression stands for. *)
Ltac r2q e :=
  lazymatch e with
  | (?a + ?b)%R => let x := r2q a in let y := r2q b in constr:(Qplus x y)
  | (?a - ?b)%R => let x := r2q a in let y := r2q b in constr:(Qminus x y)
  | (?a * ?b)%R => let x := r2q a in let y := r2q b in constr:(Qmult x y)
  | (?a / ?b)%R => let x := r2q a in let y := r2q b in constr:(Qdiv x y)
  | (- ?a)%R => let x := r2q a in constr:(Qopp x)
  | IZR ?z => constr:(inject_Z z)
  | Q2R ?q => constr:(q)
  end.

Ltac is_literal e :=
  lazymatch e with
  | IZR _ => idtac
  | Q2R _ => idtac
  end.

(** Replace the closed expression [e] by the number it is. *)
Ltac rnorm e :=
  tryif is_literal e then fail else
  let q := r2q e in
  let q' := eval vm_compute in (Qred q) in
  lazymatch q' with
  | Qmake ?n 1 => replace e with (IZR n) by lra
  | _ => replace e with (Q2R q') by lra
  end.

(** The square root of a closed expression that is a rational square. *)
Ltac rsqrt :=
  repeat match goal with
  | |- context [sqrt ?x] =>
      let q := r2q x in
      let q' := eval vm_compute in (Qred q) in
      lazymatch q' with
      | Qmake ?n ?d =>
          let rn := eval vm_compute in (Z.sqrt n) in
          let rd := eval vm_compute in (Pos.sqrt d) in
          rewrite (sqrt_of_square x (Q2R (Qmake rn rd))) by lra
      end
  end.

(** Every number held by a game, as a literal. *)
Ltac normalize_fields :=
  repeat match goal with
  | |- context [mkVec2 ?a ?b] => first [rnorm a | rnorm b]
  | |- context [mkHero _ _ ?s] => rnorm s
  | |- context [mkHuman ?y _ _ ?pt ?js ?jt ?tm ?w] =>
      first [rnorm y | rnorm pt | rnorm js | rnorm jt | rnorm tm | rnorm w]
  | |- context [mkPlatform ?y ?c] => first [rnorm y | rnorm c]
  | |- context [mkProjectile _ _ ?age _] => rnorm age
  | |- context [mkCrawler ?y _ ?t ?f] => first [rnorm y | rnorm t | rnorm f]
  | |- context [mkGame _ _ ?cam ?view ?alt ?gr _ _ _ _ _ _ ?sc ?last ?tm ?pr] =>
      first [rnorm cam | rnorm view | rnorm alt | rnorm gr | rnorm sc
            | rnorm last | rnorm tm | rnorm pr]
  end.

(** One step of the evaluation of a run: the innermost [update] or
    [throwPlatform] whose game is given field by field.  The numbers are
    brought to literals between two operations, and the game a tick has
    advanced is shared by the termination test and its branches. *)
Ltac step_run :=
  match goal with
  | |- context [advance ?g ?dt ?u] => is_game g; call advance (advance g dt u)
  | |- context [update ?g ?dt ?u] =>
      is_game g;
      first [ progress normalize_fields
            | let t1 := eval cbv delta [update] in (update g dt u) in
              let t2 := eval cbv beta iota delta [mode GameMode_eqb negb] in t1 in
              change (update g dt u) with t2 ]
  | |- context [let _ := ?r in _] => is_game r; cbv zeta
  | |- context [throwPlatform ?g ?u] =>
      is_game g;
      first [ progress normalize_fields
            | call throwPlatform (throwPlatform g u); try rsqrt; settle ]
  | |- context [updateHero ?g ?dt ?u] =>
      is_game g; call updateHero (updateHero g dt u); try rsqrt; settle
  | |- context [snd (?a, ?b)] => cbn [snd]
  | |- context [fst (?a, ?b)] => cbn [fst]
  | _ => step_model
  end.

(** Evaluate [run g ops] for a game [g] given field by field. *)
Ltac eval_run :=
  cbn [repeat app map fold_left applyOp fst snd]; repeat step_run.

(* ================================================================== *)
(** ** C2: a run that takes the human from worry to jumping *)

Lemma initialGame_startOfRun : initialGame = startOfRun.
Proof.
  unfold initialGame, resetGame, startOfRun; rec_simpl.
  unfold DEFAULT_CONFIG; rec_simpl; rec_eq.
Qed.

Lemma firstFrames_reach : run initialGame firstFrames = atFirstThrow.
Proof.
  rewrite initialGame_startOfRun.
  unfold run, firstFrames, quiet, startOfRun.
  eval_run. normalize_fields.
  unfold atFirstThrow; rec_eq.
Qed.

Lemma worryRun_reaches : run initialGame worryRun = stillWorried.
Proof.
  unfold worryRun; rewrite run_app, firstFrames_reach.
  unfold run, quiet, atFirstThrow.
  eval_run. normalize_fields.
  unfold stillWorried; rec_eq.
Qed.

Lemma worryRun_next_frame : update stillWorried 0.03 0 = jumpingFromWorry.
Proof.
  unfold stillWorried. repeat step_run. normalize_fields.
  unfold jumpingFromWorry; rec_eq.
Qed.

(** C2 as stated fails.  The state [run initialGame worryRun] is reached
    from the initial game in 43 frames of 0.03 s and two throws.  The human
    worries there, over a platform that stuck out of reach, with 0.18 s of
    worry left.  In the next frame the second platform sticks within
    reach and the human is jumping at the end of it: the worry timer had
    not run out, the jump was started by the placement handling of that
    frame. *)
Lemma worry_to_jumping_counterexample :
  hum_state (human (run initialGame worryRun)) = worry /\
  0 < hum_worryTime (human (run initialGame worryRun)) - 0.03 /\
  hum_state (human (update (run initialGame worryRun) 0.03 0)) = jumping.
Proof.
  rewrite worryRun_reaches, worryRun_next_frame.
  split; [reflexivity|]. split; [simpl; lra|reflexivity].
Qed.

(** The amended statement at the worried human of the run: a frame that
    only lets time pass keeps the worry, the placement of a platform within
    reach starts the jump. *)
Lemma jump_begins_when_not_jumping_witness :
  hum_state (human (updateHuman stillWorried 0.03)) = worry /\
  human (handlePlatformPlacement
           (set_platforms stillWorried
              (platforms stillWorried ++ [mkPlatform 3.74235 1.32])) 3.74235)
  = mkHuman 2 jumping prep 0 2 3.74235 0 0.
Proof.
  split.
  - refine (proj1 (proj2 (proj2
      (jump_begins_when_not_jumping stillWorried 0.03 0 (mkPlatform 0 0)))) _ _).
    + reflexivity.
    + simpl; lra.
  - refine (proj2 (proj2 (proj2
      (jump_begins_when_not_jumping
         (set_platforms stillWorried
            (platforms stillWorried ++ [mkPlatform 3.74235 1.32]))
         0 3.74235 (mkPlatform 3.74235 1.32)))) _ _).
    + reflexivity.
    + unfold stillWorried, set_platforms; rec_simpl; cbn [app].
      repeat step_model. reflexivity.
Defined.

(** Two throws exactly [cooldown] apart: both accepted. *)
Lemma throwPlatform_accepts_iff_witness :
  fst (throwPlatform atFirstThrow (67/952)) = true /\
  elapsed cooldownFrames = 0.2 /\
  fst (throwPlatform
         (run (snd (throwPlatform atFirstThrow (67/952))) (ticks cooldownFrames))
         (67/952)) = true.
Proof.
  assert (Hfirst : fst (throwPlatform atFirstThrow (67/952)) = true).
  { apply (proj1 (throwPlatform_accepts_iff atFirstThrow (67/952))).
    split; [reflexivity|]. split; [reflexivity|]. simpl; lra. }
  split; [exact Hfirst|]. split; [simpl; lra|].
  apply (proj2 (proj2 (proj2 (throwPlatform_accepts_iff atFirstThrow (67/952))))
           cooldownFrames (67/952) Hfirst).
  unfold run, ticks, cooldownFrames, atFirstThrow.
  eval_run.
  split; [reflexivity|]. split; [reflexivity|]. simpl; lra.
Defined.

(* ================================================================== *)
(** * Further properties *)

(** ** utils.ts *)

Lemma clamp_bounds v lo hi : lo <= hi -> lo <= clamp v lo hi <= hi.
Proof.
  intros H; unfold clamp, Rmin, Rmax.
  repeat destruct (Rle_dec _ _); lra.
Qed.

Lemma clamp_unit v : 0 <= clamp v 0 1 <= 1.
Proof. apply clamp_bounds; lra. Qed.

Lemma easeInOut_low t : t < 0.5 -> easeInOut t = 2 * t * t.
Proof.
  intros H; unfold easeInOut.
  rewrite (proj2 (Rltb_true_iff _ _) H); reflexivity.
Qed.

Lemma easeInOut_high t :
  0.5 <= t -> easeInOut t = 1 - ((-2 * t + 2) * (-2 * t + 2)) / 2.
Proof.
  intros H; unfold easeInOut.
  rewrite (proj2 (Rltb_false_iff _ _) H); reflexivity.
Qed.

Lemma easeInOut_unit t : 0 <= t <= 1 -> 0 <= easeInOut t <= 1.
Proof.
  intros [H0 H1].
  destruct (Rlt_le_dec t 0.5) as [Hl|Hh].
  - rewrite (easeInOut_low t Hl). split; nra.
  - rewrite (easeInOut_high t Hh). split; nra.
Qed.

(** X1.  [easeInOut] carries [[0, 1]] onto itself without ever going
    back: it fixes [0], [1/2] and [1], it is monotone on [[0, 1]], and it
    is symmetric about the midpoint, [easeInOut(1 - t) = 1 - easeInOut(t)]. *)
Theorem easeInOut_monotone (s t : R) :
  0 <= s -> s <= t -> t <= 1 ->
  easeInOut s <= easeInOut t /\
  0 <= easeInOut s /\ easeInOut t <= 1 /\
  easeInOut 0 = 0 /\ easeInOut 0.5 = 0.5 /\ easeInOut 1 = 1 /\
  easeInOut (1 - t) = 1 - easeInOut t.
Proof.
  intros H0 Hst H1.
  assert (Hmono : easeInOut s <= easeInOut t).
  { destruct (Rlt_le_dec s 0.5) as [Hs|Hs], (Rlt_le_dec t 0.5) as [Ht|Ht].
    - rewrite (easeInOut_low s Hs), (easeInOut_low t Ht); nra.
    - rewrite (easeInOut_low s Hs), (easeInOut_high t Ht); nra.
    - lra.
    - rewrite (easeInOut_high s Hs), (easeInOut_high t Ht); nra. }
  split; [exact Hmono|].
  split; [apply easeInOut_unit; lra|].
  split; [apply easeInOut_unit; lra|].
  split; [rewrite easeInOut_low by lra; lra|].
  split; [rewrite easeInOut_high by lra; lra|].
  split; [rewrite easeInOut_high by lra; lra|].
  destruct (Rlt_le_dec t 0.5) as [Ht|Ht].
  - rewrite (easeInOut_low t Ht), easeInOut_high by lra. lra.
  - destruct (Rle_lt_or_eq_dec _ _ Ht) as [Hlt|Heq].
    + rewrite (easeInOut_high t Ht), easeInOut_low by lra. lra.
    + subst t. replace (1 - 0.5) with 0.5 by lra.
      rewrite easeInOut_high by lra. lra.
Qed.

Lemma easeInOut_monotone_witness :
  easeInOut 0.25 <= easeInOut 0.75 /\
  0 <= easeInOut 0.25 /\ easeInOut 0.75 <= 1 /\
  easeInOut 0 = 0 /\ easeInOut 0.5 = 0.5 /\ easeInOut 1 = 1 /\
  easeInOut (1 - 0.75) = 1 - easeInOut 0.75.
Proof. apply (easeInOut_monotone 0.25 0.75); lra. Defined.

(* ================================================================== *)
(** ** The hero and the camera through a tick *)

(** The projectile pass and the human's update leave the hero and the
    camera alone. *)
Lemma only_budget_stage g g' :
  only_budget g g' ->
  hero g' = hero g /\ cameraY g' = cameraY g /\ human g' = human g /\
  projectiles g' = projectiles g.
Proof. unfold only_budget; intros ->; repeat split. Qed.

Lemma only_human_stage g g' :
  only_human g g' ->
  hero g' = hero g /\ cameraY g' = cameraY g /\
  projectiles g' = projectiles g.
Proof. unfold only_human; intros ->; repeat split. Qed.

Lemma stickToWall_stage g p :
  hero (stickToWall g p) = hero g /\ cameraY (stickToWall g p) = cameraY g.
Proof.
  unfold stickToWall; cbv zeta.
  destruct (only_human_stage _ _ (handlePlatformPlacement_only_human
    (set_platforms g (platforms g ++
       [mkPlatform (Rmax 0 (v_y (proj_pos p))) (time g)]))
    (Rmax 0 (v_y (proj_pos p))))) as (Hh & Hc & _).
  rewrite Hh, Hc; split; reflexivity.
Qed.

Lemma stepProjectile_stage g dt p :
  hero (fst (stepProjectile g dt p)) = hero g /\
  cameraY (fst (stepProjectile g dt p)) = cameraY g.
Proof.
  unfold stepProjectile.
  destruct (negb _); [split; reflexivity|].
  cbv zeta.
  pose proof (offerToFeatures_only_budget (features g)
    (integrate (physics_gravity (config g) * 0.85) dt p) g) as Ho.
  destruct (offerToFeatures _ _ g) as [[fs g1] consumed]; simpl in Ho.
  destruct (only_budget_stage _ _ Ho) as (Hh & Hc & _).
  destruct consumed; [cbn [fst set_features hero cameraY]; auto|].
  destruct (_ <=? 0).
  - destruct (stickToWall_stage (set_features g1 fs)
      (integrate (physics_gravity (config g) * 0.85) dt p)) as (Hh' & Hc').
    destruct (offRange _ _); cbn [fst]; rewrite Hh', Hc';
      cbn [set_features hero cameraY]; auto.
  - destruct (offRange _ _); cbn [fst set_features hero cameraY]; auto.
Qed.

Lemma stepProjectiles_stage dt ps :
  forall g,
    hero (fst (stepProjectiles g dt ps)) = hero g /\
    cameraY (fst (stepProjectiles g dt ps)) = cameraY g.
Proof.
  induction ps as [|p rest IH]; intros g; simpl; [split; reflexivity|].
  destruct (stepProjectile_stage g dt p) as (Hh & Hc).
  destruct (stepProjectile g dt p) as [g1 p1]; simpl in Hh, Hc.
  destruct (IH g1) as (Hh' & Hc').
  destruct (stepProjectiles g1 dt rest) as [g2 rest1]; simpl in *.
  split; congruence.
Qed.

Lemma updateProjectiles_stage g dt :
  hero (updateProjectiles g dt) = hero g /\
  cameraY (updateProjectiles g dt) = cameraY g.
Proof.
  unfold updateProjectiles.
  destruct (stepProjectiles_stage dt (projectiles g) g) as (Hh & Hc).
  destruct (stepProjectiles g dt (projectiles g)) as [g1 ps]; simpl in *.
  split; assumption.
Qed.

(** The hero after a tick is the hero after [updateHero]; the camera after
    a tick is the camera after [updateCamera] on that hero. *)
Lemma advance_hero_camera g dt u :
  hero (advance g dt u) = hero (updateHero g dt u) /\
  cameraY (advance g dt u)
  = lerp (cameraY g)
      (Rmax 0 (v_y (hero_pos (hero (updateHero g dt u)))
               - camera_offset (config g)))
      (clamp (dt * camera_followSpeed (config g)) 0 1).
Proof.
  unfold advance; cbv zeta.
  set (g2 := updateHero (tickClock g dt) dt u).
  assert (H2 : hero g2 = hero (updateHero g dt u)) by reflexivity.
  assert (C2 : cameraY g2 = cameraY g) by reflexivity.
  assert (F2 : config g2 = config g) by reflexivity.
  destruct (updateProjectiles_stage g2 dt) as (H3 & C3).
  pose proof (proj1 (updateProjectiles_frame g2 dt)) as F3.
  set (g3 := updateProjectiles g2 dt) in *.
  destruct (only_human_stage _ _ (updateHuman_only_human g3 dt)) as (H4 & C4 & _).
  pose proof (proj1 (only_human_frame _ _ (updateHuman_only_human g3 dt))) as F4.
  set (g4 := updateHuman g3 dt) in *.
  clearbody g2 g3 g4.
  proj_simpl.
  rewrite H4, H3, H2, C4, C3, C2, F4, F3, F2.
  split; reflexivity.
Qed.

Lemma advance_heroGroundY g dt u :
  heroGroundY (advance g dt u) = heroGroundY g.
Proof.
  unfold advance; cbv zeta.
  set (g2 := updateHero (tickClock g dt) dt u).
  pose proof (updateProjectiles_frame g2 dt) as H3.
  set (g3 := updateProjectiles g2 dt) in *.
  pose proof (only_human_frame _ _ (updateHuman_only_human g3 dt)) as H4.
  set (g4 := updateHuman g3 dt) in *.
  destruct (same_frame_trans _ _ _ H3 H4) as (_ & _ & _ & _ & _ & Hy & _).
  clearbody g3 g4. proj_simpl. rewrite Hy. reflexivity.
Qed.

(** A tick changes nothing, or is [advance] up to the mode. *)
Lemma update_fields g dt u :
  update g dt u = g \/
  (hero (update g dt u) = hero (advance g dt u) /\
   cameraY (update g dt u) = cameraY (advance g dt u) /\
   heroGroundY (update g dt u) = heroGroundY (advance g dt u) /\
   platforms (update g dt u) = platforms (advance g dt u) /\
   projectiles (update g dt u) = projectiles (advance g dt u) /\
   platformsLeft (update g dt u) = platformsLeft (advance g dt u) /\
   human (update g dt u) = human (advance g dt u) /\
   features (update g dt u) = features (advance g dt u) /\
   score (update g dt u) = score (advance g dt u)).
Proof.
  unfold update.
  destruct (negb _); [left; reflexivity|right].
  generalize (advance g dt u); intros g1.
  destruct (runIsOver g1); repeat split.
Qed.

Lemma lerp_between a b t :
  0 <= t <= 1 -> Rmin a b <= lerp a b t <= Rmax a b.
Proof.
  intros [H0 H1]; unfold lerp, Rmin, Rmax.
  destruct (Rle_dec a b); split; nra.
Qed.

(** X2.  [updateCamera] moves the camera towards
    [max(0, hero.pos.y - offset)] and never past it: whatever [dt] and the
    follow speed are, the new camera height lies between the old one and
    that target; it is the target itself once [dt * followSpeed >= 1], and
    the old height when [dt * followSpeed <= 0]. *)
Theorem updateCamera_between (g : Game) (dt : R) :
  let target := Rmax 0 (v_y (hero_pos (hero g)) - camera_offset (config g)) in
  Rmin (cameraY g) target <= cameraY (updateCamera g dt)
    <= Rmax (cameraY g) target /\
  (1 <= dt * camera_followSpeed (config g) ->
     cameraY (updateCamera g dt) = target) /\
  (dt * camera_followSpeed (config g) <= 0 ->
     cameraY (updateCamera g dt) = cameraY g).
Proof.
  intros target; unfold updateCamera; cbv zeta; cbn [cameraY set_cameraY].
  fold target.
  split; [apply lerp_between, clamp_unit|].
  split; intros H.
  - rewrite (clamp_ge_1 _ H). unfold lerp; lra.
  - unfold clamp. rewrite (Rmax_left 0 _) by lra.
    rewrite Rmin_right by lra. unfold lerp; lra.
Qed.

Lemma update_cameraY_nonneg g dt u :
  0 <= cameraY g -> 0 <= cameraY (update g dt u).
Proof.
  intros Hc.
  destruct (update_fields g dt u) as [->|(_ & -> & _)]; [exact Hc|].
  rewrite (proj2 (advance_hero_camera g dt u)).
  match goal with |- 0 <= lerp ?a ?b ?t =>
    pose proof (lerp_between a b t (clamp_unit _)) as [Hl _];
    pose proof (Rmax_l 0 (v_y (hero_pos (hero (updateHero g dt u)))
                          - camera_offset (config g))) as Hm;
    revert Hl Hm; generalize b; intros b' Hl Hm
  end.
  apply Rle_trans with (2 := Hl).
  apply Rmin_glb; assumption.
Qed.

Lemma throwPlatform_stage g u :
  hero (snd (throwPlatform g u)) = hero g /\
  cameraY (snd (throwPlatform g u)) = cameraY g /\
  heroGroundY (snd (throwPlatform g u)) = heroGroundY g /\
  human (snd (throwPlatform g u)) = human g /\
  platforms (snd (throwPlatform g u)) = platforms g.
Proof.
  destruct (fst (throwPlatform g u)) eqn:Hf.
  - rewrite (throwPlatform_accepted g u Hf). repeat split.
  - rewrite (throwPlatform_refused g u Hf). repeat split.
Qed.

Lemma applyOp_cameraY_nonneg g op :
  0 <= cameraY g -> 0 <= cameraY (applyOp g op).
Proof.
  intros Hc; destruct op as [u|amount|dt u]; cbn [applyOp].
  - destruct (throwPlatform_stage g u) as (_ & -> & _); exact Hc.
  - exact Hc.
  - apply update_cameraY_nonneg; exact Hc.
Qed.

(** X3.  The camera never looks below the ground: from [resetGame] on,
    whatever is thrown, granted and ticked (with any [dt], any draws, any
    configuration), [cameraY >= 0]. *)
Theorem camera_never_below_ground (g : Game) (ops : list Op) :
  0 <= cameraY (run (resetGame g) ops).
Proof.
  unfold run.
  assert (H0 : 0 <= cameraY (resetGame g)) by (cbn; lra).
  revert H0; generalize (resetGame g); clear g.
  induction ops as [|op ops IH]; intros g Hg; cbn [fold_left]; [exact Hg|].
  apply IH, applyOp_cameraY_nonneg, Hg.
Qed.

(** What [updateHero] guarantees about the hero it leaves behind. *)
Lemma updateHero_hero g dt u :
  v_x (hero_pos (hero (updateHero g dt u))) = v_x (hero_pos (hero g)) /\
  v_x (hero_vel (hero (updateHero g dt u))) = v_x (hero_vel (hero g)) /\
  heroGroundY g <= v_y (hero_pos (hero (updateHero g dt u))) /\
  0 <= hero_squish (hero (updateHero g dt u)).
Proof.
  unfold updateHero; cbv zeta; cbn [hero set_hero hero_pos hero_vel hero_squish].
  destruct (_ <=? _) eqn:Hc; cbn [hero_pos hero_vel hero_squish v_x v_y].
  - repeat split; try lra. apply Rmax_l.
  - apply Rleb_false_iff in Hc. repeat split; try lra. apply Rmax_l.
Qed.

Lemma applyOp_hero g op :
  (v_x (hero_pos (hero g)) = 3.1 /\ v_x (hero_vel (hero g)) = 0 /\
   heroGroundY g <= v_y (hero_pos (hero g)) /\ 0 <= hero_squish (hero g)) ->
  heroGroundY (applyOp g op) = heroGroundY g /\
  v_x (hero_pos (hero (applyOp g op))) = 3.1 /\
  v_x (hero_vel (hero (applyOp g op))) = 0 /\
  heroGroundY g <= v_y (hero_pos (hero (applyOp g op))) /\
  0 <= hero_squish (hero (applyOp g op)).
Proof.
  intros (Hx & Hv & Hy & Hs); destruct op as [u|amount|dt u]; cbn [applyOp].
  - destruct (throwPlatform_stage g u) as (-> & _ & -> & _); auto.
  - cbn; auto.
  - destruct (update_fields g dt u) as [->|(-> & _ & -> & _)]; [auto|].
    rewrite advance_heroGroundY, (proj1 (advance_hero_camera g dt u)).
    destruct (updateHero_hero g dt u) as (-> & -> & Hy' & Hs'). auto.
Qed.

(** X4.  The hero stays on its vertical line and above the trampoline:
    from [resetGame] on, for every run, [hero.pos.x = 3.1],
    [hero.vel.x = 0], [hero.pos.y >= heroGroundY] and [squish >= 0]; the
    ground height itself is the one the game was reset with. *)
Theorem hero_never_below_trampoline (g : Game) (ops : list Op) :
  heroGroundY (run (resetGame g) ops) = heroGroundY g /\
  v_x (hero_pos (hero (run (resetGame g) ops))) = 3.1 /\
  v_x (hero_vel (hero (run (resetGame g) ops))) = 0 /\
  heroGroundY g <= v_y (hero_pos (hero (run (resetGame g) ops))) /\
  0 <= hero_squish (hero (run (resetGame g) ops)).
Proof.
  unfold run.
  assert (H0 : heroGroundY (resetGame g) = heroGroundY g /\
               v_x (hero_pos (hero (resetGame g))) = 3.1 /\
               v_x (hero_vel (hero (resetGame g))) = 0 /\
               heroGroundY g <= v_y (hero_pos (hero (resetGame g))) /\
               0 <= hero_squish (hero (resetGame g)))
    by (cbn; repeat split; lra).
  revert H0; generalize (resetGame g); intros g0.
  revert g0; induction ops as [|op ops IH]; intros g0 H0; cbn [fold_left];
    [exact H0|].
  apply IH.
  destruct H0 as (Hg & H0); rewrite <- Hg in H0.
  destruct (applyOp_hero g0 op H0) as (Hg' & Hx & Hv & Hy & Hs).
  rewrite Hg', Hg in *. auto.
Qed.

(* ================================================================== *)
(** ** The phases of a tick *)

(** The platforms, the projectiles, the features and the budget after a
    tick are those after the projectile pass; the human is the one after
    [updateHuman]. *)
Lemma advance_phases g dt u :
  let g2 := updateHero (tickClock g dt) dt u in
  let g3 := updateProjectiles g2 dt in
  let g4 := updateHuman g3 dt in
  platforms (advance g dt u) = platforms g3 /\
  projectiles (advance g dt u) = projectiles g3 /\
  platformsLeft (advance g dt u) = platformsLeft g3 /\
  human (advance g dt u) = human g4 /\
  platforms g4 = platforms g3.
Proof.
  intros g2 g3 g4.
  unfold advance; cbv zeta. fold g2. fold g3. fold g4.
  pose proof (updateHuman_only_human g3 dt) as H4. fold g4 in H4.
  destruct (only_human_stage _ _ H4) as (_ & _ & Hp).
  pose proof (only_human_platforms _ _ H4) as Hpl.
  pose proof (only_human_budget _ _ H4) as Hb.
  clearbody g4 g3 g2.
  proj_simpl. rewrite Hp, Hpl, Hb. repeat split.
Qed.

(* ================================================================== *)
(** ** Throws and projectiles *)

Lemma randRange_bounds u lo hi :
  0 <= u < 1 -> lo < hi -> lo <= randRange u lo hi < hi.
Proof.
  unfold randRange; intros [Hu0 Hu1] Hlh.
  assert (0 <= u * (hi - lo)) by (apply Rmult_le_pos; lra).
  assert (u * (hi - lo) < 1 * (hi - lo))
    by (apply Rmult_lt_compat_r; lra).
  lra.
Qed.

(** X5.  What an accepted throw launches: one more projectile, behind the
    ones in flight, active, of age 0, 0.2 m left of and 0.6 m above the
    hero, flying towards the wall at the configured speed, and rising with
    the velocity whose ballistic apex under the projectiles' gravity
    ([0.85 * gravity]) lies at least 0.35 m and less than 0.75 m above the
    launch height. *)
Theorem throw_launches_an_arc (g : Game) (u : R) :
  fst (throwPlatform g u) = true ->
  0 <= u < 1 ->
  0 < physics_gravity (config g) ->
  exists p,
    projectiles (snd (throwPlatform g u)) = projectiles g ++ [p] /\
    proj_active p = true /\
    proj_age p = 0 /\
    proj_pos p = mkVec2 (v_x (hero_pos (hero g)) - 0.2)
                        (v_y (hero_pos (hero g)) + 0.6) /\
    v_x (proj_vel p) = - throwing_speed (config g) /\
    0 < v_y (proj_vel p) /\
    v_y (proj_pos p) + 0.35
      <= apexOf (v_y (proj_pos p)) (v_y (proj_vel p))
           (physics_gravity (config g) * 0.85)
      < v_y (proj_pos p) + 0.75.
Proof.
  intros Hf Hu Hg.
  rewrite (throwPlatform_accepted g u Hf).
  eexists; split; [reflexivity|].
  cbn [proj_active proj_age proj_pos proj_vel v_x v_y].
  pose proof (randRange_bounds u 0.35 0.75 Hu ltac:(lra)) as Hr.
  revert Hr; generalize (randRange u 0.35 0.75); intros h Hr.
  repeat split; try reflexivity.
  - apply sqrt_lt_R0. nra.
  - unfold apexOf. rewrite sqrt_sqrt by nra.
    replace (2 * (physics_gravity (config g) * 0.85) * h
             / (2 * (physics_gravity (config g) * 0.85))) with h
      by (field; lra).
    lra.
  - unfold apexOf. rewrite sqrt_sqrt by nra.
    replace (2 * (physics_gravity (config g) * 0.85) * h
             / (2 * (physics_gravity (config g) * 0.85))) with h
      by (field; lra).
    lra.
Qed.

(** A projectile that is still active after its iteration is to the right
    of the wall. *)
Lemma stepProjectile_survivor g dt p :
  proj_active (snd (stepProjectile g dt p)) = true ->
  in_flight (snd (stepProjectile g dt p)).
Proof.
  intros Ha; split; [exact Ha|].
  destruct (proj_active p) eqn:Hp.
  2:{ exfalso. unfold stepProjectile in Ha. rewrite Hp in Ha.
      cbn [negb snd] in Ha. congruence. }
  pose proof (stepProjectile_outcomes g dt p Hp) as H.
  cbv zeta in H. destruct H as (H1 & H2 & H3 & H4).
  revert Ha H1 H2 H3 H4.
  generalize (snd (stepProjectile g dt p)).
  generalize (fst (stepProjectile g dt p)).
  generalize (snd (offerToFeatures (features g)
    (integrate (physics_gravity (config g) * 0.85) dt p) g)).
  generalize (offRange g (integrate (physics_gravity (config g) * 0.85) dt p)).
  generalize (integrate (physics_gravity (config g) * 0.85) dt p).
  intros p1 off consumed g' p' Ha H1 H2 H3 H4.
  destruct consumed.
  - destruct (H1 eq_refl) as (_ & Hd & _). subst p'. discriminate.
  - destruct (Rle_lt_dec (v_x (proj_pos p1)) 0) as [Hx|Hx].
    + destruct (H2 eq_refl Hx) as (Hd & _). subst p'. discriminate.
    + destruct off.
      * destruct (H3 eq_refl Hx eq_refl) as (Hd & _). subst p'. discriminate.
      * destruct (H4 eq_refl Hx eq_refl) as (Hd & _). subst p'. exact Hx.
Qed.

Lemma stepProjectiles_survivors dt ps :
  forall g,
    Forall in_flight (filter proj_active (snd (stepProjectiles g dt ps))).
Proof.
  induction ps as [|p rest IH]; intros g; simpl; [constructor|].
  pose proof (stepProjectile_survivor g dt p) as H1.
  destruct (stepProjectile g dt p) as [g1 p1]; simpl in H1.
  specialize (IH g1).
  destruct (stepProjectiles g1 dt rest) as [g2 rest1]; simpl in *.
  destruct (proj_active p1); [constructor; auto|exact IH].
Qed.

Lemma updateProjectiles_in_flight g dt :
  Forall in_flight (projectiles (updateProjectiles g dt)).
Proof.
  unfold updateProjectiles.
  pose proof (stepProjectiles_survivors dt (projectiles g) g) as H.
  destruct (stepProjectiles g dt (projectiles g)) as [g1 ps]; exact H.
Qed.

Lemma update_in_flight g dt u :
  Forall in_flight (projectiles g) ->
  Forall in_flight (projectiles (update g dt u)).
Proof.
  intros Hg.
  pose proof (proj1 (proj2 (advance_phases g dt u))) as Hp; cbv zeta in Hp.
  pose proof (updateProjectiles_in_flight
    (updateHero (tickClock g dt) dt u) dt) as Hf.
  rewrite <- Hp in Hf.
  destruct (update_fields g dt u) as [->|(_ & _ & _ & _ & -> & _)];
    [exact Hg|exact Hf].
Qed.

Lemma applyOp_in_flight g op :
  v_x (hero_pos (hero g)) = 3.1 ->
  Forall in_flight (projectiles g) ->
  Forall in_flight (projectiles (applyOp g op)).
Proof.
  intros Hx Hg; destruct op as [u|amount|dt u]; cbn [applyOp].
  - destruct (fst (throwPlatform g u)) eqn:Hf.
    + rewrite (throwPlatform_accepted g u Hf).
      cbn [projectiles set_promptTimer set_lastThrowAt set_platformsLeft
           set_projectiles].
      apply Forall_app; split; [exact Hg|].
      constructor; [|constructor].
      split; [reflexivity|]. cbn [proj_pos v_x]. rewrite Hx. lra.
    + rewrite (throwPlatform_refused g u Hf). exact Hg.
  - exact Hg.
  - apply update_in_flight; exact Hg.
Qed.

(** X6.  Every projectile of the list is in flight: from [resetGame] on,
    for every run, each projectile in [projectiles] is active and strictly
    to the right of the wall ([pos.x > 0]); the projectiles that a feature
    consumed, that reached the wall or that left the tracked window are no
    longer in the list after the tick that ended them. *)
Theorem projectiles_are_in_flight (g : Game) (ops : list Op) :
  Forall in_flight (projectiles (run (resetGame g) ops)).
Proof.
  unfold run.
  assert (H0 : v_x (hero_pos (hero (resetGame g))) = 3.1 /\
               v_x (hero_vel (hero (resetGame g))) = 0 /\
               heroGroundY (resetGame g)
                 <= v_y (hero_pos (hero (resetGame g))) /\
               0 <= hero_squish (hero (resetGame g)))
    by (cbn; repeat split; lra).
  assert (P0 : Forall in_flight (projectiles (resetGame g))) by constructor.
  revert H0 P0; generalize (resetGame g); clear g.
  induction ops as [|op ops IH]; intros g H0 P0; cbn [fold_left]; [exact P0|].
  apply IH.
  - destruct (applyOp_hero g op H0) as (Hg' & Hx & Hv & Hy & Hs).
    rewrite Hg'. auto.
  - apply applyOp_in_flight; [apply H0|exact P0].
Qed.

(* ================================================================== *)
(** ** Platforms stay *)

Lemma stepProjectile_platforms g dt p :
  exists added,
    platforms (fst (stepProjectile g dt p)) = platforms g ++ added /\
    Forall (fun q => 0 <= plat_y q) added.
Proof.
  unfold stepProjectile.
  destruct (negb _); [exists []; rewrite app_nil_r; split; [reflexivity|constructor]|].
  cbv zeta.
  pose proof (offerToFeatures_only_budget (features g)
    (integrate (physics_gravity (config g) * 0.85) dt p) g) as Ho.
  destruct (offerToFeatures _ _ g) as [[fs g1] consumed]; simpl in Ho.
  apply only_budget_platforms in Ho.
  assert (Hsame : exists added,
            platforms (set_features g1 fs) = platforms g ++ added /\
            Forall (fun q => 0 <= plat_y q) added).
  { exists []; rewrite app_nil_r; split; [exact Ho|constructor]. }
  destruct consumed; [exact Hsame|].
  destruct (_ <=? 0).
  - assert (Hs : exists added,
        platforms (stickToWall (set_features g1 fs)
          (integrate (physics_gravity (config g) * 0.85) dt p))
        = platforms g ++ added /\ Forall (fun q => 0 <= plat_y q) added).
    { eexists; split.
      - rewrite stickToWall_platforms. cbn [platforms set_features].
        rewrite Ho. reflexivity.
      - constructor; [cbn [plat_y]; apply Rmax_l|constructor]. }
    destruct (offRange _ _); exact Hs.
  - destruct (offRange _ _); exact Hsame.
Qed.

Lemma stepProjectiles_platforms dt ps :
  forall g, exists added,
    platforms (fst (stepProjectiles g dt ps)) = platforms g ++ added /\
    Forall (fun q => 0 <= plat_y q) added.
Proof.
  induction ps as [|p rest IH]; intros g; simpl.
  { exists []; rewrite app_nil_r; split; [reflexivity|constructor]. }
  destruct (stepProjectile_platforms g dt p) as (a1 & H1 & F1).
  destruct (stepProjectile g dt p) as [g1 p1]; simpl in H1.
  destruct (IH g1) as (a2 & H2 & F2).
  destruct (stepProjectiles g1 dt rest) as [g2 rest1]; simpl in *.
  exists (a1 ++ a2); split.
  - rewrite H2, H1, app_assoc; reflexivity.
  - apply Forall_app; split; assumption.
Qed.

Lemma updateProjectiles_platforms g dt :
  exists added,
    platforms (updateProjectiles g dt) = platforms g ++ added /\
    Forall (fun q => 0 <= plat_y q) added.
Proof.
  unfold updateProjectiles.
  destruct (stepProjectiles_platforms dt (projectiles g) g) as (a & H & F).
  destruct (stepProjectiles g dt (projectiles g)) as [g1 ps]; simpl in *.
  exists a; split; assumption.
Qed.

Lemma applyOp_platforms g op :
  exists added,
    platforms (applyOp g op) = platforms g ++ added /\
    Forall (fun q => 0 <= plat_y q) added.
Proof.
  assert (Hnone : exists added : list Platform,
            platforms g = platforms g ++ added /\
            Forall (fun q => 0 <= plat_y q) added).
  { exists []; rewrite app_nil_r; split; [reflexivity|constructor]. }
  destruct op as [u|amount|dt u]; cbn [applyOp].
  - destruct (throwPlatform_stage g u) as (_ & _ & _ & _ & ->). exact Hnone.
  - exact Hnone.
  - pose proof (proj1 (advance_phases g dt u)) as Hp; cbv zeta in Hp.
    destruct (updateProjectiles_platforms
      (updateHero (tickClock g dt) dt u) dt) as (a & Ha & Fa).
    rewrite <- Hp in Ha.
    change (platforms (updateHero (tickClock g dt) dt u))
      with (platforms g) in Ha.
    destruct (update_fields g dt u) as [->|(_ & _ & _ & -> & _)];
      [exact Hnone|exists a; split; assumption].
Qed.

(** X7.  Platforms are never removed, moved or reordered: after any run
    from any game the list of platforms is the old list followed by the
    platforms that stuck during the run, and each of these is at a height
    [>= 0] (a projectile that crosses the wall below the ground sticks at
    height 0). *)
Theorem platforms_only_grow (g : Game) (ops : list Op) :
  exists added,
    platforms (run g ops) = platforms g ++ added /\
    Forall (fun q => 0 <= plat_y q) added.
Proof.
  unfold run; revert g.
  induction ops as [|op ops IH]; intros g; cbn [fold_left].
  { exists []; rewrite app_nil_r; split; [reflexivity|constructor]. }
  destruct (applyOp_platforms g op) as (a1 & H1 & F1).
  destruct (IH (applyOp g op)) as (a2 & H2 & F2).
  exists (a1 ++ a2); split.
  - rewrite H2, H1, app_assoc; reflexivity.
  - apply Forall_app; split; assumption.
Qed.

(* ================================================================== *)
(** ** The budget stays under the configured count *)

Lemma crawler_onProjectile_cap c p g :
  (platformsLeft g <= platform_count (config g))%Z ->
  (platformsLeft (snd (fst (crawler_onProjectile c p g)))
   <= platform_count (config g))%Z.
Proof.
  intros Hc; unfold crawler_onProjectile.
  destruct (negb _); [exact Hc|].
  destruct (_ <=? _); cbn [fst snd]; [|exact Hc].
  unfold addPlatforms; cbn [platformsLeft set_platformsLeft].
  apply Z.le_min_l.
Qed.

Lemma offerToFeatures_cap fs p :
  forall g,
    (platformsLeft g <= platform_count (config g))%Z ->
    (platformsLeft (snd (fst (offerToFeatures fs p g)))
     <= platform_count (config g))%Z.
Proof.
  induction fs as [|f rest IH]; intros g Hc; simpl; [exact Hc|].
  destruct f as [c]; cbn [feature_onProjectile].
  pose proof (crawler_onProjectile_cap c p g Hc) as H1.
  pose proof (crawler_onProjectile_only_budget c p g) as B1.
  destruct (crawler_onProjectile c p g) as [[c1 g1] hit]; simpl in H1, B1.
  pose proof (proj1 (only_budget_frame _ _ B1)) as C1.
  destruct hit; cbn [fst snd]; [exact H1|].
  rewrite <- C1 in H1. specialize (IH g1 H1).
  destruct (offerToFeatures rest p g1) as [[rest1 g2] c']; simpl in *.
  rewrite <- C1. exact IH.
Qed.

Lemma stepProjectile_cap g dt p :
  (platformsLeft g <= platform_count (config g))%Z ->
  (platformsLeft (fst (stepProjectile g dt p)) <= platform_count (config g))%Z.
Proof.
  intros Hc; unfold stepProjectile.
  destruct (negb _); [exact Hc|].
  cbv zeta.
  pose proof (offerToFeatures_cap (features g)
    (integrate (physics_gravity (config g) * 0.85) dt p) g Hc) as Ho.
  destruct (offerToFeatures _ _ g) as [[fs g1] consumed]; simpl in Ho.
  destruct consumed; [exact Ho|].
  destruct (_ <=? 0).
  - assert (Hs : (platformsLeft (stickToWall (set_features g1 fs)
        (integrate (physics_gravity (config g) * 0.85) dt p))
        <= platform_count (config g))%Z)
      by (rewrite stickToWall_budget; exact Ho).
    destruct (offRange _ _); exact Hs.
  - destruct (offRange _ _); exact Ho.
Qed.

Lemma stepProjectiles_cap dt ps :
  forall g,
    (platformsLeft g <= platform_count (config g))%Z ->
    (platformsLeft (fst (stepProjectiles g dt ps))
     <= platform_count (config g))%Z.
Proof.
  induction ps as [|p rest IH]; intros g Hc; simpl; [exact Hc|].
  pose proof (stepProjectile_cap g dt p Hc) as H1.
  pose proof (proj1 (stepProjectile_frame g dt p)) as C1.
  destruct (stepProjectile g dt p) as [g1 p1]; simpl in H1, C1.
  rewrite <- C1 in H1. specialize (IH g1 H1).
  destruct (stepProjectiles g1 dt rest) as [g2 rest1]; simpl in *.
  rewrite <- C1. exact IH.
Qed.

Lemma updateProjectiles_cap g dt :
  (platformsLeft g <= platform_count (config g))%Z ->
  (platformsLeft (updateProjectiles g dt) <= platform_count (config g))%Z.
Proof.
  intros Hc; unfold updateProjectiles.
  pose proof (stepProjectiles_cap dt (projectiles g) g Hc) as H.
  destruct (stepProjectiles g dt (projectiles g)) as [g1 ps]; exact H.
Qed.

Lemma applyOp_cap g op :
  (platformsLeft g <= platform_count (config g))%Z ->
  (platformsLeft (applyOp g op) <= platform_count (config g))%Z.
Proof.
  intros Hc; destruct op as [u|amount|dt u]; cbn [applyOp].
  - destruct (fst (throwPlatform g u)) eqn:Hf.
    + rewrite (throwPlatform_accepted g u Hf).
      cbn [platformsLeft set_promptTimer set_lastThrowAt set_platformsLeft].
      lia.
    + rewrite (throwPlatform_refused g u Hf). exact Hc.
  - unfold addPlatforms; cbn [platformsLeft set_platformsLeft].
    apply Z.le_min_l.
  - pose proof (proj1 (proj2 (proj2 (advance_phases g dt u)))) as Hp;
      cbv zeta in Hp.
    pose proof (updateProjectiles_cap
      (updateHero (tickClock g dt) dt u) dt Hc) as Ha.
    rewrite <- Hp in Ha.
    change (config (updateHero (tickClock g dt) dt u)) with (config g) in Ha.
    destruct (update_fields g dt u) as [->|(_ & _ & _ & _ & _ & -> & _)];
      [exact Hc|exact Ha].
Qed.

(** X8.  The budget never exceeds the configured count: from [resetGame]
    on, for every run (throws, ticks with their crawler hits, and grants
    of any amount, negative ones included) [platformsLeft <=
    config.platform.count]. *)
Theorem budget_never_exceeds_count (g : Game) (ops : list Op) :
  (platformsLeft (run (resetGame g) ops) <= platform_count (config g))%Z.
Proof.
  assert (H0 : (platformsLeft (resetGame g)
                <= platform_count (config (resetGame g)))%Z)
    by (cbn; lia).
  change (platform_count (config g))
    with (platform_count (config (resetGame g))).
  revert H0; generalize (resetGame g); clear g; intros g.
  unfold run; revert g.
  induction ops as [|op ops IH]; intros g Hc; cbn [fold_left]; [exact Hc|].
  rewrite <- (applyOp_config g op).
  apply IH. rewrite applyOp_config. apply applyOp_cap, Hc.
Qed.

(* ================================================================== *)
(** ** The human stands on platforms *)

Lemma stands_at_app ps added y : stands_at ps y -> stands_at (ps ++ added) y.
Proof.
  intros (p & Hin & Hy); exists p; split; [apply in_or_app; auto|exact Hy].
Qed.

Lemma grounded_app thr ps added h :
  grounded thr ps h -> grounded thr (ps ++ added) h.
Proof.
  unfold grounded; destruct (hum_state h).
  - apply stands_at_app.
  - intros (H1 & H2 & H3 & H4); repeat split; auto using stands_at_app.
  - apply stands_at_app.
Qed.

Lemma human_grounded_ext g g' :
  config g' = config g -> platforms g' = platforms g -> human g' = human g ->
  human_grounded g -> human_grounded g'.
Proof. unfold human_grounded; intros -> -> ->; exact (fun H => H). Qed.

Lemma findReachablePlatform_best g :
  best_of (hum_y (human g)) (human_jumpThreshold (config g)) (platforms g)
    (findReachablePlatform g).
Proof.
  unfold findReachablePlatform.
  apply (findReachableFrom_best _ _ (platforms g) [] None).
  intros q [].
Qed.

Lemma attemptHumanJump_grounded g :
  human_grounded g -> human_grounded (snd (attemptHumanJump g)).
Proof.
  unfold human_grounded, attemptHumanJump; intros Hg.
  destruct (HumanState_eqb (hum_state (human g)) jumping) eqn:Hs; [exact Hg|].
  pose proof (findReachablePlatform_best g) as Hb.
  destruct (findReachablePlatform g) as [target|]; [|exact Hg].
  destruct Hb as (Hin & (Hlt & Hle) & _).
  cbn [snd config platforms human set_human].
  unfold grounded in *; cbn [hum_state hum_jumpStart hum_jumpTarget].
  repeat split; [|exists target; split; [exact Hin|reflexivity]|exact Hlt|exact Hle].
  destruct (hum_state (human g)); [exact Hg|discriminate Hs|exact Hg].
Qed.

Lemma handlePlatformPlacement_grounded g y :
  human_grounded g -> human_grounded (handlePlatformPlacement g y).
Proof.
  intros Hg; unfold handlePlatformPlacement.
  destruct (HumanState_eqb (hum_state (human g)) jumping) eqn:Hs; [exact Hg|].
  pose proof (attemptHumanJump_grounded g Hg) as Ha.
  pose proof (attemptHumanJump_only_human g) as Ho.
  assert (Hn : fst (attemptHumanJump g) = false ->
               human (snd (attemptHumanJump g)) = human g).
  { unfold attemptHumanJump. rewrite Hs.
    destruct (findReachablePlatform g); [discriminate|reflexivity]. }
  destruct (attemptHumanJump g) as [jumped g1]; cbn [fst snd] in *.
  destruct jumped; [exact Ha|].
  specialize (Hn eq_refl).
  unfold human_grounded in *.
  rewrite (only_human_platforms _ _ Ho), (proj1 (only_human_frame _ _ Ho)) in *.
  cbn [config platforms human set_human].
  rewrite (only_human_platforms _ _ Ho), (proj1 (only_human_frame _ _ Ho)).
  rewrite Hn in *.
  unfold grounded in *; cbn [hum_state hum_y].
  destruct (hum_state (human g)); [exact Hg|discriminate Hs|exact Hg].
Qed.

Lemma stickToWall_grounded g p :
  human_grounded g -> human_grounded (stickToWall g p).
Proof.
  intros Hg; unfold stickToWall; cbv zeta.
  apply handlePlatformPlacement_grounded.
  unfold human_grounded in *; cbn [config platforms human set_platforms].
  apply grounded_app, Hg.
Qed.

Lemma only_budget_grounded g g' :
  only_budget g g' -> human_grounded g -> human_grounded g'.
Proof. unfold only_budget; intros ->; exact (fun H => H). Qed.

Lemma stepProjectile_grounded g dt p :
  human_grounded g -> human_grounded (fst (stepProjectile g dt p)).
Proof.
  intros Hg; unfold stepProjectile.
  destruct (negb _); [exact Hg|].
  cbv zeta.
  pose proof (offerToFeatures_only_budget (features g)
    (integrate (physics_gravity (config g) * 0.85) dt p) g) as Ho.
  destruct (offerToFeatures _ _ g) as [[fs g1] consumed]; simpl in Ho.
  assert (Hf : human_grounded (set_features g1 fs))
    by exact (only_budget_grounded _ _ Ho Hg).
  destruct consumed; [exact Hf|].
  destruct (_ <=? 0).
  - pose proof (stickToWall_grounded (set_features g1 fs)
      (integrate (physics_gravity (config g) * 0.85) dt p) Hf) as Hs.
    destruct (offRange _ _); exact Hs.
  - destruct (offRange _ _); exact Hf.
Qed.

Lemma stepProjectiles_grounded dt ps :
  forall g, human_grounded g -> human_grounded (fst (stepProjectiles g dt ps)).
Proof.
  induction ps as [|p rest IH]; intros g Hg; simpl; [exact Hg|].
  pose proof (stepProjectile_grounded g dt p Hg) as H1.
  destruct (stepProjectile g dt p) as [g1 p1]; simpl in H1.
  specialize (IH g1 H1).
  destruct (stepProjectiles g1 dt rest) as [g2 rest1]; exact IH.
Qed.

Lemma updateProjectiles_grounded g dt :
  human_grounded g -> human_grounded (updateProjectiles g dt).
Proof.
  intros Hg; unfold updateProjectiles.
  pose proof (stepProjectiles_grounded dt (projectiles g) g Hg) as H.
  destruct (stepProjectiles g dt (projectiles g)) as [g1 ps]; exact H.
Qed.

Lemma advanceHumanJump_grounded g dt :
  hum_state (human g) = jumping ->
  human_grounded g -> human_grounded (advanceHumanJump g dt).
Proof.
  unfold human_grounded, grounded; intros Hs Hg; rewrite Hs in Hg.
  destruct Hg as (H1 & H2 & H3 & H4).
  unfold advanceHumanJump; cbv zeta.
  destruct (negb _); destruct (1 <=? _);
    cbn [config platforms human set_human hum_state hum_y hum_jumpStart
         hum_jumpTarget];
    try exact H2; rewrite Hs; auto.
Qed.

Lemma humanJumpingStep_grounded g dt :
  human_grounded g -> human_grounded (humanJumpingStep g dt).
Proof.
  intros Hg; unfold humanJumpingStep.
  destruct (HumanState_eqb (hum_state (human g)) jumping) eqn:Hs; [|exact Hg].
  apply HumanState_eqb_eq in Hs.
  assert (Hkeep : forall ph pt jt,
    human_grounded (set_human g
      (mkHuman (hum_jumpStart (human g)) (hum_state (human g)) ph pt
         (hum_jumpStart (human g)) (hum_jumpTarget (human g)) jt
         (hum_worryTime (human g))))).
  { intros ph pt jt. unfold human_grounded, grounded in *.
    cbn [config platforms human set_human hum_state hum_jumpStart
         hum_jumpTarget].
    rewrite Hs in *. exact Hg. }
  cbv zeta.
  destruct (HumanJumpPhase_eqb _ _);
    [|apply advanceHumanJump_grounded; assumption].
  destruct (_ <=? _); [|apply Hkeep].
  destruct (0 <? _); [|apply Hkeep].
  apply advanceHumanJump_grounded; [exact Hs|apply Hkeep].
Qed.

Lemma humanWorryStep_grounded g dt :
  human_grounded g -> human_grounded (humanWorryStep g dt).
Proof.
  intros Hg; unfold humanWorryStep.
  destruct (HumanState_eqb (hum_state (human g)) worry) eqn:Hs; [|exact Hg].
  apply HumanState_eqb_eq in Hs.
  unfold human_grounded, grounded in *; cbv zeta.
  cbn [config platforms human set_human hum_state hum_y].
  rewrite Hs in *.
  destruct (_ <=? 0); exact Hg.
Qed.

Lemma humanIdleStep_grounded g :
  human_grounded g -> human_grounded (humanIdleStep g).
Proof.
  intros Hg; unfold humanIdleStep.
  destruct (HumanState_eqb _ _); [apply attemptHumanJump_grounded|]; exact Hg.
Qed.

Lemma updateHuman_grounded g dt :
  human_grounded g -> human_grounded (updateHuman g dt).
Proof.
  intros Hg; unfold updateHuman.
  apply humanIdleStep_grounded, humanWorryStep_grounded,
    humanJumpingStep_grounded, Hg.
Qed.

Lemma advance_grounded g dt u :
  human_grounded g -> human_grounded (advance g dt u).
Proof.
  intros Hg.
  pose proof (advance_phases g dt u) as Hp; cbv zeta in Hp.
  destruct Hp as (Hpl & _ & _ & Hh & Hpl4).
  assert (H2 : human_grounded (updateHero (tickClock g dt) dt u)) by exact Hg.
  pose proof (updateHuman_grounded _ dt
    (updateProjectiles_grounded _ dt H2)) as H4.
  revert H4; apply human_grounded_ext.
  - rewrite advance_config.
    rewrite (proj1 (only_human_frame _ _ (updateHuman_only_human _ dt))).
    rewrite (proj1 (updateProjectiles_frame _ dt)). reflexivity.
  - rewrite Hpl, Hpl4; reflexivity.
  - exact Hh.
Qed.

Lemma applyOp_grounded g op :
  human_grounded g -> human_grounded (applyOp g op).
Proof.
  intros Hg; destruct op as [u|amount|dt u]; cbn [applyOp].
  - destruct (throwPlatform_stage g u) as (_ & _ & _ & Hh & Hp).
    exact (human_grounded_ext g _ (throwPlatform_config g u) Hp Hh Hg).
  - exact Hg.
  - pose proof (advance_grounded g dt u Hg) as Ha.
    destruct (update_fields g dt u)
      as [->|(_ & _ & _ & Hp & _ & _ & Hh & _)]; [exact Hg|].
    apply (human_grounded_ext (advance g dt u)); [|exact Hp|exact Hh|exact Ha].
    rewrite update_config, advance_config; reflexivity.
Qed.

(** X9.  The human is never in mid-air without a platform under or ahead
    of it: from [resetGame] on, for every run, a human that is idle or
    worried stands at the height of a platform of the list, and a jumping
    human has left the height of one platform for the height of another
    one that is strictly higher and at most [jumpThreshold] higher. *)
Theorem human_stands_on_platforms (g : Game) (ops : list Op) :
  human_grounded (run (resetGame g) ops).
Proof.
  assert (H0 : human_grounded (resetGame g)).
  { unfold human_grounded, grounded; cbn.
    eexists; split; [left; reflexivity|reflexivity]. }
  revert H0; generalize (resetGame g); clear g; intros g.
  unfold run; revert g.
  induction ops as [|op ops IH]; intros g Hg; cbn [fold_left]; [exact Hg|].
  apply IH, applyOp_grounded, Hg.
Qed.

(* ================================================================== *)
(** ** The height of the human during a jump *)

Lemma lerp_bounds a b t : a <= b -> 0 <= t <= 1 -> a <= lerp a b t <= b.
Proof. intros Hab [H0 H1]; unfold lerp; split; nra. Qed.

Lemma advanceHumanJump_height g dt :
  hum_jumpStart (human g) <= hum_jumpTarget (human g) ->
  0 <= human_jumpArc (config g) ->
  hum_jumpStart (human g) <= hum_y (human (advanceHumanJump g dt))
    <= hum_jumpTarget (human g) + human_jumpArc (config g).
Proof.
  intros Hst Harc; unfold advanceHumanJump; cbv zeta.
  pose proof (clamp_unit
    ((hum_jumpTime (human g) + dt) / human_jumpDuration (config g))) as Ht.
  revert Ht; generalize (clamp
    ((hum_jumpTime (human g) + dt) / human_jumpDuration (config g)) 0 1).
  intros t Ht.
  destruct (negb _); destruct (1 <=? t);
    cbn [human set_human hum_y]; try lra.
  all: pose proof (lerp_bounds _ _ _ Hst (easeInOut_unit t Ht)) as Hl;
       assert (Hsin : 0 <= sin (t * PI) <= 1)
         by (split; [apply sin_ge_0; pose proof PI_RGT_0; nra
                    |apply SIN_bound]);
       revert Hl Hsin;
       generalize (lerp (hum_jumpStart (human g)) (hum_jumpTarget (human g))
                     (easeInOut t));
       generalize (sin (t * PI)); intros s l Hl Hsin; nra.
Qed.



Lemma throw_launches_an_arc_witness :
  exists p,
    projectiles (snd (throwPlatform atFirstThrow 0.5)) =
      projectiles atFirstThrow ++ [p] /\
    proj_active p = true /\
    proj_age p = 0 /\
    proj_pos p = mkVec2 (v_x (hero_pos (hero atFirstThrow)) - 0.2)
                        (v_y (hero_pos (hero atFirstThrow)) + 0.6) /\
    v_x (proj_vel p) = - throwing_speed (config atFirstThrow) /\
    0 < v_y (proj_vel p) /\
    v_y (proj_pos p) + 0.35
      <= apexOf (v_y (proj_pos p)) (v_y (proj_vel p))
           (physics_gravity (config atFirstThrow) * 0.85)
      < v_y (proj_pos p) + 0.75.
Proof.
  apply (throw_launches_an_arc atFirstThrow 0.5).
  - apply throwPlatform_guards.
    split; [reflexivity|]. split; [cbn; lia|cbn; lra].
  - lra.
  - cbn; lra.
Defined.

(* ================================================================== *)
(** ** The score and the platforms *)

Lemma within_arc_ext g g' :
  config g' = config g -> human g' = human g -> within_arc g -> within_arc g'.
Proof. unfold within_arc; intros -> ->; exact (fun H => H). Qed.

Lemma attemptHumanJump_within_arc g :
  0 <= human_jumpArc (config g) ->
  within_arc g -> within_arc (snd (attemptHumanJump g)).
Proof.
  intros Harc Hg; unfold attemptHumanJump.
  destruct (HumanState_eqb (hum_state (human g)) jumping); [exact Hg|].
  pose proof (findReachablePlatform_best g) as Hb.
  destruct (findReachablePlatform g) as [target|]; [|exact Hg].
  destruct Hb as (_ & (Hlt & _) & _).
  unfold within_arc; cbn [snd config human set_human hum_state hum_y
                          hum_jumpTarget].
  intros _; lra.
Qed.

Lemma handlePlatformPlacement_within_arc g y :
  0 <= human_jumpArc (config g) ->
  within_arc g -> within_arc (handlePlatformPlacement g y).
Proof.
  intros Harc Hg; unfold handlePlatformPlacement.
  destruct (HumanState_eqb (hum_state (human g)) jumping); [exact Hg|].
  pose proof (attemptHumanJump_within_arc g Harc Hg) as Ha.
  destruct (attemptHumanJump g) as [jumped g1]; cbn [snd] in Ha.
  destruct jumped; [exact Ha|].
  unfold within_arc; cbn [human set_human hum_state]. discriminate.
Qed.

Lemma stickToWall_within_arc g p :
  0 <= human_jumpArc (config g) ->
  within_arc g -> within_arc (stickToWall g p).
Proof.
  intros Harc Hg; unfold stickToWall; cbv zeta.
  apply handlePlatformPlacement_within_arc; assumption.
Qed.

Lemma stepProjectile_within_arc g dt p :
  0 <= human_jumpArc (config g) ->
  within_arc g -> within_arc (fst (stepProjectile g dt p)).
Proof.
  intros Harc Hg; unfold stepProjectile.
  destruct (negb _); [exact Hg|].
  cbv zeta.
  pose proof (offerToFeatures_only_budget (features g)
    (integrate (physics_gravity (config g) * 0.85) dt p) g) as Ho.
  destruct (offerToFeatures _ _ g) as [[fs g1] consumed]; simpl in Ho.
  assert (Hc : config (set_features g1 fs) = config g)
    by (unfold only_budget in Ho; rewrite Ho; reflexivity).
  assert (Hf : within_arc (set_features g1 fs))
    by (unfold only_budget in Ho; rewrite Ho; exact Hg).
  destruct consumed; [exact Hf|].
  destruct (_ <=? 0).
  - assert (Hs : within_arc (stickToWall (set_features g1 fs)
        (integrate (physics_gravity (config g) * 0.85) dt p)))
      by (apply stickToWall_within_arc; [rewrite Hc; exact Harc|exact Hf]).
    destruct (offRange _ _); exact Hs.
  - destruct (offRange _ _); exact Hf.
Qed.

Lemma stepProjectiles_within_arc dt ps :
  forall g,
    0 <= human_jumpArc (config g) ->
    within_arc g -> within_arc (fst (stepProjectiles g dt ps)).
Proof.
  induction ps as [|p rest IH]; intros g Harc Hg; simpl; [exact Hg|].
  pose proof (stepProjectile_within_arc g dt p Harc Hg) as H1.
  pose proof (proj1 (stepProjectile_frame g dt p)) as C1.
  destruct (stepProjectile g dt p) as [g1 p1]; simpl in H1, C1.
  rewrite <- C1 in Harc. specialize (IH g1 Harc H1).
  destruct (stepProjectiles g1 dt rest) as [g2 rest1]; exact IH.
Qed.

Lemma updateProjectiles_within_arc g dt :
  0 <= human_jumpArc (config g) ->
  within_arc g -> within_arc (updateProjectiles g dt).
Proof.
  intros Harc Hg; unfold updateProjectiles.
  pose proof (stepProjectiles_within_arc dt (projectiles g) g Harc Hg) as H.
  destruct (stepProjectiles g dt (projectiles g)) as [g1 ps]; exact H.
Qed.

Lemma humanJumpingStep_within_arc g dt :
  0 <= human_jumpArc (config g) ->
  human_grounded g ->
  within_arc g -> within_arc (humanJumpingStep g dt).
Proof.
  intros Harc Hgr Hg.
  destruct (hum_state (human g)) eqn:Hs.
  1,3: unfold humanJumpingStep; rewrite Hs; exact Hg.
  assert (Hst : hum_jumpStart (human g) <= hum_jumpTarget (human g)).
  { unfold human_grounded, grounded in Hgr. rewrite Hs in Hgr.
    destruct Hgr as (_ & _ & Hlt & _). lra. }
  assert (Hadv : forall g1 d,
            config g1 = config g ->
            hum_jumpStart (human g1) = hum_jumpStart (human g) ->
            hum_jumpTarget (human g1) = hum_jumpTarget (human g) ->
            within_arc (advanceHumanJump g1 d)).
  { intros g1 d Hc H1 H2.
    assert (Hst1 : hum_jumpStart (human g1) <= hum_jumpTarget (human g1))
      by (rewrite H1, H2; exact Hst).
    assert (Harc1 : 0 <= human_jumpArc (config g1))
      by (rewrite Hc; exact Harc).
    pose proof (advanceHumanJump_height g1 d Hst1 Harc1) as (_ & Hy).
    pose proof (advanceHumanJump_only_human g1 d) as Ho.
    assert (Ht : hum_jumpTarget (human (advanceHumanJump g1 d))
                 = hum_jumpTarget (human g1)).
    { unfold advanceHumanJump; cbv zeta.
      destruct (negb _); destruct (1 <=? _); reflexivity. }
    unfold within_arc.
    rewrite (proj1 (only_human_frame _ _ Ho)), Ht. intros _; exact Hy. }
  unfold humanJumpingStep. rewrite Hs; cbn [HumanState_eqb]; cbv zeta.
  destruct (HumanJumpPhase_eqb _ _); [|apply Hadv; reflexivity].
  destruct (_ <=? _).
  - destruct (0 <? _); [apply Hadv; reflexivity|].
    unfold within_arc; cbn [human set_human hum_y hum_jumpTarget config].
    intros _; lra.
  - unfold within_arc; cbn [human set_human hum_y hum_jumpTarget config].
    intros _; lra.
Qed.

Lemma humanWorryStep_within_arc g dt :
  within_arc g -> within_arc (humanWorryStep g dt).
Proof.
  intros Hg; unfold humanWorryStep.
  destruct (HumanState_eqb (hum_state (human g)) worry) eqn:Hs; [|exact Hg].
  apply HumanState_eqb_eq in Hs.
  unfold within_arc; cbv zeta; cbn [human set_human hum_state].
  rewrite Hs. destruct (_ <=? 0); discriminate.
Qed.

Lemma updateHuman_within_arc g dt :
  0 <= human_jumpArc (config g) ->
  human_grounded g ->
  within_arc g -> within_arc (updateHuman g dt).
Proof.
  intros Harc Hgr Hg; unfold updateHuman.
  pose proof (humanJumpingStep_within_arc g dt Harc Hgr Hg) as H1.
  pose proof (proj1 (only_human_frame _ _ (humanJumpingStep_only_human g dt)))
    as C1.
  revert H1 C1; generalize (humanJumpingStep g dt); intros g1 H1 C1.
  pose proof (humanWorryStep_within_arc g1 dt H1) as H2.
  pose proof (proj1 (only_human_frame _ _ (humanWorryStep_only_human g1 dt)))
    as C2.
  revert H2 C2; generalize (humanWorryStep g1 dt); intros g2 H2 C2.
  unfold humanIdleStep.
  destruct (HumanState_eqb _ _); [|exact H2].
  apply attemptHumanJump_within_arc; [|exact H2].
  rewrite C2, C1; exact Harc.
Qed.

Lemma advance_within_arc g dt u :
  0 <= human_jumpArc (config g) ->
  human_grounded g ->
  within_arc g -> within_arc (advance g dt u).
Proof.
  intros Harc Hgr Hg.
  pose proof (advance_phases g dt u) as Hp; cbv zeta in Hp.
  destruct Hp as (_ & _ & _ & Hh & _).
  set (g2 := updateHero (tickClock g dt) dt u) in *.
  assert (H2 : within_arc g2) by exact Hg.
  assert (G2 : human_grounded g2) by exact Hgr.
  assert (A2 : 0 <= human_jumpArc (config g2)) by exact Harc.
  pose proof (updateProjectiles_within_arc g2 dt A2 H2) as H3.
  pose proof (updateProjectiles_grounded g2 dt G2) as G3.
  pose proof (proj1 (updateProjectiles_frame g2 dt)) as C3.
  assert (A3 : 0 <= human_jumpArc (config (updateProjectiles g2 dt)))
    by (rewrite C3; exact A2).
  pose proof (updateHuman_within_arc _ dt A3 G3 H3) as H4.
  revert H4; apply within_arc_ext; [|exact Hh].
  rewrite advance_config.
  rewrite (proj1 (only_human_frame _ _ (updateHuman_only_human _ dt))).
  rewrite C3. reflexivity.
Qed.

(** A human that is grounded and within the arc is near a platform. *)
Lemma human_near_a_platform g :
  0 <= human_jumpArc (config g) ->
  human_grounded g -> within_arc g ->
  near_a_platform g (hum_y (human g)).
Proof.
  unfold human_grounded, grounded, within_arc, near_a_platform.
  intros Harc Hgr Hw.
  destruct (hum_state (human g)).
  - destruct Hgr as (p & Hin & Hy). exists p; split; [exact Hin|lra].
  - destruct Hgr as (_ & (p & Hin & Hy) & _).
    exists p; split; [exact Hin|]. specialize (Hw eq_refl). lra.
  - destruct Hgr as (p & Hin & Hy). exists p; split; [exact Hin|lra].
Qed.

Lemma near_a_platform_ext g g' y :
  config g' = config g ->
  (exists added, platforms g' = platforms g ++ added) ->
  near_a_platform g y -> near_a_platform g' y.
Proof.
  unfold near_a_platform; intros -> (added & ->) (p & Hin & Hy).
  exists p; split; [apply in_or_app; left; exact Hin|exact Hy].
Qed.

Lemma applyOp_score_near g op :
  0 <= human_jumpArc (config g) ->
  human_grounded g -> within_arc g -> near_a_platform g (score g) ->
  within_arc (applyOp g op) /\
  near_a_platform (applyOp g op) (score (applyOp g op)).
Proof.
  intros Harc Hgr Hw Hs.
  destruct op as [u|amount|dt u]; cbn [applyOp].
  - destruct (throwPlatform_stage g u) as (_ & _ & _ & Hh & Hp).
    pose proof (throwPlatform_config g u) as Hc.
    split; [exact (within_arc_ext g _ Hc Hh Hw)|].
    rewrite throwPlatform_score.
    apply (near_a_platform_ext g); [exact Hc| |exact Hs].
    exists []; rewrite app_nil_r; exact Hp.
  - split; [exact Hw|exact Hs].
  - destruct (update_fields g dt u)
      as [->|(_ & _ & _ & Hp & _ & _ & Hh & _ & Hsc)];
      [split; assumption|].
    pose proof (advance_within_arc g dt u Harc Hgr Hw) as Hw'.
    pose proof (advance_grounded g dt u Hgr) as Hgr'.
    pose proof (advance_config g dt u) as Hc'.
    assert (Hc : config (update g dt u) = config (advance g dt u))
      by (rewrite update_config, advance_config; reflexivity).
    assert (Harc' : 0 <= human_jumpArc (config (advance g dt u)))
      by (rewrite Hc'; exact Harc).
    pose proof (human_near_a_platform _ Harc' Hgr' Hw') as Hn.
    assert (Hgrow : exists added,
              platforms (advance g dt u) = platforms g ++ added).
    { pose proof (proj1 (advance_phases g dt u)) as Hpl; cbv zeta in Hpl.
      destruct (updateProjectiles_platforms
        (updateHero (tickClock g dt) dt u) dt) as (a & Ha & _).
      exists a. rewrite Hpl. exact Ha. }
    pose proof (near_a_platform_ext g (advance g dt u) (score g) Hc' Hgrow Hs)
      as Hold.
    pose proof (advance_score g dt u) as Hsc'.
    split; [exact (within_arc_ext _ _ Hc Hh Hw')|].
    rewrite Hsc, Hsc'.
    apply (near_a_platform_ext (advance g dt u));
      [exact Hc|exists []; rewrite app_nil_r; exact Hp|].
    revert Hold Hn.
    generalize (hum_y (human (advance g dt u))).
    generalize (advance g dt u); intros g1 y Hold Hn.
    unfold Rmax; destruct (Rle_dec (score g) y); assumption.
Qed.

(** X11.  The score stays near the platforms.  From [resetGame] on, with
    [jumpArc >= 0] and [jumpThreshold >= 0], for every run some platform
    of the list is less than [jumpArc] below the score:
    [score <= platform.y + jumpArc].  The score is the highest point the
    human has reached, and the arc of a jump carries the human above the
    platform it lands on, by [jumpArc] at most. *)
Theorem score_stays_near_the_platforms (g : Game) (ops : list Op) :
  0 <= human_jumpArc (config g) ->
  0 <= human_jumpThreshold (config g) ->
  exists p,
    In p (platforms (run (resetGame g) ops)) /\
    score (run (resetGame g) ops) <= plat_y p + human_jumpArc (config g).
Proof.
  intros Harc Hthr.
  assert (H0 : 0 <= human_jumpArc (config (resetGame g)) /\
               human_grounded (resetGame g) /\ within_arc (resetGame g) /\
               near_a_platform (resetGame g) (score (resetGame g))).
  { split; [exact Harc|]. split; [|split].
    - unfold human_grounded, grounded; cbn.
      eexists; split; [left; reflexivity|reflexivity].
    - unfold within_arc; cbn; discriminate.
    - unfold near_a_platform; cbn.
      eexists; split; [left; reflexivity|]. cbn; lra. }
  change (human_jumpArc (config g))
    with (human_jumpArc (config (resetGame g))).
  revert H0; generalize (resetGame g); clear g Harc Hthr; intros g.
  unfold run; revert g.
  induction ops as [|op ops IH]; intros g (Harc & Hgr & Hw & Hs);
    cbn [fold_left]; [exact Hs|].
  destruct (applyOp_score_near g op Harc Hgr Hw Hs) as (Hw' & Hs').
  rewrite <- (applyOp_config g op).
  apply IH. rewrite applyOp_config.
  split; [exact Harc|]. split; [apply applyOp_grounded, Hgr|].
  split; assumption.
Qed.

(* ================================================================== *)
(** ** The bonus crawler *)

Lemma crawler_update_resting c dt g :
  features_bonusCrawler (config g) = true ->
  bc_active c = false ->
  crawler_update c dt g
  = if bc_respawnTimer c - dt <=? 0
    then mkCrawler (-2) true (bc_respawnTimer c - dt) (bc_flashTime c)
    else mkCrawler (bc_y c) false (bc_respawnTimer c - dt) (bc_flashTime c).
Proof.
  intros Hon Hact; unfold crawler_update; cbv zeta.
  rewrite Hon, Hact; cbn [negb]. reflexivity.
Qed.

Lemma crawler_frames_resting frames :
  forall c,
    bc_active c = false ->
    Forall crawler_on frames ->
    frames_time frames < bc_respawnTimer c ->
    bc_active (crawler_frames c frames) = false /\
    bc_respawnTimer (crawler_frames c frames)
    = bc_respawnTimer c - frames_time frames.
Proof.
  unfold crawler_frames.
  induction frames as [|[dt g] rest IH]; intros c Hact Hall Hlt;
    cbn [fold_left fst snd].
  { split; [exact Hact|cbn; lra]. }
  change (frames_time ((dt, g) :: rest)) with (dt + frames_time rest) in *.
  inversion Hall as [|f fs [Hon Hdt] Hrest]; subst; cbn [fst snd] in *.
  assert (Hnn : 0 <= frames_time rest).
  { clear -Hrest. induction Hrest as [|[d h] fs [_ Hd] _ IHr]; [cbn; lra|].
    change (frames_time ((d, h) :: fs)) with (d + frames_time fs).
    cbn [fst] in Hd. lra. }
  rewrite (crawler_update_resting c dt g Hon Hact).
  rewrite (proj2 (Rleb_false_iff _ 0)) by lra.
  destruct (IH (mkCrawler (bc_y c) false (bc_respawnTimer c - dt)
                  (bc_flashTime c)) eq_refl Hrest) as (Ha & Ht).
  { cbn [bc_respawnTimer]; lra. }
  split; [exact Ha|]. rewrite Ht; cbn [bc_respawnTimer]; lra.
Qed.

(** X12.  A crawler that was hit stays away for the respawn delay.  After
    a hit, while the feature is switched on and the frames (of
    non-negative [dt]) add up to less than [bonusRespawn], the crawler is
    inactive, so it declines every projectile and grants nothing; it is
    back, at height [-2], after the first frame that completes the
    delay. *)
Theorem crawler_rests_for_the_respawn_delay
    (c : BonusCrawler) (p : Projectile) (g : Game)
    (frames : list (R * Game)) (dt : R) (g' : Game) :
  snd (crawler_onProjectile c p g) = true ->
  Forall crawler_on frames ->
  crawler_on (dt, g') ->
  frames_time frames < features_bonusRespawn (config g) ->
  let c1 := crawler_frames (fst (fst (crawler_onProjectile c p g))) frames in
  bc_active c1 = false /\
  (forall q h, crawler_onProjectile c1 q h = (c1, h, false)) /\
  (features_bonusRespawn (config g) <= frames_time frames + dt ->
     bc_active (crawler_update c1 dt g') = true /\
     bc_y (crawler_update c1 dt g') = -2).
Proof.
  intros Hhit Hall [Hon Hdt] Hlt c1; cbn [fst snd] in Hon, Hdt.
  assert (Hc : fst (fst (crawler_onProjectile c p g))
               = mkCrawler (bc_y c) false (features_bonusRespawn (config g))
                   0.35).
  { revert Hhit; unfold crawler_onProjectile.
    destruct (negb _); [discriminate|]. cbv zeta.
    destruct (_ <=? _); [reflexivity|discriminate]. }
  subst c1; rewrite Hc.
  destruct (crawler_frames_resting frames
    (mkCrawler (bc_y c) false (features_bonusRespawn (config g)) 0.35)
    eq_refl Hall Hlt) as (Ha & Ht).
  cbn [bc_respawnTimer] in Ht.
  revert Ha Ht; generalize (crawler_frames
    (mkCrawler (bc_y c) false (features_bonusRespawn (config g)) 0.35) frames).
  intros c1 Ha Ht.
  split; [exact Ha|]. split.
  - intros q h. unfold crawler_onProjectile. rewrite Ha. reflexivity.
  - intros Hge. rewrite (crawler_update_resting c1 dt g' Hon Ha).
    rewrite (proj2 (Rleb_true_iff _ 0)) by lra. split; reflexivity.
Qed.

(** One iteration of the projectile loop when the crawler is the only
    feature. *)
Lemma stepProjectile_crawler g dt p c :
  features g = [BonusCrawlerFeature c] ->
  proj_active p = true ->
  let p1 := integrate (physics_gravity (config g) * 0.85) dt p in
  bc_active c && crawler_reaches c p1 = true ->
  stepProjectile g dt p
  = (set_features
       (addPlatforms g (features_bonusReward (config g)))
       [BonusCrawlerFeature
          (mkCrawler (bc_y c) false (features_bonusRespawn (config g)) 0.35)],
     deactivate p1).
Proof.
  intros Hfs Hact p1 Hhit.
  apply andb_true_iff in Hhit; destruct Hhit as [Hc Hr].
  unfold stepProjectile. rewrite Hact; cbn [negb]; cbv zeta. fold p1.
  rewrite Hfs. cbn [offerToFeatures feature_onProjectile].
  unfold crawler_onProjectile. rewrite Hc; cbn [negb]; cbv zeta.
  unfold crawler_reaches in Hr. rewrite Hr. reflexivity.
Qed.

Lemma stepProjectile_no_hit g dt p c :
  features g = [BonusCrawlerFeature c] ->
  proj_active p = true ->
  let p1 := integrate (physics_gravity (config g) * 0.85) dt p in
  bc_active c && crawler_reaches c p1 = false ->
  platformsLeft (fst (stepProjectile g dt p)) = platformsLeft g /\
  features (fst (stepProjectile g dt p)) = features g.
Proof.
  intros Hfs Hact p1 Hhit.
  assert (Ho : offerToFeatures (features g) p1 g = (features g, g, false)).
  { rewrite Hfs. cbn [offerToFeatures feature_onProjectile].
    unfold crawler_onProjectile.
    destruct (bc_active c); cbn [negb andb] in *; [|reflexivity].
    cbv zeta. unfold crawler_reaches in Hhit. rewrite Hhit. reflexivity. }
  unfold stepProjectile. rewrite Hact; cbn [negb]; cbv zeta. fold p1.
  rewrite Ho. rewrite set_features_same.
  destruct (_ <=? 0).
  - assert (Hs : platformsLeft (stickToWall g p1) = platformsLeft g /\
                 features (stickToWall g p1) = features g)
      by (split; [apply stickToWall_budget|apply stickToWall_features]).
    destruct (offRange _ _); exact Hs.
  - destruct (offRange _ _); split; reflexivity.
Qed.

(** X13.  Only a hit on the crawler changes the budget during the
    projectile pass, and a hit pays once.  With the crawler as the only
    feature, an active projectile that after its integration step is
    within 0.35 m of the active crawler (at [x = 0.25] and the crawler's
    height) is consumed: it is deactivated, no platform sticks, the human
    is not disturbed, the crawler is switched off with the respawn delay
    on its timer, and the budget becomes [min(count, platformsLeft +
    bonusReward)].  Any other active projectile leaves the budget and the
    crawler as they were. *)
Theorem crawler_hit_pays_once
    (g : Game) (dt : R) (p : Projectile) (c : BonusCrawler) :
  features g = [BonusCrawlerFeature c] ->
  proj_active p = true ->
  let p1 := integrate (physics_gravity (config g) * 0.85) dt p in
  let g' := fst (stepProjectile g dt p) in
  let p' := snd (stepProjectile g dt p) in
  (bc_active c && crawler_reaches c p1 = true ->
     platformsLeft g'
       = Z.min (platform_count (config g))
               (platformsLeft g + features_bonusReward (config g)) /\
     features g'
       = [BonusCrawlerFeature
            (mkCrawler (bc_y c) false (features_bonusRespawn (config g)) 0.35)]
     /\
     proj_active p' = false /\
     platforms g' = platforms g /\
     human g' = human g) /\
  (bc_active c && crawler_reaches c p1 = false ->
     platformsLeft g' = platformsLeft g /\ features g' = features g).
Proof.
  intros Hfs Hact p1 g' p'; subst g' p'; split; intros Hhit.
  - rewrite (stepProjectile_crawler g dt p c Hfs Hact Hhit).
    repeat split.
  - exact (stepProjectile_no_hit g dt p c Hfs Hact Hhit).
Qed.

(** X14.  Switching the feature off retires the crawler at the next tick,
    and switching it on again brings it back at once.  With
    [features.bonusCrawler] off, [update] leaves the crawler inactive with
    an empty respawn timer wherever it was, and an inactive crawler
    declines every projectile and leaves the game as it is; the first
    [update] (with [dt >= 0]) that finds the feature switched on again
    makes it active at height [-2]. *)
Theorem crawler_switched_off
    (c : BonusCrawler) (dt : R) (g : Game) :
  features_bonusCrawler (config g) = false ->
  bc_active (crawler_update c dt g) = false /\
  bc_respawnTimer (crawler_update c dt g) = 0 /\
  (forall q h,
     crawler_onProjectile (crawler_update c dt g) q h
     = (crawler_update c dt g, h, false)) /\
  (forall dt' g',
     features_bonusCrawler (config g') = true -> 0 <= dt' ->
     bc_active (crawler_update (crawler_update c dt g) dt' g') = true /\
     bc_y (crawler_update (crawler_update c dt g) dt' g') = -2).
Proof.
  intros Hoff.
  assert (Hc : crawler_update c dt g = mkCrawler (bc_y c) false 0 (bc_flashTime c)).
  { unfold crawler_update; cbv zeta. rewrite Hoff. reflexivity. }
  rewrite Hc. split; [reflexivity|]. split; [reflexivity|]. split.
  - intros q h. reflexivity.
  - intros dt' g' Hon Hdt.
    rewrite (crawler_update_resting
      (mkCrawler (bc_y c) false 0 (bc_flashTime c)) dt' g' Hon eq_refl).
    cbn [bc_respawnTimer].
    rewrite (proj2 (Rleb_true_iff _ 0)) by lra. split; reflexivity.
Qed.

(* ================================================================== *)
(** ** After a restart, after the end *)

Lemma resetGame_ticks_clock g ts :
  mode (run (resetGame g) (ticks ts)) = playing ->
  time (run (resetGame g) (ticks ts)) = elapsed ts /\
  lastThrowAt (run (resetGame g) (ticks ts)) = 0.
Proof.
  intros Hm.
  destruct (run_ticks_clock ts (resetGame g) Hm) as (Ht & Hl).
  rewrite Ht, Hl. cbn [time lastThrowAt resetGame]. split; [lra|reflexivity].
Qed.

(** X15.  A restart starts the cooldown.  [resetGame] sets both the clock
    and [lastThrowAt] to 0, so after a restart and any frames in which the
    game goes on, a throw is accepted exactly when platforms are left and
    the frames add up to at least [throwing.cooldown]; in particular a
    throw right at the restart is refused whenever the cooldown is
    positive. *)
Theorem restart_starts_the_cooldown
    (g : Game) (ts : list (R * R)) (u : R) :
  mode (run (resetGame g) (ticks ts)) = playing ->
  (fst (throwPlatform (run (resetGame g) (ticks ts)) u) = true <->
     (0 < platformsLeft (run (resetGame g) (ticks ts)))%Z /\
     throwing_cooldown (config g) <= elapsed ts) /\
  (0 < throwing_cooldown (config g) ->
     throwPlatform (resetGame g) u = (false, resetGame g)).
Proof.
  intros Hm; split.
  - rewrite throwPlatform_guards.
    destruct (resetGame_ticks_clock g ts Hm) as (-> & ->).
    rewrite run_config. cbn [config resetGame].
    rewrite Rminus_0_r. tauto.
  - intros Hc. unfold throwPlatform.
    cbn [mode resetGame GameMode_eqb negb platformsLeft time lastThrowAt config].
    destruct (_ <=? 0)%Z; [reflexivity|].
    rewrite (proj2 (Rltb_true_iff _ _)) by lra. reflexivity.
Qed.

Lemma restart_starts_the_cooldown_witness :
  (fst (throwPlatform (run (resetGame initialGame) (ticks [])) 0) = true <->
     (0 < platformsLeft (run (resetGame initialGame) (ticks [])))%Z /\
     throwing_cooldown (config initialGame) <= elapsed []) /\
  (0 < throwing_cooldown (config initialGame) ->
     throwPlatform (resetGame initialGame) 0 = (false, resetGame initialGame)).
Proof.
  apply (restart_starts_the_cooldown initialGame [] 0). reflexivity.
Defined.

(** With nothing to throw, nothing in flight and an idle human that has
    no platform within reach, the tick ends the run. *)
Lemma resetGame_advance g dt u :
  platformsLeft (advance (resetGame g) dt u) = platform_count (config g) /\
  projectiles (advance (resetGame g) dt u) = [] /\
  hum_state (human (advance (resetGame g) dt u)) = idle.
Proof.
  pose proof (advance_phases (resetGame g) dt u) as Hp; cbv zeta in Hp.
  destruct Hp as (_ & Hpr & Hl & Hh & _).
  rewrite Hpr, Hl, Hh.
  set (g2 := updateHero (tickClock (resetGame g) dt) dt u).
  assert (H3 : updateProjectiles g2 dt = g2).
  { unfold updateProjectiles.
    change (projectiles g2) with (@nil Projectile).
    cbn [stepProjectiles filter]. reflexivity. }
  rewrite H3.
  split; [reflexivity|]. split; [reflexivity|].
  unfold updateHuman.
  assert (Hj : humanJumpingStep g2 dt = g2) by reflexivity.
  rewrite Hj.
  assert (Hw : humanWorryStep g2 dt = g2) by reflexivity.
  rewrite Hw.
  unfold humanIdleStep, attemptHumanJump.
  change (hum_state (human g2)) with idle; cbn [HumanState_eqb].
  unfold findReachablePlatform, findReachableFrom.
  change (platforms g2)
    with [mkPlatform (human_jumpThreshold (config g)) (0 - 1)].
  change (hum_y (human g2)) with (human_jumpThreshold (config g)).
  cbn [fold_left]. unfold reachableStep; cbn [plat_y].
  rewrite (proj2 (Rleb_true_iff _ _)) by lra.
  reflexivity.
Qed.

(** X16.  A restart with nothing to throw is over after one frame.  When
    [platform.count] is 0 (or less), the first [update] after [resetGame]
    ends the run, whatever [dt] is: the budget is empty, nothing is in
    flight, and the human stands idle on the only platform, which is at
    its own height and so not within reach.  With platforms to throw the
    game is still going on after that frame. *)
Theorem empty_budget_ends_at_the_first_frame (g : Game) (dt u : R) :
  ((platform_count (config g) <= 0)%Z ->
     mode (update (resetGame g) dt u) = gameover) /\
  ((0 < platform_count (config g))%Z ->
     mode (update (resetGame g) dt u) = playing).
Proof.
  destruct (resetGame_advance g dt u) as (Hl & Hp & Hs).
  pose proof (advance_mode (resetGame g) dt u) as Hm.
  unfold update.
  change (mode (resetGame g)) with playing; cbn [GameMode_eqb negb].
  unfold runIsOver. rewrite Hl, Hp, Hs.
  cbn [length Nat.eqb HumanState_eqb andb].
  revert Hm; generalize (advance (resetGame g) dt u); intros g1 Hm.
  split; intros Hc.
  - rewrite (proj2 (Z.leb_le _ _) Hc). reflexivity.
  - rewrite (proj2 (Z.leb_gt _ _) Hc). cbn [andb]. rewrite Hm. reflexivity.
Qed.

Lemma applyOp_gameover g op :
  mode g = gameover -> no_grant op -> applyOp g op = g.
Proof.
  intros Hm Hn; destruct op as [u|amount|dt u]; cbn [applyOp].
  - apply throwPlatform_refused.
    destruct (fst (throwPlatform g u)) eqn:Hf; [|reflexivity].
    apply throwPlatform_guards in Hf. destruct Hf as (Hp & _). congruence.
  - destruct Hn.
  - apply update_gameover; exact Hm.
Qed.

(** X17.  Game over freezes the game.  Once the mode is [gameover], every
    throw is refused and every tick returns at once: after any sequence of
    throws and ticks the game is the very same state, until [resetGame]
    sets the mode to [playing] again. *)
Theorem gameover_freezes_the_game (g : Game) (ops : list Op) :
  mode g = gameover ->
  Forall no_grant ops ->
  run g ops = g /\ mode (resetGame g) = playing.
Proof.
  intros Hm Hall; split; [|reflexivity].
  unfold run; induction Hall as [|op rest Hn _ IH]; cbn [fold_left];
    [reflexivity|].
  rewrite (applyOp_gameover g op Hm Hn). exact IH.
Qed.

Lemma gameover_freezes_the_game_witness :
  run (endGame initialGame) [OpThrow 0.5; OpTick 0.03 0; OpThrow 0.1]
  = endGame initialGame /\
  mode (resetGame (endGame initialGame)) = playing.
Proof.
  apply (gameover_freezes_the_game (endGame initialGame)).
  - reflexivity.
  - repeat constructor.
Defined.

(* ================================================================== *)
(** ** The prompt *)

Lemma stepProjectile_promptTimer g dt p :
  promptTimer (fst (stepProjectile g dt p)) = promptTimer g.
Proof.
  unfold stepProjectile.
  destruct (negb _); [reflexivity|].
  cbv zeta.
  pose proof (offerToFeatures_only_budget (features g)
    (integrate (physics_gravity (config g) * 0.85) dt p) g) as Ho.
  destruct (offerToFeatures _ _ g) as [[fs g1] consumed]; simpl in Ho.
  assert (H1 : promptTimer (set_features g1 fs) = promptTimer g)
    by (unfold only_budget in Ho; rewrite Ho; reflexivity).
  destruct consumed; [exact H1|].
  destruct (_ <=? 0).
  - assert (Hs : promptTimer (stickToWall (set_features g1 fs)
        (integrate (physics_gravity (config g) * 0.85) dt p))
        = promptTimer g).
    { unfold stickToWall; cbv zeta.
      match goal with |- promptTimer (handlePlatformPlacement ?x ?y) = _ =>
        pose proof (handlePlatformPlacement_only_human x y) as Hh;
        unfold only_human in Hh; rewrite Hh
      end.
      exact H1. }
    destruct (offRange _ _); exact Hs.
  - destruct (offRange _ _); exact H1.
Qed.

Lemma stepProjectiles_promptTimer dt ps :
  forall g, promptTimer (fst (stepProjectiles g dt ps)) = promptTimer g.
Proof.
  induction ps as [|p rest IH]; intros g; simpl; [reflexivity|].
  pose proof (stepProjectile_promptTimer g dt p) as H1.
  destruct (stepProjectile g dt p) as [g1 p1]; simpl in H1.
  specialize (IH g1).
  destruct (stepProjectiles g1 dt rest) as [g2 rest1]; simpl in *.
  congruence.
Qed.

Lemma advance_promptTimer g dt u :
  promptTimer (advance g dt u) = Rmax 0 (promptTimer g - dt).
Proof.
  unfold advance; cbv zeta.
  set (g2 := updateHero (tickClock g dt) dt u).
  assert (H2 : promptTimer g2 = Rmax 0 (promptTimer g - dt)) by reflexivity.
  assert (H3 : promptTimer (updateProjectiles g2 dt) = promptTimer g2).
  { unfold updateProjectiles.
    pose proof (stepProjectiles_promptTimer dt (projectiles g2) g2) as H.
    destruct (stepProjectiles g2 dt (projectiles g2)) as [g1 ps]; exact H. }
  set (g3 := updateProjectiles g2 dt) in *.
  pose proof (updateHuman_only_human g3 dt) as H4.
  set (g4 := updateHuman g3 dt) in *.
  assert (H4' : promptTimer g4 = promptTimer g3)
    by (unfold only_human in H4; rewrite H4; reflexivity).
  clearbody g2 g3 g4.
  proj_simpl. congruence.
Qed.

Lemma update_promptTimer g dt u :
  update g dt u = g \/
  promptTimer (update g dt u) = Rmax 0 (promptTimer g - dt).
Proof.
  unfold update.
  destruct (negb _); [left; reflexivity|right].
  rewrite <- (advance_promptTimer g dt u).
  generalize (advance g dt u); intros g1.
  destruct (runIsOver g1); reflexivity.
Qed.

Lemma applyOp_prompt_hidden g op :
  forward_tick op -> promptTimer g = 0 -> promptTimer (applyOp g op) = 0.
Proof.
  intros Hf H0; destruct op as [u|amount|dt u]; cbn [applyOp].
  - destruct (fst (throwPlatform g u)) eqn:Ht.
    + rewrite (throwPlatform_accepted g u Ht). reflexivity.
    + rewrite (throwPlatform_refused g u Ht). exact H0.
  - exact H0.
  - destruct (update_promptTimer g dt u) as [-> | ->]; [exact H0|].
    rewrite H0. cbn [forward_tick] in Hf. apply Rmax_left; lra.
Qed.

(** X18.  The prompt goes away with the first throw and stays away.  An
    accepted throw empties the prompt timer; in whatever follows (throws,
    grants, ticks whose [dt] is not negative) the timer stays at 0, so
    [updateScoreUi] keeps the prompt hidden until the next [resetGame],
    which winds the timer up to [ui.promptDuration] again. *)
Theorem prompt_hides_with_the_first_throw
    (g : Game) (u : R) (ops : list Op) :
  fst (throwPlatform g u) = true ->
  Forall forward_tick ops ->
  promptTimer (run (snd (throwPlatform g u)) ops) = 0 /\
  promptShown (run (snd (throwPlatform g u)) ops) = false /\
  promptTimer (resetGame (run (snd (throwPlatform g u)) ops))
    = ui_promptDuration (config g).
Proof.
  intros Ht Hall.
  assert (H0 : promptTimer (snd (throwPlatform g u)) = 0)
    by (rewrite (throwPlatform_accepted g u Ht); reflexivity).
  pose proof (throwPlatform_config g u) as Hc.
  revert H0 Hc; generalize (snd (throwPlatform g u)); intros g1 H0 Hc.
  assert (Hrun : promptTimer (run g1 ops) = 0).
  { clear Hc. revert g1 H0. unfold run.
    induction Hall as [|op rest Hf _ IH]; intros g1 H0; cbn [fold_left];
      [exact H0|].
    apply IH, applyOp_prompt_hidden; assumption. }
  split; [exact Hrun|]. split.
  - unfold promptShown. rewrite Hrun. apply Rltb_false_iff; lra.
  - cbn [promptTimer resetGame]. rewrite run_config, Hc. reflexivity.
Qed.

Lemma prompt_hides_with_the_first_throw_witness :
  promptTimer (run (snd (throwPlatform atFirstThrow 0.5))
                 [OpTick 0.03 0; OpThrow 0.5; OpTick 0.03 0]) = 0 /\
  promptShown (run (snd (throwPlatform atFirstThrow 0.5))
                 [OpTick 0.03 0; OpThrow 0.5; OpTick 0.03 0]) = false /\
  promptTimer (resetGame (run (snd (throwPlatform atFirstThrow 0.5))
                            [OpTick 0.03 0; OpThrow 0.5; OpTick 0.03 0]))
    = ui_promptDuration (config atFirstThrow).
Proof.
  apply (prompt_hides_with_the_first_throw atFirstThrow 0.5).
  - apply throwPlatform_guards.
    split; [reflexivity|]. split; [cbn; lia|cbn; lra].
  - repeat constructor; cbn; lra.
Defined.

(* ================================================================== *)
(** ** The throw controls and the frame loop *)




Lemma updateHeroAnimation_charging a dt :
  heroThrowCharging (updateHeroAnimation a dt) = heroThrowCharging a.
Proof.
  unfold updateHeroAnimation; cbv zeta.
  destruct (heroThrowCharging a) eqn:Hc;
    cbn [heroThrowReleaseActive heroBounceActive heroTurnActive
         heroThrowCharging];
    repeat match goal with
    | |- context [if ?b then _ else _] =>
        destruct b; cbn [heroThrowReleaseActive heroBounceActive
                         heroTurnActive heroThrowCharging]
    end; auto.
Qed.

Lemma updateHero_anim_contact g dt u a :
  groundContact g dt ->
  heroThrowCharging (updateHero_anim g dt u a) = false.
Proof.
  unfold groundContact; intros Hc.
  unfold updateHero_anim; cbv zeta.
  rewrite (proj2 (Rleb_true_iff _ (heroGroundY g)) Hc).
  match goal with |- context [if ?b then _ else _] => destruct b end;
    reflexivity.
Qed.

(** X20.  A bounce cancels the charge.  In a frame of a playing game in
    which the hero touches the trampoline, the charge that a press had
    started is dropped; the release that follows throws nothing and leaves
    the game as it is. *)
Theorem bounce_cancels_the_charge (s : Session) (timestamp u u' : R) :
  mode (s_game s) = playing ->
  groundContact (s_game s) (tick_dt (s_lastFrame s) timestamp) ->
  heroThrowCharging (s_anim (tick s timestamp u)) = false /\
  s_game (handle (tick s timestamp u) (Release u'))
    = s_game (tick s timestamp u).
Proof.
  intros Hm Hc.
  assert (Ha : heroThrowCharging (s_anim (tick s timestamp u)) = false).
  { unfold tick; cbv zeta; cbn [s_anim].
    unfold update_anim. rewrite Hm; cbn [GameMode_eqb negb].
    rewrite updateHeroAnimation_charging.
    apply updateHero_anim_contact. exact Hc. }
  split; [exact Ha|].
  revert Ha; generalize (tick s timestamp u); intros s' Ha.
  cbn [handle]. unfold releaseHeroThrow. rewrite Ha. reflexivity.
Qed.

Lemma tick_dt_capped lastFrame timestamp : tick_dt lastFrame timestamp <= 0.033.
Proof. unfold tick_dt; cbv zeta. apply Rmin_l. Qed.

(** X21.  The step of a frame is capped.  [tick] hands [update] a [dt] of
    at most 0.033 s, whatever the timestamps are; the [dt] of the first
    frame ([lastFrame] still 0) is 0, and timestamps that do not go back
    give a [dt >= 0].  So a frame advances the clock of the game by at
    most 33 ms, and not at all after the end of the run. *)
Theorem frame_step_is_capped (s : Session) (timestamp u : R) :
  tick_dt (s_lastFrame s) timestamp <= 0.033 /\
  (s_lastFrame s = 0 -> tick_dt (s_lastFrame s) timestamp = 0) /\
  (s_lastFrame s <= timestamp -> 0 <= tick_dt (s_lastFrame s) timestamp) /\
  time (s_game (tick s timestamp u)) <= time (s_game s) + 0.033 /\
  (mode (s_game s) = gameover -> s_game (tick s timestamp u) = s_game s) /\
  s_lastFrame (tick s timestamp u) = timestamp.
Proof.
  split; [apply tick_dt_capped|].
  split; [|split; [|split; [|split]]].
  - intros H0; unfold tick_dt; cbv zeta. rewrite H0.
    destruct (Req_dec_T 0 0) as [_|Hn]; [|contradiction].
    replace ((timestamp - timestamp) / 1000) with 0 by (field; lra).
    apply Rmin_right; lra.
  - intros Hle; unfold tick_dt; cbv zeta.
    destruct (Req_dec_T _ _); apply Rmin_glb; lra.
  - unfold tick; cbv zeta; cbn [s_game].
    pose proof (tick_dt_capped (s_lastFrame s) timestamp) as Hd.
    revert Hd; generalize (tick_dt (s_lastFrame s) timestamp); intros dt Hd.
    destruct (mode (s_game s)) eqn:Hm.
    + rewrite (update_time_playing _ dt u Hm). lra.
    + rewrite (update_gameover _ dt u Hm). lra.
  - intros Hm; unfold tick; cbv zeta; cbn [s_game].
    apply update_gameover; exact Hm.
  - reflexivity.
Qed.

Lemma Forall_snoc {A} (P : A -> Prop) (l : list A) (x : A) :
  Forall P l -> P x -> Forall P (l ++ [x]).
Proof. intros Hl Hx; apply Forall_app; split; [exact Hl|constructor; auto]. Qed.

(** X22.  What the player can do is what [throwPlatform] and [update] can
    do.  After a restart, whatever presses, releases, frames and further
    restarts follow, the game of the session is the game of a run from a
    [resetGame]: a sequence of [throwPlatform] calls and of ticks of at
    most 33 ms, with no bonus grant of its own.  Every property of runs
    from [resetGame] therefore holds of every session. *)
Theorem session_is_a_run (s : Session) (inputs : list Input) :
  exists g0 ops,
    s_game (play s (Restart :: inputs)) = run (resetGame g0) ops /\
    Forall no_grant ops /\
    Forall capped_tick ops /\
    (length ops <= length inputs)%nat.
Proof.
  induction inputs as [|i inputs IH] using rev_ind.
  { exists (s_game s), []. repeat split; constructor. }
  destruct IH as (g0 & ops & Hrun & Hng & Hcap & Hlen).
  unfold play in *.
  change (Restart :: inputs ++ [i]) with ((Restart :: inputs) ++ [i]).
  rewrite fold_left_app.
  revert Hrun; generalize (fold_left handle (Restart :: inputs) s).
  intros s1 Hrun; cbn [fold_left].
  rewrite length_app; cbn [length].
  destruct i as [|u|timestamp u|]; cbn [handle].
  - exists g0, ops. cbn [s_game]. repeat split; auto; lia.
  - unfold releaseHeroThrow.
    destruct (negb (heroThrowCharging (s_anim s1))).
    + exists g0, ops. cbn [s_game].
      split; [exact Hrun|]. split; [exact Hng|]. split; [exact Hcap|lia].
    + exists g0, (ops ++ [OpThrow u]).
      split; [|split; [|split]].
      * rewrite run_app, <- Hrun. cbn [run fold_left applyOp].
        destruct (throwPlatform (s_game s1) u) as [thrown g1].
        destruct thrown; reflexivity.
      * apply Forall_snoc; [exact Hng|exact I].
      * apply Forall_snoc; [exact Hcap|exact I].
      * rewrite length_app; cbn [length]; lia.
  - exists g0, (ops ++ [OpTick (tick_dt (s_lastFrame s1) timestamp) u]).
    split; [|split; [|split]].
    + rewrite run_app, <- Hrun. reflexivity.
    + apply Forall_snoc; [exact Hng|exact I].
    + apply Forall_snoc; [exact Hcap|apply tick_dt_capped].
    + rewrite length_app; cbn [length]; lia.
  - exists (s_game s1), []. cbn [s_game].
    repeat split; try constructor. cbn [length]; lia.
Qed.

(* ================================================================== *)
(** ** The settings reset *)




(* ================================================================== *)
(** ** The layout *)

(** X24.  What [resize] lays out, for a canvas of any size.  A metre is
    between 90 and 150 pixels and the wall between 50 and 110 pixels from
    the left edge; [worldToScreenY] turns the heights upside down; and the
    span of heights that [viewHeightMeters] announces,
    [[cameraY, cameraY + viewHeightMeters]], is exactly what is drawn
    between the origin row and the row 30 pixels above the top edge. *)
Theorem resize_view_span (g : Game) (clientWidth clientHeight : R) :
  let g' := fst (resize g clientWidth clientHeight) in
  let l := snd (resize g clientWidth clientHeight) in
  90 <= meterPx l <= 150 /\
  50 <= wallScreenX l <= 110 /\
  worldToScreenX l 0 = wallScreenX l /\
  (forall y1 y2, y1 < y2 -> worldToScreenY g' l y2 < worldToScreenY g' l y1) /\
  (forall y,
     cameraY g' <= y <= cameraY g' + viewHeightMeters g' <->
     -30 <= worldToScreenY g' l y <= originY l).
Proof.
  intros g' l; subst g' l; unfold resize; cbv zeta.
  cbn [fst snd meterPx wallScreenX originY]; unfold worldToScreenX, worldToScreenY.
  cbn [meterPx wallScreenX originY cameraY viewHeightMeters
       set_viewHeightMeters].
  pose proof (clamp_bounds (clientWidth * 0.12) 90 150 ltac:(lra)) as Hm.
  pose proof (clamp_bounds (clientWidth * 0.08) 50 110 ltac:(lra)) as Hw.
  revert Hm Hw.
  generalize (clamp (clientWidth * 0.12) 90 150).
  generalize (clamp (clientWidth * 0.08) 50 110).
  generalize (clientHeight - clamp (clientHeight * 0.2) 90 160).
  intros o w m Hm Hw.
  split; [exact Hm|]. split; [exact Hw|]. split; [lra|]. split.
  - intros y1 y2 Hy. nra.
  - intros y.
    assert (Hv : (o + 30) / m * m = o + 30) by (field; lra).
    generalize dependent ((o + 30) / m); intros v Hv.
    split; intros [H1 H2]; split; nra.
Qed.

(* ================================================================== *)
(** ** The platform icons *)




(* ================================================================== *)
(** ** The leaderboard *)

Lemma insertByScore_perm e l : Permutation (insertByScore e l) (e :: l).
Proof.
  induction l as [|x rest IH]; cbn [insertByScore]; [apply Permutation_refl|].
  destruct (_ <? _); [|apply Permutation_refl].
  eapply Permutation_trans; [apply perm_skip, IH|apply perm_swap].
Qed.

Lemma sortByScore_perm l : Permutation (sortByScore l) l.
Proof.
  induction l as [|e rest IH]; cbn [sortByScore]; [constructor|].
  eapply Permutation_trans; [apply insertByScore_perm|apply perm_skip, IH].
Qed.

Lemma insertByScore_descending e l :
  descending l -> descending (insertByScore e l).
Proof.
  induction l as [|x rest IH]; cbn [insertByScore descending].
  { intros _; split; [intros y []|exact I]. }
  intros (Hx & Hrest).
  destruct (se_score e <? se_score x) eqn:Hlt; cbn [descending].
  - apply Rltb_true_iff in Hlt. split; [|apply IH, Hrest].
    intros y Hy.
    apply (Permutation_in _ (insertByScore_perm e rest)) in Hy.
    destruct Hy as [<-|Hy]; [lra|apply Hx, Hy].
  - apply Rltb_false_iff in Hlt. split; [|split; assumption].
    intros y [<-|Hy]; [exact Hlt|].
    apply Rle_trans with (se_score x); [apply Hx, Hy|exact Hlt].
Qed.

Lemma sortByScore_descending l : descending (sortByScore l).
Proof.
  induction l as [|e rest IH]; cbn [sortByScore]; [exact I|].
  apply insertByScore_descending, IH.
Qed.

(** Entries in descending order are left in place: the sort is stable. *)
Lemma sortByScore_sorted l : descending l -> sortByScore l = l.
Proof.
  induction l as [|e rest IH]; cbn [sortByScore descending]; [reflexivity|].
  intros (He & Hrest). rewrite (IH Hrest).
  destruct rest as [|x rest']; [reflexivity|].
  cbn [insertByScore].
  rewrite (proj2 (Rltb_false_iff _ _)); [reflexivity|].
  apply He; left; reflexivity.
Qed.

Lemma descending_app l1 l2 :
  descending (l1 ++ l2) ->
  descending l1 /\
  forall k d, In k l1 -> In d l2 -> se_score d <= se_score k.
Proof.
  induction l1 as [|x l1 IH]; cbn [app descending].
  { intros _; split; [exact I|intros k d []]. }
  intros (Hx & Hrest). destruct (IH Hrest) as (Hd & Hcross).
  split; [split; [|exact Hd]|].
  - intros y Hy; apply Hx, in_or_app; left; exact Hy.
  - intros k d [<-|Hk] Hdin.
    + apply Hx, in_or_app; right; exact Hdin.
    + apply Hcross; assumption.
Qed.

Lemma descending_snoc l e :
  descending l -> (forall x, In x l -> se_score e <= se_score x) ->
  descending (l ++ [e]).
Proof.
  induction l as [|x l IH]; cbn [app descending]; intros Hd He.
  { split; [intros y []|exact I]. }
  destruct Hd as (Hx & Hrest). split.
  - intros y Hy; apply in_app_or in Hy; destruct Hy as [Hy|[<-|[]]].
    + apply Hx, Hy.
    + apply He; left; reflexivity.
  - apply IH; [exact Hrest|]. intros y Hy; apply He; right; exact Hy.
Qed.

Lemma saveScore_board g c r now saved :
  exists board dropped,
    saveScore g (Some (String.String c r)) now saved = Some board /\
    Permutation (board ++ dropped)
      (loadScores saved ++ [mkScoreEntry (String.String c r) (score g) now]) /\
    descending board /\
    length board = Nat.min 10 (S (length (loadScores saved))) /\
    (forall k d, In k board -> In d dropped -> se_score d <= se_score k).
Proof.
  unfold saveScore; cbv zeta.
  set (entry := mkScoreEntry (String.String c r) (score g) now).
  set (sorted := sortByScore (loadScores saved ++ [entry])).
  exists (firstn 10 sorted), (skipn 10 sorted).
  split; [reflexivity|].
  pose proof (sortByScore_descending (loadScores saved ++ [entry])) as Hd.
  fold sorted in Hd.
  rewrite <- (firstn_skipn 10 sorted) in Hd.
  destruct (descending_app _ _ Hd) as (Hboard & Hcross).
  split; [rewrite firstn_skipn; apply sortByScore_perm|].
  split; [exact Hboard|]. split; [|exact Hcross].
  rewrite length_firstn.
  unfold sorted.
  rewrite (Permutation_length (sortByScore_perm _)), length_app.
  cbn [length]. rewrite Nat.add_1_r. reflexivity.
Qed.

(** X26.  The leaderboard keeps the ten best scores.  With a name,
    [saveScore] stores the stored entries and the new one, by descending
    score, cut off after ten: what it stores is in descending order, has
    [min(10, n + 1)] entries for [n] stored ones, and together with the
    entries left out is a rearrangement of the old entries and the new
    one, no entry left out beating an entry kept.  Without a name ([null]
    or the empty string) the storage is left as it is. *)
Theorem saveScore_keeps_the_ten_best
    (g : Game) (c : Ascii.ascii) (r : String.string) (now : R)
    (saved : option (list ScoreEntry)) :
  saveScore g None now saved = saved /\
  saveScore g (Some String.EmptyString) now saved = saved /\
  exists board dropped,
    saveScore g (Some (String.String c r)) now saved = Some board /\
    Permutation (board ++ dropped)
      (loadScores saved ++ [mkScoreEntry (String.String c r) (score g) now]) /\
    descending board /\
    length board = Nat.min 10 (S (length (loadScores saved))) /\
    (forall k d, In k board -> In d dropped -> se_score d <= se_score k).
Proof.
  split; [reflexivity|]. split; [reflexivity|]. apply saveScore_board.
Qed.

(** X27.  A tie does not enter a full board.  When ten entries are stored
    in descending order and none of them is below the new score, the new
    entry is the one cut off, also when it equals the lowest score on the
    board; the storage is rewritten with the same ten entries.  A score
    that beats one of the ten is on the board afterwards. *)
Theorem saveScore_tie_stays_out
    (g : Game) (c : Ascii.ascii) (r : String.string) (now : R) (stored : list ScoreEntry) :
  descending stored ->
  length stored = 10%nat ->
  ((forall e, In e stored -> score g <= se_score e) ->
     saveScore g (Some (String.String c r)) now (Some stored) = Some stored) /\
  ((exists e, In e stored /\ se_score e < score g) ->
     exists board,
       saveScore g (Some (String.String c r)) now (Some stored) = Some board /\
       In (mkScoreEntry (String.String c r) (score g) now) board).
Proof.
  intros Hd Hlen; split.
  - intros Hle. unfold saveScore; cbv zeta; cbn [loadScores].
    rewrite sortByScore_sorted by (apply descending_snoc; assumption).
    rewrite firstn_app, Hlen, Nat.sub_diag, <- Hlen, firstn_all.
    cbn [firstn]. rewrite app_nil_r. reflexivity.
  - intros (e & Hin & Hlt).
    destruct (saveScore_board g c r now (Some stored))
      as (board & dropped & Hs & Hperm & Hboard & Hl & Hcross).
    exists board; split; [exact Hs|].
    cbn [loadScores] in *.
    set (entry := mkScoreEntry (String.String c r) (score g) now) in *.
    assert (Hnew : In entry (board ++ dropped)).
    { apply (Permutation_in _ (Permutation_sym Hperm)), in_or_app.
      right; left; reflexivity. }
    assert (Hold : In e (board ++ dropped)).
    { apply (Permutation_in _ (Permutation_sym Hperm)), in_or_app.
      left; exact Hin. }
    apply in_app_or in Hnew; destruct Hnew as [Hb|Hdr]; [exact Hb|exfalso].
    assert (Hlen2 : length dropped = 1%nat).
    { pose proof (Permutation_length Hperm) as Hpl.
      rewrite !length_app in Hpl. cbn [length] in Hpl.
      rewrite Hl, Hlen in Hpl. cbn in Hpl. lia. }
    apply in_app_or in Hold; destruct Hold as [He|He].
    + pose proof (Hcross e entry He Hdr) as Hc. cbn [se_score entry] in Hc.
      unfold entry in Hc; cbn [se_score] in Hc. lra.
    + destruct dropped as [|d [|d' rest]]; cbn [length] in Hlen2;
        try discriminate.
      destruct Hdr as [Hd1|[]]; destruct He as [He1|[]].
      assert (Heq : se_score e = score g)
        by (rewrite <- He1, Hd1; reflexivity).
      lra.
Qed.

Lemma saveScore_tie_stays_out_witness :
  ((forall e, In e fullBoard -> score stillWorried <= se_score e) ->
     saveScore stillWorried (Some playerName) 1 (Some fullBoard)
     = Some fullBoard) /\
  ((exists e, In e fullBoard /\ se_score e < score stillWorried) ->
     exists board,
       saveScore stillWorried (Some playerName) 1 (Some fullBoard)
       = Some board /\
       In (mkScoreEntry playerName (score stillWorried) 1) board).
Proof.
  apply (saveScore_tie_stays_out stillWorried
           (Ascii.Ascii false true false false true false true false)
           String.EmptyString 1 fullBoard).
  - unfold fullBoard; cbn [repeat descending]. repeat split;
      intros x Hx; cbn [In] in Hx;
      repeat (destruct Hx as [<-|Hx]; [cbn [se_score]; lra|]);
      destruct Hx.
  - reflexivity.
Defined.

(* ================================================================== *)
(** ** Frames on the sprite sheets *)

Lemma floor_bounds x : IZR (floor x) <= x < IZR (floor x) + 1.
Proof.
  unfold floor. destruct (base_Int_part x) as (H1 & H2). split; lra.
Qed.

Lemma floor_range x (n : Z) :
  0 <= x -> x < IZR n -> (0 <= floor x < n)%Z.
Proof.
  intros H0 Hn. destruct (floor_bounds x) as (H1 & H2). split.
  - assert (H : (-1 < floor x)%Z) by (apply lt_IZR; lra). lia.
  - apply lt_IZR; lra.
Qed.

Lemma floor_nonneg x : 0 <= x -> (0 <= floor x)%Z.
Proof.
  intros H0. destruct (floor_bounds x) as (H1 & H2).
  assert (H : (-1 < floor x)%Z) by (apply lt_IZR; lra). lia.
Qed.

Lemma jsRem_range a b : 0 <= a -> 0 < b -> 0 <= jsRem a b < b.
Proof.
  intros Ha Hb; unfold jsRem, trunc.
  assert (Hq : 0 <= a / b).
  { apply Rmult_le_pos; [exact Ha|]. apply Rlt_le, Rinv_0_lt_compat, Hb. }
  rewrite (proj2 (Rleb_true_iff _ _) Hq).
  destruct (base_Int_part (a / b)) as (H1 & H2).
  assert (Hab : a = a / b * b) by (field; lra).
  revert H1 H2 Hab; generalize (a / b); generalize (IZR (Int_part (a / b))).
  intros k q H1 H2 Hab. split; nra.
Qed.

Lemma oneShotFrame_range c elapsed :
  (0 < sc_length c)%Z -> 0 <= sc_fps c -> 0 <= elapsed ->
  (0 <= oneShotFrame c elapsed < sc_length c)%Z.
Proof.
  intros Hl Hf He; unfold oneShotFrame.
  pose proof (floor_nonneg (elapsed * sc_fps c)
                (Rmult_le_pos _ _ He Hf)) as H0.
  lia.
Qed.

Lemma sheetCell_inside frameIndex columns rows :
  (0 < columns)%Z -> (0 < rows)%Z ->
  (0 <= fst (sheetCell frameIndex columns rows) < columns)%Z /\
  (0 <= snd (sheetCell frameIndex columns rows) < rows)%Z.
Proof.
  intros Hc Hr; unfold sheetCell; cbv zeta; cbn [fst snd].
  assert (Hm : (0 < columns * rows)%Z) by nia.
  set (safe := Z.min (Z.max 0 (columns * rows - 1)) (Z.max 0 frameIndex)).
  assert (Hs : (0 <= safe <= columns * rows - 1)%Z) by (unfold safe; lia).
  clearbody safe.
  rewrite Z.rem_mod_nonneg by lia.
  split; [apply Z.mod_pos_bound; exact Hc|].
  split; [apply Z.div_pos; lia|].
  apply Z.div_lt_upper_bound; lia.
Qed.

Lemma sheetCell_clip c frame columns rows :
  (0 < columns)%Z -> (0 <= sc_row c < rows)%Z ->
  (0 <= sc_start c)%Z -> (0 <= frame)%Z ->
  (sc_start c + frame < columns)%Z ->
  sheetCell (clipFrameIndex c frame columns) columns rows
  = ((sc_start c + frame)%Z, sc_row c).
Proof.
  intros Hc Hr Hs Hf Hlt; unfold sheetCell, clipFrameIndex; cbv zeta.
  set (r := sc_row c) in *. set (st := sc_start c) in *.
  assert (Hidx : (0 <= r * columns + st + frame <= columns * rows - 1)%Z)
    by nia.
  replace (Z.min (Z.max 0 (columns * rows - 1))
             (Z.max 0 (r * columns + st + frame)))
    with (r * columns + st + frame)%Z by lia.
  rewrite Z.rem_mod_nonneg by lia.
  replace (r * columns + st + frame)%Z with ((st + frame) + r * columns)%Z
    by lia.
  rewrite Z.mod_add, Z.div_add by lia.
  rewrite Z.mod_small, Z.div_small by lia.
  f_equal. 
Qed.

(** X28.  A frame index names the cell it was computed for, and no index
    is drawn from outside the sheet.  On a sheet of [columns > 0] by
    [rows > 0] cells, the cell that the drawing code cuts out for any
    frame index whatever is a cell of the sheet; and for the index that
    [clipFrameIndex] computes for a frame of a clip lying in one row of
    the sheet ([0 <= row < rows], [0 <= start], [0 <= frame] and
    [start + frame < columns]) it is the cell in the clip's row, [frame]
    columns right of the clip's start. *)
Theorem frame_index_names_its_cell (columns rows : Z) :
  (0 < columns)%Z -> (0 < rows)%Z ->
  (forall frameIndex,
     (0 <= fst (sheetCell frameIndex columns rows) < columns)%Z /\
     (0 <= snd (sheetCell frameIndex columns rows) < rows)%Z) /\
  (forall c frame,
     (0 <= sc_row c < rows)%Z -> (0 <= sc_start c)%Z -> (0 <= frame)%Z ->
     (sc_start c + frame < columns)%Z ->
     sheetCell (clipFrameIndex c frame columns) columns rows
     = ((sc_start c + frame)%Z, sc_row c)).
Proof.
  intros Hc Hr; split.
  - intros idx; apply sheetCell_inside; assumption.
  - intros c frame H1 H2 H3 H4; apply sheetCell_clip; assumption.
Qed.

Lemma frame_index_names_its_cell_witness :
  (forall frameIndex,
     (0 <= fst (sheetCell frameIndex 3 5) < 3)%Z /\
     (0 <= snd (sheetCell frameIndex 3 5) < 5)%Z) /\
  (forall c frame,
     (0 <= sc_row c < 5)%Z -> (0 <= sc_start c)%Z -> (0 <= frame)%Z ->
     (sc_start c + frame < 3)%Z ->
     sheetCell (clipFrameIndex c frame 3) 3 5
     = ((sc_start c + frame)%Z, sc_row c)).
Proof. apply (frame_index_names_its_cell 3 5); lia. Defined.

Lemma hero_clip_cell clip frame :
  In clip HERO_ANIM_clips ->
  (0 <= frame < sc_length clip)%Z ->
  sheetCell (clipFrameIndex clip frame HERO_ANIM_sheet_columns)
    HERO_ANIM_sheet_columns HERO_ANIM_sheet_rows
  = ((sc_start clip + frame)%Z, sc_row clip).
Proof.
  intros Hin Hf.
  assert (H : (0 <= sc_row clip < HERO_ANIM_sheet_rows)%Z /\
              (0 <= sc_start clip)%Z /\
              (sc_start clip + sc_length clip <= HERO_ANIM_sheet_columns)%Z).
  { unfold HERO_ANIM_clips in Hin; cbn [In] in Hin.
    unfold HERO_ANIM_sheet_rows, HERO_ANIM_sheet_columns.
    repeat (destruct Hin as [Hc|Hin]; [subst clip; vm_compute; intuition discriminate|]).
    destruct Hin. }
  destruct H as (H1 & H2 & H3).
  apply sheetCell_clip; try assumption; try lia.
Qed.

(** X29.  The hero is always drawn from a cell of its own clips.  In a
    game whose clock and animation timers are not negative,
    [getHeroFrameIndex] is the index of a frame [0 <= frame < length] of
    one of the six clips of [HERO_ANIM], and the cell that [drawHero] cuts
    out of the 3 by 5 sheet for it is that frame's cell in the clip's
    row: the bounds guard of the drawing code never has to correct it. *)
Theorem hero_frame_is_a_cell_of_its_clip (g : Game) (a : HeroAnim) :
  0 <= time g ->
  0 <= heroBounceElapsed a ->
  0 <= heroThrowReleaseElapsed a ->
  0 <= heroThrowChargeElapsed a ->
  0 <= heroTurnElapsed a ->
  exists clip frame,
    In clip HERO_ANIM_clips /\
    (0 <= frame < sc_length clip)%Z /\
    getHeroFrameIndex g a HERO_ANIM_sheet_columns
      = clipFrameIndex clip frame HERO_ANIM_sheet_columns /\
    sheetCell (getHeroFrameIndex g a HERO_ANIM_sheet_columns)
      HERO_ANIM_sheet_columns HERO_ANIM_sheet_rows
    = ((sc_start clip + frame)%Z, sc_row clip).
Proof.
  intros Ht Hb Hr Hc Hu.
  assert (Hex : exists clip frame,
            In clip HERO_ANIM_clips /\
            (0 <= frame < sc_length clip)%Z /\
            getHeroFrameIndex g a HERO_ANIM_sheet_columns
            = clipFrameIndex clip frame HERO_ANIM_sheet_columns).
  { unfold getHeroFrameIndex, HERO_ANIM_clips.
    destruct (heroBounceActive a).
    { eexists _, _; split; [left; reflexivity|]. split; [|reflexivity].
      apply oneShotFrame_range; cbn; try lia; lra. }
    destruct (heroThrowReleaseActive a).
    { eexists _, _; split; [right; left; reflexivity|]. split; [|reflexivity].
      apply oneShotFrame_range; cbn; try lia; lra. }
    destruct (heroThrowCharging a).
    { eexists _, _; split; [do 2 right; left; reflexivity|].
      split; [|reflexivity].
      apply oneShotFrame_range; cbn; try lia; lra. }
    destruct (heroTurnActive a).
    { eexists _, _; split; [do 3 right; left; reflexivity|].
      split; [|reflexivity].
      apply oneShotFrame_range; cbn; try lia; lra. }
    cbv zeta.
    assert (Hrem : (0 <= floor (jsRem (time g * 6) 3) < 3)%Z).
    { destruct (jsRem_range (time g * 6) 3) as (H0 & H3); try lra.
      apply floor_range; assumption. }
    destruct (0 <=? _).
    - eexists _, _; split; [do 4 right; left; reflexivity|].
      split; [|reflexivity]. cbn. exact Hrem.
    - eexists _, _; split; [do 5 right; left; reflexivity|].
      split; [|reflexivity]. cbn. exact Hrem. }
  destruct Hex as (clip & frame & Hin & Hf & Hidx).
  exists clip, frame. repeat split; try assumption; try lia.
  rewrite Hidx. apply hero_clip_cell; assumption.
Qed.

Lemma hero_frame_is_a_cell_of_its_clip_witness :
  exists clip frame,
    In clip HERO_ANIM_clips /\
    (0 <= frame < sc_length clip)%Z /\
    getHeroFrameIndex atFirstThrow resetGame_anim HERO_ANIM_sheet_columns
      = clipFrameIndex clip frame HERO_ANIM_sheet_columns /\
    sheetCell
      (getHeroFrameIndex atFirstThrow resetGame_anim HERO_ANIM_sheet_columns)
      HERO_ANIM_sheet_columns HERO_ANIM_sheet_rows
    = ((sc_start clip + frame)%Z, sc_row clip).
Proof.
  apply (hero_frame_is_a_cell_of_its_clip atFirstThrow resetGame_anim);
    cbn; lra.
Defined.

(* ================================================================== *)
(** ** The idle clips of the human *)

Lemma idle_loop_hold u3 now :
  0 <= u3 < 1 ->
  now + 3 <= now + randRange u3 HUMAN_ANIM_idle_minHold HUMAN_ANIM_idle_maxHold
    < now + 5.
Proof.
  intros Hu.
  pose proof (randRange_bounds u3 3 5 Hu ltac:(lra)) as H.
  unfold HUMAN_ANIM_idle_minHold, HUMAN_ANIM_idle_maxHold. lra.
Qed.

Lemma clipDuration_one_a : clipDuration (clipSpec (mkSheetClip 0 0 1 1)) = 1.
Proof.
  unfold clipDuration, clipSpec; cbn [clip_length clip_fps sc_length sc_fps].
  rewrite Rmax_left by lra. lra.
Qed.

Lemma clipDuration_one_b : clipDuration (clipSpec (mkSheetClip 0 1 3 3)) = 1.
Proof.
  unfold clipDuration, clipSpec; cbn [clip_length clip_fps sc_length sc_fps].
  rewrite Rmax_right by lra. lra.
Qed.

(** A pick, forced to a source or not, never lands on the clip that is
    playing. *)
Lemma pickIdleClip_never_repeats
    (force : option IdleSource) (u1 u2 u3 now : R) (a : IdleAnim) :
  0 <= u2 < 1 -> 0 <= u3 < 1 ->
  exists a',
    pickIdleClip force u1 u2 u3 now a = Some a' /\
    (humanIdleClipSource a', humanIdleClipIndex a')
      <> (humanIdleClipSource a, humanIdleClipIndex a) /\
    (0 <= humanIdleClipIndex a'
       < Z.of_nat (length (idleClips (humanIdleClipSource a'))))%Z /\
    humanIdleClipStartedAt a' = now /\
    now + 1 <= humanIdleNextSwitch a' < now + 5 /\
    (humanIdleClipSource a' = loop -> now + 3 <= humanIdleNextSwitch a') /\
    (humanIdleClipSource a' = oneShot -> humanIdleNextSwitch a' = now + 1).
Proof.
  intros Hu2 Hu3.
  pose proof (idle_loop_hold u3 now Hu3) as Hhold.
  unfold pickIdleClip; cbv zeta.
  set (wants := match force with
                | Some f => IdleSource_eqb f oneShot
                | None => u1 <? HUMAN_ANIM_idle_oneShotChance
                end).
  destruct wants.
  - (* one-shot clips: two of them *)
    cbn [HUMAN_ANIM_idle_oneShotClips length Nat.eqb].
    change (Z.of_nat 2) with 2%Z.
    assert (Hd : (0 <= floor (u2 * 2) < 2)%Z) by (apply floor_range; lra).
    revert Hd; generalize (floor (u2 * 2)); intros d Hd.
    assert (Hcases : d = 0%Z \/ d = 1%Z) by lia.
    destruct (humanIdleClipSource a) eqn:Hs; cbn [IdleSource_eqb andb].
    + (* the previous clip was a loop: no clash *)
      rewrite andb_false_r; cbn [andb].
      destruct Hcases as [-> | ->]; cbn;
        (eexists; split; [reflexivity|]);
        cbn [humanIdleClipSource humanIdleClipIndex humanIdleClipStartedAt
             humanIdleNextSwitch idleClips HUMAN_ANIM_idle_oneShotClips
             length Z.of_nat];
        rewrite ?clipDuration_one_a, ?clipDuration_one_b;
        (split; [intros H; inversion H|]);
        repeat split; try lia; try lra; try discriminate.
    + destruct (Z.eqb_spec d (humanIdleClipIndex a)) as [He|Hne];
        cbn [andb].
      * destruct Hcases as [-> | ->]; cbn;
          (eexists; split; [reflexivity|]);
          cbn [humanIdleClipSource humanIdleClipIndex humanIdleClipStartedAt
               humanIdleNextSwitch idleClips HUMAN_ANIM_idle_oneShotClips
               length Z.of_nat];
          rewrite ?clipDuration_one_a, ?clipDuration_one_b;
          (split; [intros H; inversion H; lia|]);
          repeat split; try lia; try lra; try discriminate.
      * destruct Hcases as [-> | ->]; cbn;
          (eexists; split; [reflexivity|]);
          cbn [humanIdleClipSource humanIdleClipIndex humanIdleClipStartedAt
               humanIdleNextSwitch idleClips HUMAN_ANIM_idle_oneShotClips
               length Z.of_nat];
          rewrite ?clipDuration_one_a, ?clipDuration_one_b;
          (split; [intros H; inversion H; lia|]);
          repeat split; try lia; try lra; try discriminate.
  - (* loop clips: four of them *)
    cbn [HUMAN_ANIM_idle_loopClips length Nat.eqb].
    change (Z.of_nat 4) with 4%Z.
    assert (Hd : (0 <= floor (u2 * 4) < 4)%Z) by (apply floor_range; lra).
    revert Hd; generalize (floor (u2 * 4)); intros d Hd.
    assert (Hcases : d = 0%Z \/ d = 1%Z \/ d = 2%Z \/ d = 3%Z) by lia.
    destruct (humanIdleClipSource a) eqn:Hs; cbn [IdleSource_eqb andb].
    + destruct (Z.eqb_spec d (humanIdleClipIndex a)) as [He|Hne];
        cbn [andb].
      * destruct Hcases as [-> | [-> | [-> | ->]]]; cbn;
          (eexists; split; [reflexivity|]);
          cbn [humanIdleClipSource humanIdleClipIndex humanIdleClipStartedAt
               humanIdleNextSwitch idleClips HUMAN_ANIM_idle_loopClips
               length Z.of_nat];
          (split; [intros H; inversion H; lia|]);
          repeat split; try lia; try lra; try discriminate.
      * destruct Hcases as [-> | [-> | [-> | ->]]]; cbn;
          (eexists; split; [reflexivity|]);
          cbn [humanIdleClipSource humanIdleClipIndex humanIdleClipStartedAt
               humanIdleNextSwitch idleClips HUMAN_ANIM_idle_loopClips
               length Z.of_nat];
          (split; [intros H; inversion H; lia|]);
          repeat split; try lia; try lra; try discriminate.
    + rewrite andb_false_r; cbn [andb].
      destruct Hcases as [-> | [-> | [-> | ->]]]; cbn;
        (eexists; split; [reflexivity|]);
        cbn [humanIdleClipSource humanIdleClipIndex humanIdleClipStartedAt
             humanIdleNextSwitch idleClips HUMAN_ANIM_idle_loopClips
             length Z.of_nat];
        (split; [intros H; inversion H|]);
        repeat split; try lia; try lra; try discriminate.
Qed.

(** X30.  The idle animation never switches to the clip that is playing.
    For draws of [[0, 1)], [updateHumanIdleAnimation] raises nothing.  It
    leaves the clip alone while the human jumps, during the first 0.4 s
    after a landing and until [humanIdleNextSwitch] is reached; otherwise
    it picks a clip that differs from the previous one in its source or in
    its index, that is one of the clips of its source, that starts now,
    and whose next switch is at least 1 s and less than 5 s away (1 s for
    a one-shot clip, 3 to 5 s for a loop). *)
Theorem idle_clip_never_repeats
    (g : Game) (dt u1 u2 u3 : R) (a : IdleAnim) :
  0 <= u2 < 1 -> 0 <= u3 < 1 ->
  let switches :=
    negb (HumanState_eqb (hum_state (human g)) jumping)
    && negb (humanIdleElapsed a + dt <? HUMAN_ANIM_idle_delayAfterLand)
    && (humanIdleNextSwitch a <=? time g) in
  exists a',
    updateHumanIdleAnimation g dt u1 u2 u3 a = Some a' /\
    (switches = false ->
       humanIdleClipSource a' = humanIdleClipSource a /\
       humanIdleClipIndex a' = humanIdleClipIndex a /\
       humanIdleClipStartedAt a' = humanIdleClipStartedAt a /\
       humanIdleNextSwitch a' = humanIdleNextSwitch a) /\
    (switches = true ->
       (humanIdleClipSource a', humanIdleClipIndex a')
         <> (humanIdleClipSource a, humanIdleClipIndex a) /\
       (0 <= humanIdleClipIndex a'
          < Z.of_nat (length (idleClips (humanIdleClipSource a'))))%Z /\
       humanIdleClipStartedAt a' = time g /\
       time g + 1 <= humanIdleNextSwitch a' < time g + 5 /\
       (humanIdleClipSource a' = loop ->
          time g + 3 <= humanIdleNextSwitch a') /\
       (humanIdleClipSource a' = oneShot ->
          humanIdleNextSwitch a' = time g + 1)).
Proof.
  intros Hu2 Hu3 switches; subst switches.
  unfold updateHumanIdleAnimation; cbv zeta.
  destruct (HumanState_eqb (hum_state (human g)) jumping); cbn [negb andb].
  { eexists; split; [reflexivity|]. split; [|discriminate].
    intros _; repeat split. }
  cbn [humanIdleElapsed humanIdleNextSwitch].
  destruct (humanIdleElapsed a + dt <? HUMAN_ANIM_idle_delayAfterLand);
    cbn [negb andb].
  { eexists; split; [reflexivity|]. split; [|discriminate].
    intros _; repeat split. }
  destruct (humanIdleNextSwitch a <=? time g).
  - destruct (pickIdleClip_never_repeats None u1 u2 u3 (time g)
      (mkIdleAnim (humanIdleClipIndex a) (humanIdleClipSource a)
         (humanIdleClipStartedAt a) (humanIdleNextSwitch a)
         (humanIdleElapsed a + dt)) Hu2 Hu3) as (a' & Hp & Hrest).
    exists a'; split; [exact Hp|]. split; [discriminate|].
    intros _; exact Hrest.
  - eexists; split; [reflexivity|]. split; [|discriminate].
    intros _; repeat split.
Qed.

(* ================================================================== *)
(** ** The further properties on concrete games *)

Lemma onTheCrawler_hits :
  snd (crawler_onProjectile crawlerAtOne onTheCrawler initialGame) = true.
Proof.
  unfold crawler_onProjectile, crawlerAtOne, onTheCrawler; cbv zeta.
  cbn [bc_active negb bc_y proj_pos v_x v_y].
  rewrite (proj2 (Rleb_true_iff _ _)) by lra. reflexivity.
Qed.

Lemma crawler_rests_for_the_respawn_delay_witness :
  let c1 :=
    crawler_frames
      (fst (fst (crawler_onProjectile crawlerAtOne onTheCrawler initialGame)))
      [(0.5, initialGame); (0.5, initialGame)] in
  bc_active c1 = false /\
  (forall q h, crawler_onProjectile c1 q h = (c1, h, false)) /\
  (features_bonusRespawn (config initialGame)
     <= frames_time [(0.5, initialGame); (0.5, initialGame)] + 1.5 ->
   bc_active (crawler_update c1 1.5 initialGame) = true /\
   bc_y (crawler_update c1 1.5 initialGame) = -2).
Proof.
  apply (crawler_rests_for_the_respawn_delay crawlerAtOne onTheCrawler
           initialGame [(0.5, initialGame); (0.5, initialGame)] 1.5
           initialGame).
  - exact onTheCrawler_hits.
  - repeat constructor; cbn; lra.
  - split; cbn; [reflexivity|lra].
  - cbn; lra.
Defined.

Lemma towardsTheCrawler_hits :
  bc_active crawlerAtOne
  && crawler_reaches crawlerAtOne
       (integrate (physics_gravity (config crawlerGame) * 0.85) 0.03
          towardsTheCrawler) = true.
Proof.
  unfold crawler_reaches, integrate, towardsTheCrawler, crawlerAtOne.
  cbn [bc_active andb bc_y proj_pos proj_vel v_x v_y config crawlerGame
       set_features initialGame resetGame physics_gravity DEFAULT_CONFIG].
  apply Rleb_true_iff. lra.
Qed.

Lemma crawler_hit_pays_once_witness :
  platformsLeft (fst (stepProjectile crawlerGame 0.03 towardsTheCrawler))
    = Z.min (platform_count (config crawlerGame))
            (platformsLeft crawlerGame
             + features_bonusReward (config crawlerGame)) /\
  features (fst (stepProjectile crawlerGame 0.03 towardsTheCrawler))
    = [BonusCrawlerFeature
         (mkCrawler (bc_y crawlerAtOne) false
            (features_bonusRespawn (config crawlerGame)) 0.35)] /\
  proj_active (snd (stepProjectile crawlerGame 0.03 towardsTheCrawler))
    = false /\
  platforms (fst (stepProjectile crawlerGame 0.03 towardsTheCrawler))
    = platforms crawlerGame /\
  human (fst (stepProjectile crawlerGame 0.03 towardsTheCrawler))
    = human crawlerGame.
Proof.
  apply (proj1 (crawler_hit_pays_once crawlerGame 0.03 towardsTheCrawler
                  crawlerAtOne eq_refl eq_refl)).
  exact towardsTheCrawler_hits.
Defined.

Lemma crawler_switched_off_witness :
  bc_active (crawler_update crawlerAtOne 0.03 crawlerOffGame) = false /\
  bc_respawnTimer (crawler_update crawlerAtOne 0.03 crawlerOffGame) = 0 /\
  (forall q h,
     crawler_onProjectile (crawler_update crawlerAtOne 0.03 crawlerOffGame) q h
     = (crawler_update crawlerAtOne 0.03 crawlerOffGame, h, false)) /\
  (forall dt' g',
     features_bonusCrawler (config g') = true -> 0 <= dt' ->
     bc_active
       (crawler_update (crawler_update crawlerAtOne 0.03 crawlerOffGame)
          dt' g') = true /\
     bc_y
       (crawler_update (crawler_update crawlerAtOne 0.03 crawlerOffGame)
          dt' g') = -2).
Proof.
  apply (crawler_switched_off crawlerAtOne 0.03 crawlerOffGame). reflexivity.
Defined.

Lemma bounce_cancels_the_charge_witness :
  heroThrowCharging (s_anim (tick firstSession 16 0)) = false /\
  s_game (handle (tick firstSession 16 0) (Release 0.5))
    = s_game (tick firstSession 16 0).
Proof.
  apply (bounce_cancels_the_charge firstSession 16 0 0.5).
  - reflexivity.
  - unfold groundContact; cbn.
    generalize (tick_dt 0 16); intros dt. nra.
Defined.

Lemma idle_clip_never_repeats_witness :
  let switches :=
    negb (HumanState_eqb (hum_state (human atFirstThrow)) jumping)
    && negb (humanIdleElapsed resetGame_idle + 0.03
             <? HUMAN_ANIM_idle_delayAfterLand)
    && (humanIdleNextSwitch resetGame_idle <=? time atFirstThrow) in
  exists a',
    updateHumanIdleAnimation atFirstThrow 0.03 0.5 0.5 0.5 resetGame_idle
    = Some a' /\
    (switches = false ->
       humanIdleClipSource a' = humanIdleClipSource resetGame_idle /\
       humanIdleClipIndex a' = humanIdleClipIndex resetGame_idle /\
       humanIdleClipStartedAt a' = humanIdleClipStartedAt resetGame_idle /\
       humanIdleNextSwitch a' = humanIdleNextSwitch resetGame_idle) /\
    (switches = true ->
       (humanIdleClipSource a', humanIdleClipIndex a')
         <> (humanIdleClipSource resetGame_idle,
             humanIdleClipIndex resetGame_idle) /\
       (0 <= humanIdleClipIndex a'
          < Z.of_nat (length (idleClips (humanIdleClipSource a'))))%Z /\
       humanIdleClipStartedAt a' = time atFirstThrow /\
       time atFirstThrow + 1 <= humanIdleNextSwitch a'
         < time atFirstThrow + 5 /\
       (humanIdleClipSource a' = loop ->
          time atFirstThrow + 3 <= humanIdleNextSwitch a') /\
       (humanIdleClipSource a' = oneShot ->
          humanIdleNextSwitch a' = time atFirstThrow + 1)).
Proof.
  apply (idle_clip_never_repeats atFirstThrow 0.03 0.5 0.5 0.5 resetGame_idle);
    lra.
Defined.

Lemma score_stays_near_the_platforms_witness :
  exists p,
    In p (platforms (run (resetGame initialGame) [OpTick 0.03 0])) /\
    score (run (resetGame initialGame) [OpTick 0.03 0])
      <= plat_y p + human_jumpArc (config initialGame).
Proof.
  apply (score_stays_near_the_platforms initialGame [OpTick 0.03 0]);
    cbn; lra.
Defined.
